(** * Massa Dungeons: battle game and prediction market

    A shallow embedding of [smart-contracts/assembly/contracts/game.ts]
    (the feature-complete variant at the top of the file: characters,
    equipment, skills, battles with wildcards, single parimutuel pools and
    parlay multipools), together with the properties of the design document
    that were checked against it.

    Conventions.
    - Fixed-width integers ([u8], [u16], [u32], [u64], [u128], [i8]) are
      values of [Z] with the wrap-around written out.
    - [Address] is a wrapper around a string; it is modelled as [string].
    - The byte-keyed contract storage is one finite map from the key text to
      the stored record.  [Args] serialisation is injective, so a stored
      byte array is kept as the record it encodes, tagged with its class;
      decoding a byte array of another class fails like [unwrap] does.
    - A call runs in the monad [M]: it either completes ([Ok]) or aborts
      ([Abort]) and in both cases hands back the world as it was at that
      point, with the ordered log of storage writes, token calls and events.
      [exec] is the host's view of a call: the writes of an aborted call are
      discarded. *)

From Stdlib Require Import ZArith Lia Ascii String.
From stdpp Require Import gmap strings list.

Local Open Scope string_scope.
Local Open Scope Z_scope.

(** ** Fixed-width integers *)

Definition wrap (bits x : Z) : Z := x mod 2 ^ bits.

Definition u8 : Z -> Z := wrap 8.
Definition u16 : Z -> Z := wrap 16.
Definition u32 : Z -> Z := wrap 32.
Definition u64 : Z -> Z := wrap 64.
Definition u128 : Z -> Z := wrap 128.

(** [x as i8]: the low byte read as a signed number. *)
Definition i8 (x : Z) : Z :=
  let y := x mod 256 in if y <? 128 then y else y - 256.

(** as-bignum's [u128] operators. *)
Definition u128_add (a b : Z) : Z := u128 (a + b).
Definition u128_sub (a b : Z) : Z := u128 (a - b).
Definition u128_mul (a b : Z) : Z := u128 (a * b).
Definition u128_div (a b : Z) : Z := a / b.

(** The [f64] nearest to a non-negative integer (ties to even): what
    [parseInt] returns for the decimal text of [n]. *)
Definition f64_of_Z (n : Z) : Z :=
  if n <? 2 ^ 53 then n
  else
    let e := Z.log2 n - 52 in
    let q := n / 2 ^ e in
    let r := n mod 2 ^ e in
    let h := 2 ^ (e - 1) in
    if r <? h then q * 2 ^ e
    else if h <? r then (q + 1) * 2 ^ e
    else (if Z.even q then q else q + 1) * 2 ^ e.

(** Shared constants. *)
Definition ODDS_SCALE_U128 : Z := 1000000.
Definition BASIS_POINTS : Z := 10000.
Definition DEFAULT_HOUSE_EDGE_BPS : Z := 500.

Definition ADMIN_ROLE : string := "admin".
Definition PAUSER_ROLE : string := "pauser".
Definition SETTLER_ROLE : string := "settler".

Definition PAUSED_KEY : string := "paused".
Definition LOCKED_KEY : string := "locked".
Definition AUTH_SETTLER_PREFIX : string := "auth_settler:".

Definition CHARACTER_COUNT_KEY : string := "character_count".
Definition BATTLE_COUNT_KEY : string := "battle_count".
Definition TOTAL_BATTLES_FINISHED_KEY : string := "total_battles_finished".
Definition SINGLE_POOL_COUNT_KEY : string := "single_pool_count".
Definition MULTIPOOL_COUNT_KEY : string := "multipool_count".
Definition TOTAL_BETS_PLACED_KEY : string := "total_bets_placed".
Definition TOTAL_BETS_CLAIMED_KEY : string := "total_bets_claimed".
Definition EQUIPMENT_COUNT_KEY : string := "equipment_count".

Definition TREASURY_BALANCE_KEY : string := "treasury_balance".
Definition TREASURY_WITHDRAWN_KEY : string := "treasury_withdrawn".

Definition STATUS_NONE : Z := 0.
Definition STATUS_POISON : Z := 1.
Definition STATUS_STUN : Z := 2.
Definition STATUS_SHIELD : Z := 4.
Definition STATUS_RAGE : Z := 8.
Definition STATUS_BURN : Z := 16.

Definition RARITY_COMMON : Z := 0.
Definition RARITY_RARE : Z := 1.
Definition RARITY_EPIC : Z := 2.
Definition RARITY_LEGENDARY : Z := 3.

Definition SKILL_NONE : Z := 0.
Definition SKILL_POWER_STRIKE : Z := 1.
Definition SKILL_HEAL : Z := 2.
Definition SKILL_POISON_STRIKE : Z := 3.
Definition SKILL_STUN_STRIKE : Z := 4.
Definition SKILL_SHIELD_WALL : Z := 5.
Definition SKILL_RAGE_MODE : Z := 6.
Definition SKILL_CRITICAL_EYE : Z := 7.
Definition SKILL_DODGE_MASTER : Z := 8.
Definition SKILL_BURN_AURA : Z := 9.
Definition SKILL_COMBO_BREAKER : Z := 10.

Definition MAX_ENERGY : Z := 100.
Definition ENERGY_PER_TURN : Z := 20.

(** ** Data model: the classes of the contract, with one setter per field
    that the code assigns after construction. *)

Module Equipment.

Record t : Type := mk {
  equipmentId : string;
  owner : string;
  type_ : Z;
  rarity : Z;
  hpBonus : Z;
  damageMinBonus : Z;
  damageMaxBonus : Z;
  critBonus : Z;
  dodgeBonus : Z;
  durability : Z;
  currentDurability : Z;
  createdAt : Z
}.

Definition set_owner (v : string) (r : t) : t :=
  mk (equipmentId r) v (type_ r) (rarity r) (hpBonus r) (damageMinBonus r)
    (damageMaxBonus r) (critBonus r) (dodgeBonus r) (durability r) (currentDurability r)
    (createdAt r).

End Equipment.

Module Character.

Record t : Type := mk {
  owner : string;
  characterClass : Z;
  name : string;
  level : Z;
  xp : Z;
  maxHp : Z;
  currentHp : Z;
  baseDamageMin : Z;
  baseDamageMax : Z;
  critChance : Z;
  dodgeChance : Z;
  defense : Z;
  totalWins : Z;
  totalLosses : Z;
  mmr : Z;
  createdAt : Z;
  weaponId : string;
  armorId : string;
  accessoryId : string;
  skill1 : Z;
  skill2 : Z;
  skill3 : Z;
  learnedSkills : string;
  currentEnergy : Z
}.

Definition set_xp (v : Z) (r : t) : t :=
  mk (owner r) (characterClass r) (name r) (level r) v (maxHp r) (currentHp r)
    (baseDamageMin r) (baseDamageMax r) (critChance r) (dodgeChance r) (defense r)
    (totalWins r) (totalLosses r) (mmr r) (createdAt r) (weaponId r) (armorId r)
    (accessoryId r) (skill1 r) (skill2 r) (skill3 r) (learnedSkills r) (currentEnergy r).

Definition set_level (v : Z) (r : t) : t :=
  mk (owner r) (characterClass r) (name r) v (xp r) (maxHp r) (currentHp r)
    (baseDamageMin r) (baseDamageMax r) (critChance r) (dodgeChance r) (defense r)
    (totalWins r) (totalLosses r) (mmr r) (createdAt r) (weaponId r) (armorId r)
    (accessoryId r) (skill1 r) (skill2 r) (skill3 r) (learnedSkills r) (currentEnergy r).

Definition set_maxHp (v : Z) (r : t) : t :=
  mk (owner r) (characterClass r) (name r) (level r) (xp r) v (currentHp r)
    (baseDamageMin r) (baseDamageMax r) (critChance r) (dodgeChance r) (defense r)
    (totalWins r) (totalLosses r) (mmr r) (createdAt r) (weaponId r) (armorId r)
    (accessoryId r) (skill1 r) (skill2 r) (skill3 r) (learnedSkills r) (currentEnergy r).

Definition set_currentHp (v : Z) (r : t) : t :=
  mk (owner r) (characterClass r) (name r) (level r) (xp r) (maxHp r) v (baseDamageMin r)
    (baseDamageMax r) (critChance r) (dodgeChance r) (defense r) (totalWins r)
    (totalLosses r) (mmr r) (createdAt r) (weaponId r) (armorId r) (accessoryId r)
    (skill1 r) (skill2 r) (skill3 r) (learnedSkills r) (currentEnergy r).

Definition set_baseDamageMin (v : Z) (r : t) : t :=
  mk (owner r) (characterClass r) (name r) (level r) (xp r) (maxHp r) (currentHp r) v
    (baseDamageMax r) (critChance r) (dodgeChance r) (defense r) (totalWins r)
    (totalLosses r) (mmr r) (createdAt r) (weaponId r) (armorId r) (accessoryId r)
    (skill1 r) (skill2 r) (skill3 r) (learnedSkills r) (currentEnergy r).

Definition set_baseDamageMax (v : Z) (r : t) : t :=
  mk (owner r) (characterClass r) (name r) (level r) (xp r) (maxHp r) (currentHp r)
    (baseDamageMin r) v (critChance r) (dodgeChance r) (defense r) (totalWins r)
    (totalLosses r) (mmr r) (createdAt r) (weaponId r) (armorId r) (accessoryId r)
    (skill1 r) (skill2 r) (skill3 r) (learnedSkills r) (currentEnergy r).

Definition set_critChance (v : Z) (r : t) : t :=
  mk (owner r) (characterClass r) (name r) (level r) (xp r) (maxHp r) (currentHp r)
    (baseDamageMin r) (baseDamageMax r) v (dodgeChance r) (defense r) (totalWins r)
    (totalLosses r) (mmr r) (createdAt r) (weaponId r) (armorId r) (accessoryId r)
    (skill1 r) (skill2 r) (skill3 r) (learnedSkills r) (currentEnergy r).

Definition set_dodgeChance (v : Z) (r : t) : t :=
  mk (owner r) (characterClass r) (name r) (level r) (xp r) (maxHp r) (currentHp r)
    (baseDamageMin r) (baseDamageMax r) (critChance r) v (defense r) (totalWins r)
    (totalLosses r) (mmr r) (createdAt r) (weaponId r) (armorId r) (accessoryId r)
    (skill1 r) (skill2 r) (skill3 r) (learnedSkills r) (currentEnergy r).

Definition set_totalWins (v : Z) (r : t) : t :=
  mk (owner r) (characterClass r) (name r) (level r) (xp r) (maxHp r) (currentHp r)
    (baseDamageMin r) (baseDamageMax r) (critChance r) (dodgeChance r) (defense r) v
    (totalLosses r) (mmr r) (createdAt r) (weaponId r) (armorId r) (accessoryId r)
    (skill1 r) (skill2 r) (skill3 r) (learnedSkills r) (currentEnergy r).

Definition set_totalLosses (v : Z) (r : t) : t :=
  mk (owner r) (characterClass r) (name r) (level r) (xp r) (maxHp r) (currentHp r)
    (baseDamageMin r) (baseDamageMax r) (critChance r) (dodgeChance r) (defense r)
    (totalWins r) v (mmr r) (createdAt r) (weaponId r) (armorId r) (accessoryId r)
    (skill1 r) (skill2 r) (skill3 r) (learnedSkills r) (currentEnergy r).

Definition set_weaponId (v : string) (r : t) : t :=
  mk (owner r) (characterClass r) (name r) (level r) (xp r) (maxHp r) (currentHp r)
    (baseDamageMin r) (baseDamageMax r) (critChance r) (dodgeChance r) (defense r)
    (totalWins r) (totalLosses r) (mmr r) (createdAt r) v (armorId r) (accessoryId r)
    (skill1 r) (skill2 r) (skill3 r) (learnedSkills r) (currentEnergy r).

Definition set_armorId (v : string) (r : t) : t :=
  mk (owner r) (characterClass r) (name r) (level r) (xp r) (maxHp r) (currentHp r)
    (baseDamageMin r) (baseDamageMax r) (critChance r) (dodgeChance r) (defense r)
    (totalWins r) (totalLosses r) (mmr r) (createdAt r) (weaponId r) v (accessoryId r)
    (skill1 r) (skill2 r) (skill3 r) (learnedSkills r) (currentEnergy r).

Definition set_accessoryId (v : string) (r : t) : t :=
  mk (owner r) (characterClass r) (name r) (level r) (xp r) (maxHp r) (currentHp r)
    (baseDamageMin r) (baseDamageMax r) (critChance r) (dodgeChance r) (defense r)
    (totalWins r) (totalLosses r) (mmr r) (createdAt r) (weaponId r) (armorId r) v
    (skill1 r) (skill2 r) (skill3 r) (learnedSkills r) (currentEnergy r).

Definition set_skill1 (v : Z) (r : t) : t :=
  mk (owner r) (characterClass r) (name r) (level r) (xp r) (maxHp r) (currentHp r)
    (baseDamageMin r) (baseDamageMax r) (critChance r) (dodgeChance r) (defense r)
    (totalWins r) (totalLosses r) (mmr r) (createdAt r) (weaponId r) (armorId r)
    (accessoryId r) v (skill2 r) (skill3 r) (learnedSkills r) (currentEnergy r).

Definition set_skill2 (v : Z) (r : t) : t :=
  mk (owner r) (characterClass r) (name r) (level r) (xp r) (maxHp r) (currentHp r)
    (baseDamageMin r) (baseDamageMax r) (critChance r) (dodgeChance r) (defense r)
    (totalWins r) (totalLosses r) (mmr r) (createdAt r) (weaponId r) (armorId r)
    (accessoryId r) (skill1 r) v (skill3 r) (learnedSkills r) (currentEnergy r).

Definition set_skill3 (v : Z) (r : t) : t :=
  mk (owner r) (characterClass r) (name r) (level r) (xp r) (maxHp r) (currentHp r)
    (baseDamageMin r) (baseDamageMax r) (critChance r) (dodgeChance r) (defense r)
    (totalWins r) (totalLosses r) (mmr r) (createdAt r) (weaponId r) (armorId r)
    (accessoryId r) (skill1 r) (skill2 r) v (learnedSkills r) (currentEnergy r).

Definition set_learnedSkills (v : string) (r : t) : t :=
  mk (owner r) (characterClass r) (name r) (level r) (xp r) (maxHp r) (currentHp r)
    (baseDamageMin r) (baseDamageMax r) (critChance r) (dodgeChance r) (defense r)
    (totalWins r) (totalLosses r) (mmr r) (createdAt r) (weaponId r) (armorId r)
    (accessoryId r) (skill1 r) (skill2 r) (skill3 r) v (currentEnergy r).

Definition set_currentEnergy (v : Z) (r : t) : t :=
  mk (owner r) (characterClass r) (name r) (level r) (xp r) (maxHp r) (currentHp r)
    (baseDamageMin r) (baseDamageMax r) (critChance r) (dodgeChance r) (defense r)
    (totalWins r) (totalLosses r) (mmr r) (createdAt r) (weaponId r) (armorId r)
    (accessoryId r) (skill1 r) (skill2 r) (skill3 r) (learnedSkills r) v.

End Character.

Module Battle.

Record t : Type := mk {
  player1Char : string;
  player2Char : string;
  player1Owner : string;
  player2Owner : string;
  startTs : Z;
  createdAt : Z;
  turnNumber : Z;
  currentTurn : Z;
  isFinished : bool;
  winner : Z;
  player1Hp : Z;
  player2Hp : Z;
  wildcardActive : bool;
  wildcardType : Z;
  wildcardDecisionDeadline : Z;
  wildcardPlayer1Decision : Z;
  wildcardPlayer2Decision : Z;
  player1StatusEffects : Z;
  player2StatusEffects : Z;
  player1StatusDuration : Z;
  player2StatusDuration : Z;
  player1ComboCount : Z;
  player2ComboCount : Z;
  player1Skill1Cooldown : Z;
  player1Skill2Cooldown : Z;
  player1Skill3Cooldown : Z;
  player2Skill1Cooldown : Z;
  player2Skill2Cooldown : Z;
  player2Skill3Cooldown : Z
}.

Definition set_turnNumber (v : Z) (r : t) : t :=
  mk (player1Char r) (player2Char r) (player1Owner r) (player2Owner r) (startTs r)
    (createdAt r) v (currentTurn r) (isFinished r) (winner r) (player1Hp r) (player2Hp r)
    (wildcardActive r) (wildcardType r) (wildcardDecisionDeadline r)
    (wildcardPlayer1Decision r) (wildcardPlayer2Decision r) (player1StatusEffects r)
    (player2StatusEffects r) (player1StatusDuration r) (player2StatusDuration r)
    (player1ComboCount r) (player2ComboCount r) (player1Skill1Cooldown r)
    (player1Skill2Cooldown r) (player1Skill3Cooldown r) (player2Skill1Cooldown r)
    (player2Skill2Cooldown r) (player2Skill3Cooldown r).

Definition set_currentTurn (v : Z) (r : t) : t :=
  mk (player1Char r) (player2Char r) (player1Owner r) (player2Owner r) (startTs r)
    (createdAt r) (turnNumber r) v (isFinished r) (winner r) (player1Hp r) (player2Hp r)
    (wildcardActive r) (wildcardType r) (wildcardDecisionDeadline r)
    (wildcardPlayer1Decision r) (wildcardPlayer2Decision r) (player1StatusEffects r)
    (player2StatusEffects r) (player1StatusDuration r) (player2StatusDuration r)
    (player1ComboCount r) (player2ComboCount r) (player1Skill1Cooldown r)
    (player1Skill2Cooldown r) (player1Skill3Cooldown r) (player2Skill1Cooldown r)
    (player2Skill2Cooldown r) (player2Skill3Cooldown r).

Definition set_isFinished (v : bool) (r : t) : t :=
  mk (player1Char r) (player2Char r) (player1Owner r) (player2Owner r) (startTs r)
    (createdAt r) (turnNumber r) (currentTurn r) v (winner r) (player1Hp r) (player2Hp r)
    (wildcardActive r) (wildcardType r) (wildcardDecisionDeadline r)
    (wildcardPlayer1Decision r) (wildcardPlayer2Decision r) (player1StatusEffects r)
    (player2StatusEffects r) (player1StatusDuration r) (player2StatusDuration r)
    (player1ComboCount r) (player2ComboCount r) (player1Skill1Cooldown r)
    (player1Skill2Cooldown r) (player1Skill3Cooldown r) (player2Skill1Cooldown r)
    (player2Skill2Cooldown r) (player2Skill3Cooldown r).

Definition set_winner (v : Z) (r : t) : t :=
  mk (player1Char r) (player2Char r) (player1Owner r) (player2Owner r) (startTs r)
    (createdAt r) (turnNumber r) (currentTurn r) (isFinished r) v (player1Hp r)
    (player2Hp r) (wildcardActive r) (wildcardType r) (wildcardDecisionDeadline r)
    (wildcardPlayer1Decision r) (wildcardPlayer2Decision r) (player1StatusEffects r)
    (player2StatusEffects r) (player1StatusDuration r) (player2StatusDuration r)
    (player1ComboCount r) (player2ComboCount r) (player1Skill1Cooldown r)
    (player1Skill2Cooldown r) (player1Skill3Cooldown r) (player2Skill1Cooldown r)
    (player2Skill2Cooldown r) (player2Skill3Cooldown r).

Definition set_player1Hp (v : Z) (r : t) : t :=
  mk (player1Char r) (player2Char r) (player1Owner r) (player2Owner r) (startTs r)
    (createdAt r) (turnNumber r) (currentTurn r) (isFinished r) (winner r) v (player2Hp r)
    (wildcardActive r) (wildcardType r) (wildcardDecisionDeadline r)
    (wildcardPlayer1Decision r) (wildcardPlayer2Decision r) (player1StatusEffects r)
    (player2StatusEffects r) (player1StatusDuration r) (player2StatusDuration r)
    (player1ComboCount r) (player2ComboCount r) (player1Skill1Cooldown r)
    (player1Skill2Cooldown r) (player1Skill3Cooldown r) (player2Skill1Cooldown r)
    (player2Skill2Cooldown r) (player2Skill3Cooldown r).

Definition set_player2Hp (v : Z) (r : t) : t :=
  mk (player1Char r) (player2Char r) (player1Owner r) (player2Owner r) (startTs r)
    (createdAt r) (turnNumber r) (currentTurn r) (isFinished r) (winner r) (player1Hp r) v
    (wildcardActive r) (wildcardType r) (wildcardDecisionDeadline r)
    (wildcardPlayer1Decision r) (wildcardPlayer2Decision r) (player1StatusEffects r)
    (player2StatusEffects r) (player1StatusDuration r) (player2StatusDuration r)
    (player1ComboCount r) (player2ComboCount r) (player1Skill1Cooldown r)
    (player1Skill2Cooldown r) (player1Skill3Cooldown r) (player2Skill1Cooldown r)
    (player2Skill2Cooldown r) (player2Skill3Cooldown r).

Definition set_wildcardActive (v : bool) (r : t) : t :=
  mk (player1Char r) (player2Char r) (player1Owner r) (player2Owner r) (startTs r)
    (createdAt r) (turnNumber r) (currentTurn r) (isFinished r) (winner r) (player1Hp r)
    (player2Hp r) v (wildcardType r) (wildcardDecisionDeadline r)
    (wildcardPlayer1Decision r) (wildcardPlayer2Decision r) (player1StatusEffects r)
    (player2StatusEffects r) (player1StatusDuration r) (player2StatusDuration r)
    (player1ComboCount r) (player2ComboCount r) (player1Skill1Cooldown r)
    (player1Skill2Cooldown r) (player1Skill3Cooldown r) (player2Skill1Cooldown r)
    (player2Skill2Cooldown r) (player2Skill3Cooldown r).

Definition set_wildcardType (v : Z) (r : t) : t :=
  mk (player1Char r) (player2Char r) (player1Owner r) (player2Owner r) (startTs r)
    (createdAt r) (turnNumber r) (currentTurn r) (isFinished r) (winner r) (player1Hp r)
    (player2Hp r) (wildcardActive r) v (wildcardDecisionDeadline r)
    (wildcardPlayer1Decision r) (wildcardPlayer2Decision r) (player1StatusEffects r)
    (player2StatusEffects r) (player1StatusDuration r) (player2StatusDuration r)
    (player1ComboCount r) (player2ComboCount r) (player1Skill1Cooldown r)
    (player1Skill2Cooldown r) (player1Skill3Cooldown r) (player2Skill1Cooldown r)
    (player2Skill2Cooldown r) (player2Skill3Cooldown r).

Definition set_wildcardDecisionDeadline (v : Z) (r : t) : t :=
  mk (player1Char r) (player2Char r) (player1Owner r) (player2Owner r) (startTs r)
    (createdAt r) (turnNumber r) (currentTurn r) (isFinished r) (winner r) (player1Hp r)
    (player2Hp r) (wildcardActive r) (wildcardType r) v (wildcardPlayer1Decision r)
    (wildcardPlayer2Decision r) (player1StatusEffects r) (player2StatusEffects r)
    (player1StatusDuration r) (player2StatusDuration r) (player1ComboCount r)
    (player2ComboCount r) (player1Skill1Cooldown r) (player1Skill2Cooldown r)
    (player1Skill3Cooldown r) (player2Skill1Cooldown r) (player2Skill2Cooldown r)
    (player2Skill3Cooldown r).

Definition set_wildcardPlayer1Decision (v : Z) (r : t) : t :=
  mk (player1Char r) (player2Char r) (player1Owner r) (player2Owner r) (startTs r)
    (createdAt r) (turnNumber r) (currentTurn r) (isFinished r) (winner r) (player1Hp r)
    (player2Hp r) (wildcardActive r) (wildcardType r) (wildcardDecisionDeadline r) v
    (wildcardPlayer2Decision r) (player1StatusEffects r) (player2StatusEffects r)
    (player1StatusDuration r) (player2StatusDuration r) (player1ComboCount r)
    (player2ComboCount r) (player1Skill1Cooldown r) (player1Skill2Cooldown r)
    (player1Skill3Cooldown r) (player2Skill1Cooldown r) (player2Skill2Cooldown r)
    (player2Skill3Cooldown r).

Definition set_wildcardPlayer2Decision (v : Z) (r : t) : t :=
  mk (player1Char r) (player2Char r) (player1Owner r) (player2Owner r) (startTs r)
    (createdAt r) (turnNumber r) (currentTurn r) (isFinished r) (winner r) (player1Hp r)
    (player2Hp r) (wildcardActive r) (wildcardType r) (wildcardDecisionDeadline r)
    (wildcardPlayer1Decision r) v (player1StatusEffects r) (player2StatusEffects r)
    (player1StatusDuration r) (player2StatusDuration r) (player1ComboCount r)
    (player2ComboCount r) (player1Skill1Cooldown r) (player1Skill2Cooldown r)
    (player1Skill3Cooldown r) (player2Skill1Cooldown r) (player2Skill2Cooldown r)
    (player2Skill3Cooldown r).

Definition set_player1StatusEffects (v : Z) (r : t) : t :=
  mk (player1Char r) (player2Char r) (player1Owner r) (player2Owner r) (startTs r)
    (createdAt r) (turnNumber r) (currentTurn r) (isFinished r) (winner r) (player1Hp r)
    (player2Hp r) (wildcardActive r) (wildcardType r) (wildcardDecisionDeadline r)
    (wildcardPlayer1Decision r) (wildcardPlayer2Decision r) v (player2StatusEffects r)
    (player1StatusDuration r) (player2StatusDuration r) (player1ComboCount r)
    (player2ComboCount r) (player1Skill1Cooldown r) (player1Skill2Cooldown r)
    (player1Skill3Cooldown r) (player2Skill1Cooldown r) (player2Skill2Cooldown r)
    (player2Skill3Cooldown r).

Definition set_player2StatusEffects (v : Z) (r : t) : t :=
  mk (player1Char r) (player2Char r) (player1Owner r) (player2Owner r) (startTs r)
    (createdAt r) (turnNumber r) (currentTurn r) (isFinished r) (winner r) (player1Hp r)
    (player2Hp r) (wildcardActive r) (wildcardType r) (wildcardDecisionDeadline r)
    (wildcardPlayer1Decision r) (wildcardPlayer2Decision r) (player1StatusEffects r) v
    (player1StatusDuration r) (player2StatusDuration r) (player1ComboCount r)
    (player2ComboCount r) (player1Skill1Cooldown r) (player1Skill2Cooldown r)
    (player1Skill3Cooldown r) (player2Skill1Cooldown r) (player2Skill2Cooldown r)
    (player2Skill3Cooldown r).

Definition set_player1StatusDuration (v : Z) (r : t) : t :=
  mk (player1Char r) (player2Char r) (player1Owner r) (player2Owner r) (startTs r)
    (createdAt r) (turnNumber r) (currentTurn r) (isFinished r) (winner r) (player1Hp r)
    (player2Hp r) (wildcardActive r) (wildcardType r) (wildcardDecisionDeadline r)
    (wildcardPlayer1Decision r) (wildcardPlayer2Decision r) (player1StatusEffects r)
    (player2StatusEffects r) v (player2StatusDuration r) (player1ComboCount r)
    (player2ComboCount r) (player1Skill1Cooldown r) (player1Skill2Cooldown r)
    (player1Skill3Cooldown r) (player2Skill1Cooldown r) (player2Skill2Cooldown r)
    (player2Skill3Cooldown r).

Definition set_player2StatusDuration (v : Z) (r : t) : t :=
  mk (player1Char r) (player2Char r) (player1Owner r) (player2Owner r) (startTs r)
    (createdAt r) (turnNumber r) (currentTurn r) (isFinished r) (winner r) (player1Hp r)
    (player2Hp r) (wildcardActive r) (wildcardType r) (wildcardDecisionDeadline r)
    (wildcardPlayer1Decision r) (wildcardPlayer2Decision r) (player1StatusEffects r)
    (player2StatusEffects r) (player1StatusDuration r) v (player1ComboCount r)
    (player2ComboCount r) (player1Skill1Cooldown r) (player1Skill2Cooldown r)
    (player1Skill3Cooldown r) (player2Skill1Cooldown r) (player2Skill2Cooldown r)
    (player2Skill3Cooldown r).

Definition set_player1ComboCount (v : Z) (r : t) : t :=
  mk (player1Char r) (player2Char r) (player1Owner r) (player2Owner r) (startTs r)
    (createdAt r) (turnNumber r) (currentTurn r) (isFinished r) (winner r) (player1Hp r)
    (player2Hp r) (wildcardActive r) (wildcardType r) (wildcardDecisionDeadline r)
    (wildcardPlayer1Decision r) (wildcardPlayer2Decision r) (player1StatusEffects r)
    (player2StatusEffects r) (player1StatusDuration r) (player2StatusDuration r) v
    (player2ComboCount r) (player1Skill1Cooldown r) (player1Skill2Cooldown r)
    (player1Skill3Cooldown r) (player2Skill1Cooldown r) (player2Skill2Cooldown r)
    (player2Skill3Cooldown r).

Definition set_player2ComboCount (v : Z) (r : t) : t :=
  mk (player1Char r) (player2Char r) (player1Owner r) (player2Owner r) (startTs r)
    (createdAt r) (turnNumber r) (currentTurn r) (isFinished r) (winner r) (player1Hp r)
    (player2Hp r) (wildcardActive r) (wildcardType r) (wildcardDecisionDeadline r)
    (wildcardPlayer1Decision r) (wildcardPlayer2Decision r) (player1StatusEffects r)
    (player2StatusEffects r) (player1StatusDuration r) (player2StatusDuration r)
    (player1ComboCount r) v (player1Skill1Cooldown r) (player1Skill2Cooldown r)
    (player1Skill3Cooldown r) (player2Skill1Cooldown r) (player2Skill2Cooldown r)
    (player2Skill3Cooldown r).

Definition set_player1Skill1Cooldown (v : Z) (r : t) : t :=
  mk (player1Char r) (player2Char r) (player1Owner r) (player2Owner r) (startTs r)
    (createdAt r) (turnNumber r) (currentTurn r) (isFinished r) (winner r) (player1Hp r)
    (player2Hp r) (wildcardActive r) (wildcardType r) (wildcardDecisionDeadline r)
    (wildcardPlayer1Decision r) (wildcardPlayer2Decision r) (player1StatusEffects r)
    (player2StatusEffects r) (player1StatusDuration r) (player2StatusDuration r)
    (player1ComboCount r) (player2ComboCount r) v (player1Skill2Cooldown r)
    (player1Skill3Cooldown r) (player2Skill1Cooldown r) (player2Skill2Cooldown r)
    (player2Skill3Cooldown r).

Definition set_player1Skill2Cooldown (v : Z) (r : t) : t :=
  mk (player1Char r) (player2Char r) (player1Owner r) (player2Owner r) (startTs r)
    (createdAt r) (turnNumber r) (currentTurn r) (isFinished r) (winner r) (player1Hp r)
    (player2Hp r) (wildcardActive r) (wildcardType r) (wildcardDecisionDeadline r)
    (wildcardPlayer1Decision r) (wildcardPlayer2Decision r) (player1StatusEffects r)
    (player2StatusEffects r) (player1StatusDuration r) (player2StatusDuration r)
    (player1ComboCount r) (player2ComboCount r) (player1Skill1Cooldown r) v
    (player1Skill3Cooldown r) (player2Skill1Cooldown r) (player2Skill2Cooldown r)
    (player2Skill3Cooldown r).

Definition set_player1Skill3Cooldown (v : Z) (r : t) : t :=
  mk (player1Char r) (player2Char r) (player1Owner r) (player2Owner r) (startTs r)
    (createdAt r) (turnNumber r) (currentTurn r) (isFinished r) (winner r) (player1Hp r)
    (player2Hp r) (wildcardActive r) (wildcardType r) (wildcardDecisionDeadline r)
    (wildcardPlayer1Decision r) (wildcardPlayer2Decision r) (player1StatusEffects r)
    (player2StatusEffects r) (player1StatusDuration r) (player2StatusDuration r)
    (player1ComboCount r) (player2ComboCount r) (player1Skill1Cooldown r)
    (player1Skill2Cooldown r) v (player2Skill1Cooldown r) (player2Skill2Cooldown r)
    (player2Skill3Cooldown r).

Definition set_player2Skill1Cooldown (v : Z) (r : t) : t :=
  mk (player1Char r) (player2Char r) (player1Owner r) (player2Owner r) (startTs r)
    (createdAt r) (turnNumber r) (currentTurn r) (isFinished r) (winner r) (player1Hp r)
    (player2Hp r) (wildcardActive r) (wildcardType r) (wildcardDecisionDeadline r)
    (wildcardPlayer1Decision r) (wildcardPlayer2Decision r) (player1StatusEffects r)
    (player2StatusEffects r) (player1StatusDuration r) (player2StatusDuration r)
    (player1ComboCount r) (player2ComboCount r) (player1Skill1Cooldown r)
    (player1Skill2Cooldown r) (player1Skill3Cooldown r) v (player2Skill2Cooldown r)
    (player2Skill3Cooldown r).

Definition set_player2Skill2Cooldown (v : Z) (r : t) : t :=
  mk (player1Char r) (player2Char r) (player1Owner r) (player2Owner r) (startTs r)
    (createdAt r) (turnNumber r) (currentTurn r) (isFinished r) (winner r) (player1Hp r)
    (player2Hp r) (wildcardActive r) (wildcardType r) (wildcardDecisionDeadline r)
    (wildcardPlayer1Decision r) (wildcardPlayer2Decision r) (player1StatusEffects r)
    (player2StatusEffects r) (player1StatusDuration r) (player2StatusDuration r)
    (player1ComboCount r) (player2ComboCount r) (player1Skill1Cooldown r)
    (player1Skill2Cooldown r) (player1Skill3Cooldown r) (player2Skill1Cooldown r) v
    (player2Skill3Cooldown r).

Definition set_player2Skill3Cooldown (v : Z) (r : t) : t :=
  mk (player1Char r) (player2Char r) (player1Owner r) (player2Owner r) (startTs r)
    (createdAt r) (turnNumber r) (currentTurn r) (isFinished r) (winner r) (player1Hp r)
    (player2Hp r) (wildcardActive r) (wildcardType r) (wildcardDecisionDeadline r)
    (wildcardPlayer1Decision r) (wildcardPlayer2Decision r) (player1StatusEffects r)
    (player2StatusEffects r) (player1StatusDuration r) (player2StatusDuration r)
    (player1ComboCount r) (player2ComboCount r) (player1Skill1Cooldown r)
    (player1Skill2Cooldown r) (player1Skill3Cooldown r) (player2Skill1Cooldown r)
    (player2Skill2Cooldown r) v.

End Battle.

Module SinglePool.

Record t : Type := mk {
  poolId : string;
  battleId : string;
  token : string;
  closeTs : Z;
  totalPool : Z;
  outcomeABets : Z;
  outcomeBBets : Z;
  outcomeAOddsFP : Z;
  outcomeBOddsFP : Z;
  houseEdgeBps : Z;
  isClosed : bool;
  isSettled : bool;
  winningOutcome : Z;
  createdAt : Z;
  maxPoolSize : Z;
  minBetSize : Z;
  maxBetSize : Z
}.

Definition set_totalPool (v : Z) (r : t) : t :=
  mk (poolId r) (battleId r) (token r) (closeTs r) v (outcomeABets r) (outcomeBBets r)
    (outcomeAOddsFP r) (outcomeBOddsFP r) (houseEdgeBps r) (isClosed r) (isSettled r)
    (winningOutcome r) (createdAt r) (maxPoolSize r) (minBetSize r) (maxBetSize r).

Definition set_outcomeABets (v : Z) (r : t) : t :=
  mk (poolId r) (battleId r) (token r) (closeTs r) (totalPool r) v (outcomeBBets r)
    (outcomeAOddsFP r) (outcomeBOddsFP r) (houseEdgeBps r) (isClosed r) (isSettled r)
    (winningOutcome r) (createdAt r) (maxPoolSize r) (minBetSize r) (maxBetSize r).

Definition set_outcomeBBets (v : Z) (r : t) : t :=
  mk (poolId r) (battleId r) (token r) (closeTs r) (totalPool r) (outcomeABets r) v
    (outcomeAOddsFP r) (outcomeBOddsFP r) (houseEdgeBps r) (isClosed r) (isSettled r)
    (winningOutcome r) (createdAt r) (maxPoolSize r) (minBetSize r) (maxBetSize r).

Definition set_outcomeAOddsFP (v : Z) (r : t) : t :=
  mk (poolId r) (battleId r) (token r) (closeTs r) (totalPool r) (outcomeABets r)
    (outcomeBBets r) v (outcomeBOddsFP r) (houseEdgeBps r) (isClosed r) (isSettled r)
    (winningOutcome r) (createdAt r) (maxPoolSize r) (minBetSize r) (maxBetSize r).

Definition set_outcomeBOddsFP (v : Z) (r : t) : t :=
  mk (poolId r) (battleId r) (token r) (closeTs r) (totalPool r) (outcomeABets r)
    (outcomeBBets r) (outcomeAOddsFP r) v (houseEdgeBps r) (isClosed r) (isSettled r)
    (winningOutcome r) (createdAt r) (maxPoolSize r) (minBetSize r) (maxBetSize r).

Definition set_isClosed (v : bool) (r : t) : t :=
  mk (poolId r) (battleId r) (token r) (closeTs r) (totalPool r) (outcomeABets r)
    (outcomeBBets r) (outcomeAOddsFP r) (outcomeBOddsFP r) (houseEdgeBps r) v
    (isSettled r) (winningOutcome r) (createdAt r) (maxPoolSize r) (minBetSize r)
    (maxBetSize r).

Definition set_isSettled (v : bool) (r : t) : t :=
  mk (poolId r) (battleId r) (token r) (closeTs r) (totalPool r) (outcomeABets r)
    (outcomeBBets r) (outcomeAOddsFP r) (outcomeBOddsFP r) (houseEdgeBps r) (isClosed r) v
    (winningOutcome r) (createdAt r) (maxPoolSize r) (minBetSize r) (maxBetSize r).

Definition set_winningOutcome (v : Z) (r : t) : t :=
  mk (poolId r) (battleId r) (token r) (closeTs r) (totalPool r) (outcomeABets r)
    (outcomeBBets r) (outcomeAOddsFP r) (outcomeBOddsFP r) (houseEdgeBps r) (isClosed r)
    (isSettled r) v (createdAt r) (maxPoolSize r) (minBetSize r) (maxBetSize r).

End SinglePool.

Module SingleBet.

Record t : Type := mk {
  bettor : string;
  poolId : string;
  amount : Z;
  outcome : Z;
  isClaimed : bool;
  placedAt : Z
}.

Definition set_isClaimed (v : bool) (r : t) : t :=
  mk (bettor r) (poolId r) (amount r) (outcome r) v (placedAt r).

End SingleBet.

Module Multipool.

Record t : Type := mk {
  multipoolId : string;
  token : string;
  totalPool : Z;
  totalWeightFP : Z;
  totalWinnerWeightFP : Z;
  isFinalized : bool;
  houseEdgeBps : Z;
  createdAt : Z
}.

Definition set_totalPool (v : Z) (r : t) : t :=
  mk (multipoolId r) (token r) v (totalWeightFP r) (totalWinnerWeightFP r) (isFinalized r)
    (houseEdgeBps r) (createdAt r).

Definition set_totalWeightFP (v : Z) (r : t) : t :=
  mk (multipoolId r) (token r) (totalPool r) v (totalWinnerWeightFP r) (isFinalized r)
    (houseEdgeBps r) (createdAt r).

Definition set_totalWinnerWeightFP (v : Z) (r : t) : t :=
  mk (multipoolId r) (token r) (totalPool r) (totalWeightFP r) v (isFinalized r)
    (houseEdgeBps r) (createdAt r).

Definition set_isFinalized (v : bool) (r : t) : t :=
  mk (multipoolId r) (token r) (totalPool r) (totalWeightFP r) (totalWinnerWeightFP r) v
    (houseEdgeBps r) (createdAt r).

End Multipool.

Module Betslip.

Record t : Type := mk {
  betslipId : string;
  bettor : string;
  multipoolId : string;
  amount : Z;
  selections : list string;
  combinedOddsFP : Z;
  weightFP : Z;
  isWinner : bool;
  isClaimed : bool;
  isAccounted : bool;
  placedAt : Z
}.

Definition set_isWinner (v : bool) (r : t) : t :=
  mk (betslipId r) (bettor r) (multipoolId r) (amount r) (selections r) (combinedOddsFP r)
    (weightFP r) v (isClaimed r) (isAccounted r) (placedAt r).

Definition set_isClaimed (v : bool) (r : t) : t :=
  mk (betslipId r) (bettor r) (multipoolId r) (amount r) (selections r) (combinedOddsFP r)
    (weightFP r) (isWinner r) v (isAccounted r) (placedAt r).

Definition set_isAccounted (v : bool) (r : t) : t :=
  mk (betslipId r) (bettor r) (multipoolId r) (amount r) (selections r) (combinedOddsFP r)
    (weightFP r) (isWinner r) (isClaimed r) v (placedAt r).

End Betslip.

Module PropBet.

Record t : Type := mk {
  propId : string;
  battleId : string;
  propType : Z;
  threshold : Z;
  description : string;
  yesPool : Z;
  noPool : Z;
  isResolved : bool;
  outcome : bool;
  createdAt : Z
}.

Definition set_yesPool (v : Z) (r : t) : t :=
  mk (propId r) (battleId r) (propType r) (threshold r) (description r) v (noPool r)
    (isResolved r) (outcome r) (createdAt r).

Definition set_noPool (v : Z) (r : t) : t :=
  mk (propId r) (battleId r) (propType r) (threshold r) (description r) (yesPool r) v
    (isResolved r) (outcome r) (createdAt r).

Definition set_isResolved (v : bool) (r : t) : t :=
  mk (propId r) (battleId r) (propType r) (threshold r) (description r) (yesPool r)
    (noPool r) v (outcome r) (createdAt r).

Definition set_outcome (v : bool) (r : t) : t :=
  mk (propId r) (battleId r) (propType r) (threshold r) (description r) (yesPool r)
    (noPool r) (isResolved r) v (createdAt r).

End PropBet.

Module PropTicket.

Record t : Type := mk {
  propId : string;
  bettor : string;
  amount : Z;
  prediction : bool;
  isClaimed : bool;
  placedAt : Z
}.

Definition set_isClaimed (v : bool) (r : t) : t :=
  mk (propId r) (bettor r) (amount r) (prediction r) v (placedAt r).

End PropTicket.

(** ** Text helpers: decimal numbers, [split] and [join] *)

Definition digit_char (d : Z) : ascii := ascii_of_nat (Z.to_nat (48 + d)).

Fixpoint digits_fuel (fuel : nat) (n : Z) (acc : string) : string :=
  match fuel with
  | O => acc
  | S fuel' =>
      let acc' := String (digit_char (n mod 10)) acc in
      if n <? 10 then acc' else digits_fuel fuel' (n / 10) acc'
  end.

(** [toString] of an unsigned number of at most 128 bits (39 digits). *)
Definition utoa (n : Z) : string := digits_fuel 40 n "".

(** [toString] of a signed number. *)
Definition itoa (n : Z) : string :=
  if n <? 0 then String "-" (utoa (- n)) else utoa n.

Definition digit_of (c : ascii) : option Z :=
  let n := Z.of_nat (nat_of_ascii c) in
  if (48 <=? n) && (n <=? 57) then Some (n - 48) else None.

Fixpoint parse_digits (s : string) (acc : option Z) : option Z :=
  match s with
  | EmptyString => acc
  | String c rest =>
      match digit_of c with
      | Some d => parse_digits rest (Some (10 * default 0 acc + d))
      | None => acc
      end
  end.

(** [parseInt] on decimal text: an optional sign, then the longest run of
    digits; [None] stands for [NaN]. *)
Definition parseInt (s : string) : option Z :=
  match s with
  | String "-" rest => Z.opp <$> parse_digits rest None
  | String "+" rest => parse_digits rest None
  | _ => parse_digits s None
  end.

(** [s.split(c)] for a one-character separator: the pieces, never empty. *)
Fixpoint split_char (c : ascii) (s : string) : string * list string :=
  match s with
  | EmptyString => (EmptyString, [])
  | String a rest =>
      let '(h, t) := split_char c rest in
      if bool_decide (a = c) then (EmptyString, h :: t) else (String a h, t)
  end.

Definition split1 (c : ascii) (s : string) : list string :=
  let '(h, t) := split_char c s in h :: t.

(** [s.split(c1 c2)] for a two-character separator, matched left to right. *)
Fixpoint split_pair (c1 c2 : ascii) (s : string) : string * list string :=
  match s with
  | EmptyString => (EmptyString, [])
  | String a rest =>
      match rest with
      | String b rest' =>
          if bool_decide (a = c1) && bool_decide (b = c2)
          then let '(h, t) := split_pair c1 c2 rest' in (EmptyString, h :: t)
          else let '(h, t) := split_pair c1 c2 rest in (String a h, t)
      | EmptyString => (String a EmptyString, [])
      end
  end.

Definition split2 (c1 c2 : ascii) (s : string) : list string :=
  let '(h, t) := split_pair c1 c2 s in h :: t.

Fixpoint join (sep : string) (l : list string) : string :=
  match l with
  | [] => EmptyString
  | [x] => x
  | x :: rest => x +:+ sep +:+ join sep rest
  end.

(** ** Host interface: call context, storage, token ledger, log *)

Record Ctx : Type := mkCtx {
  caller : string;
  callee : string;
  timestamp : Z;
  callerHasWriteAccess : bool
}.

(** What a storage cell holds.  [VText] is the text written by [setString]
    and [setBool]; [VNum n] is the decimal text of the counter [n] written
    by [setCounter]. *)
Inductive Value : Type :=
| VText (s : string)
| VNum (n : Z)
| VEquipment (e : Equipment.t)
| VCharacter (c : Character.t)
| VBattle (b : Battle.t)
| VSinglePool (p : SinglePool.t)
| VSingleBet (b : SingleBet.t)
| VMultipool (m : Multipool.t)
| VBetslip (s : Betslip.t)
| VPropBet (p : PropBet.t)
| VPropTicket (t : PropTicket.t).

Inductive Effect : Type :=
| EWrite (key : string) (v : Value)
| EDelete (key : string)
| EBalanceOf (token holder : string)
| EAllowance (token owner spender : string)
| ETransfer (token recipient : string) (amount : Z)
| ETransferFrom (token owner recipient : string) (amount : Z)
| EEvent (tag : string) (ids : list string) (nums : list Z).

Record World : Type := mkWorld {
  storage : gmap string Value;
  balances : gmap (string * string) Z;
  allowances : gmap (string * string * string) Z;
  log : list Effect
}.

Definition set_storage (s : gmap string Value) (w : World) : World :=
  mkWorld s (balances w) (allowances w) (log w).
Definition set_balances (b : gmap (string * string) Z) (w : World) : World :=
  mkWorld (storage w) b (allowances w) (log w).
Definition set_allowances (a : gmap (string * string * string) Z) (w : World) : World :=
  mkWorld (storage w) (balances w) a (log w).
Definition emit (e : Effect) (w : World) : World :=
  mkWorld (storage w) (balances w) (allowances w) (log w ++ [e]).

Inductive Result (A : Type) : Type :=
| Ok (a : A) (w : World)
| Abort (msg : string) (w : World).
Arguments Ok {A} a w.
Arguments Abort {A} msg w.

Definition M (A : Type) : Type := World -> Result A.

Definition ret {A : Type} (a : A) : M A := fun w => Ok a w.
Definition bind {A B : Type} (c : M A) (k : A -> M B) : M B :=
  fun w => match c w with
           | Ok a w' => k a w'
           | Abort msg w' => Abort msg w'
           end.
Definition abort {A : Type} (msg : string) : M A := fun w => Abort msg w.
Definition assert_ (b : bool) (msg : string) : M unit :=
  if b then ret tt else abort msg.

Notation "x <- c ;; k" := (bind c (fun x => k))
  (at level 100, c at next level, right associativity).
Notation "c ;; k" := (bind c (fun _ => k))
  (at level 100, right associativity).

(** The host's view of a call: an aborted call leaves no trace. *)
Definition exec (c : M unit) (w : World) : World :=
  match c w with
  | Ok _ w' => w'
  | Abort _ _ => w
  end.

(** *** Storage helper functions *)

Definition hasKey (key : string) : M bool :=
  fun w => Ok (bool_decide (is_Some (storage w !! key))) w.

Definition getBytes (key : string) : M Value :=
  fun w => match storage w !! key with
           | Some v => Ok v w
           | None => Abort "Storage.get: missing key" w
           end.

Definition write (key : string) (v : Value) (w : World) : World :=
  emit (EWrite key v) (set_storage (<[key := v]> (storage w)) w).

Definition erase (key : string) (w : World) : World :=
  emit (EDelete key) (set_storage (delete key (storage w)) w).

Definition setBytes (key : string) (v : Value) : M unit :=
  fun w => Ok tt (write key v w).

Definition deleteKey (key : string) : M unit :=
  fun w => Ok tt (erase key w).

(** What [getCounter] reads where it does not trap. *)
Definition counter_of (w : World) (key : string) : Z :=
  match storage w !! key with
  | Some (VNum n) => f64_of_Z n
  | _ => 0
  end.

Definition getCounter (key : string) : M Z :=
  has <- hasKey key ;;
  if negb has then ret 0
  else
    v <- getBytes key ;;
    match v with
    | VNum n =>
        let f := f64_of_Z n in
        if f <? 2 ^ 64 then ret f else abort "u64: float out of range"
    | _ => abort "parseInt: not a number"
    end.

Definition setCounter (key : string) (value : Z) : M unit :=
  setBytes key (VNum value).

Definition incrementCounter (key : string) : M Z :=
  current <- getCounter key ;;
  let next := u64 (current + 1) in
  setCounter key next ;;
  ret next.

Definition getString (key : string) : M string :=
  has <- hasKey key ;;
  if negb has then ret ""
  else
    v <- getBytes key ;;
    match v with
    | VText s => ret s
    | _ => abort "bytesToStr: not text"
    end.

Definition setString (key value : string) : M unit :=
  setBytes key (VText value).

Definition getBool (key : string) : M bool :=
  s <- getString key ;;
  ret (bool_decide (s = "true")).

Definition setBool (key : string) (value : bool) : M unit :=
  setString key (if value then "true" else "false").

Definition generateEvent (tag : string) (ids : list string) (nums : list Z) : M unit :=
  fun w => Ok tt (emit (EEvent tag ids nums) w).

(** *** IERC20

    Modelled from the spec: the token contract behind [IERC20] is an
    external collaborator whose code is not part of the repository.
    [balanceOf] and [allowance] read the ledger; [transferFrom] fails on
    insufficient allowance or balance; [transfer] fails on insufficient
    balance of the calling contract. *)

Definition balance_of (w : World) (token holder : string) : Z :=
  default 0 (balances w !! (token, holder)).

Definition allowance_of (w : World) (token owner spender : string) : Z :=
  default 0 (allowances w !! (token, owner, spender)).

Definition move_tokens (token src dst : string) (amount : Z) (w : World) : World :=
  let w1 := set_balances (<[(token, src) := balance_of w token src - amount]> (balances w)) w in
  set_balances (<[(token, dst) := balance_of w1 token dst + amount]> (balances w1)) w1.

Section Calls.

Variable ctx : Ctx.

Definition balanceOf (token holder : string) : M Z :=
  fun w => Ok (balance_of w token holder) (emit (EBalanceOf token holder) w).

Definition allowance (token owner spender : string) : M Z :=
  fun w => Ok (allowance_of w token owner spender) (emit (EAllowance token owner spender) w).

Definition transferFrom (token owner recipient : string) (amount : Z) : M unit :=
  fun w =>
    let w0 := emit (ETransferFrom token owner recipient amount) w in
    if (amount <=? allowance_of w token owner (callee ctx)) && (amount <=? balance_of w token owner)
    then
      let w1 := set_allowances
                  (<[(token, owner, callee ctx) := allowance_of w token owner (callee ctx) - amount]>
                     (allowances w0)) w0 in
      Ok tt (move_tokens token owner recipient amount w1)
    else Abort "IERC20.transferFrom failed" w0.

Definition transfer (token recipient : string) (amount : Z) : M unit :=
  fun w =>
    let w0 := emit (ETransfer token recipient amount) w in
    if amount <=? balance_of w token (callee ctx)
    then Ok tt (move_tokens token (callee ctx) recipient amount w0)
    else Abort "IERC20.transfer failed" w0.

(** *** Common helpers *)

Definition onlyRole (role : string) : M unit :=
  let roleKey := role +:+ ":" +:+ caller ctx in
  has <- hasKey roleKey ;;
  assert_ has "Access denied: missing role".

Definition whenNotPaused : M unit :=
  paused <- getBool PAUSED_KEY ;;
  assert_ (negb paused) "Contract paused".

Definition nonReentrant : M unit :=
  locked <- hasKey LOCKED_KEY ;;
  assert_ (negb locked) "Reentrancy guard" ;;
  setBool LOCKED_KEY true.

Definition endNonReentrant : M unit := deleteKey LOCKED_KEY.

(** ** Prediction contract: single parimutuel pools *)

Definition SINGLE_POOL_PREFIX : string := "spool:".
Definition SINGLE_BET_PREFIX : string := "sbet:".
Definition MULTIPOOL_PREFIX : string := "mpool:".
Definition BETSLIP_PREFIX : string := "betslip:".
Definition BETTING_STREAK_PREFIX : string := "streak:".

Definition spoolKey (id : string) : string := SINGLE_POOL_PREFIX +:+ id.
Definition sbetKey (poolId bettor : string) : string :=
  SINGLE_BET_PREFIX +:+ poolId +:+ ":" +:+ bettor.
Definition mpoolKey (id : string) : string := MULTIPOOL_PREFIX +:+ id.
Definition betslipKey (id : string) : string := BETSLIP_PREFIX +:+ id.
Definition streakKey (addr : string) : string := BETTING_STREAK_PREFIX +:+ addr.

Definition deserializeSinglePool (v : Value) : M SinglePool.t :=
  match v with VSinglePool p => ret p | _ => abort "SinglePool.deserialize" end.
Definition deserializeSingleBet (v : Value) : M SingleBet.t :=
  match v with VSingleBet b => ret b | _ => abort "SingleBet.deserialize" end.
Definition deserializeMultipool (v : Value) : M Multipool.t :=
  match v with VMultipool m => ret m | _ => abort "Multipool.deserialize" end.
Definition deserializeBetslip (v : Value) : M Betslip.t :=
  match v with VBetslip s => ret s | _ => abort "Betslip.deserialize" end.

Definition prediction_constructor : M unit :=
  assert_ (callerHasWriteAccess ctx) "must be deployer" ;;
  setString (ADMIN_ROLE +:+ ":" +:+ caller ctx) "1" ;;
  setBool "prediction_initialized" true ;;
  setCounter SINGLE_POOL_COUNT_KEY 0 ;;
  setCounter MULTIPOOL_COUNT_KEY 0 ;;
  setCounter TOTAL_BETS_PLACED_KEY 0 ;;
  setCounter TOTAL_BETS_CLAIMED_KEY 0 ;;
  generateEvent "Prediction contract deployed" [] [].

Definition prediction_createSinglePool (poolId battleId tokenAddr : string) (closeTs : Z)
  : M unit :=
  whenNotPaused ;;
  nonReentrant ;;
  let closeTs := u64 closeTs in
  present <- hasKey (spoolKey poolId) ;;
  assert_ (negb present) "pool exists" ;;
  let p := SinglePool.mk poolId battleId tokenAddr closeTs 0 0 0 0 0
             DEFAULT_HOUSE_EDGE_BPS false false (-1) (timestamp ctx) 0 1 0 in
  setBytes (spoolKey poolId) (VSinglePool p) ;;
  incrementCounter SINGLE_POOL_COUNT_KEY ;;
  endNonReentrant ;;
  generateEvent "SinglePoolCreated" [poolId] [].

Definition prediction_placeSingleBet (poolId : string) (outcome amount : Z) : M unit :=
  whenNotPaused ;;
  nonReentrant ;;
  let outcome := i8 outcome in
  let amount := u64 amount in
  present <- hasKey (spoolKey poolId) ;;
  assert_ present "pool missing" ;;
  pRaw <- getBytes (spoolKey poolId) ;;
  pool <- deserializeSinglePool pRaw ;;
  assert_ (negb (SinglePool.isClosed pool)) "pool closed" ;;
  assert_ (timestamp ctx <? SinglePool.closeTs pool) "betting closed" ;;
  assert_ (SinglePool.minBetSize pool <=? amount) "bet below minimum" ;;
  (if 0 <? SinglePool.maxBetSize pool
   then assert_ (amount <=? SinglePool.maxBetSize pool) "bet above maximum"
   else ret tt) ;;
  let newTotal := u128_add (SinglePool.totalPool pool) amount in
  (if 0 <? SinglePool.maxPoolSize pool
   then assert_ (u64 newTotal <=? SinglePool.maxPoolSize pool) "pool cap reached"
   else ret tt) ;;
  let token := SinglePool.token pool in
  allowed <- allowance token (caller ctx) (callee ctx) ;;
  assert_ (amount <=? allowed) "allowance low" ;;
  bal <- balanceOf token (caller ctx) ;;
  assert_ (amount <=? bal) "insufficient token balance" ;;
  transferFrom token (caller ctx) (callee ctx) amount ;;
  let pool := SinglePool.set_totalPool newTotal pool in
  let pool :=
    if outcome =? 0
    then SinglePool.set_outcomeABets (u128_add (SinglePool.outcomeABets pool) amount) pool
    else SinglePool.set_outcomeBBets (u128_add (SinglePool.outcomeBBets pool) amount) pool in
  let bet := SingleBet.mk (caller ctx) poolId amount outcome false (timestamp ctx) in
  setBytes (spoolKey poolId) (VSinglePool pool) ;;
  setBytes (sbetKey poolId (caller ctx)) (VSingleBet bet) ;;
  incrementCounter TOTAL_BETS_PLACED_KEY ;;
  endNonReentrant ;;
  generateEvent "SingleBetPlaced" [poolId; caller ctx] [].

(** The house cut and what is left to pay out, as both [closeSinglePool]
    and [claimSingleBet] compute them from the pool. *)
Definition houseAmount (pool : SinglePool.t) : Z :=
  u128_div (u128_mul (SinglePool.totalPool pool) (SinglePool.houseEdgeBps pool)) BASIS_POINTS.
Definition payoutPool (pool : SinglePool.t) : Z :=
  u128_sub (SinglePool.totalPool pool) (houseAmount pool).

Definition prediction_closeSinglePool (poolId : string) : M unit :=
  whenNotPaused ;;
  nonReentrant ;;
  present <- hasKey (spoolKey poolId) ;;
  assert_ present "pool not found" ;;
  pRaw <- getBytes (spoolKey poolId) ;;
  pool <- deserializeSinglePool pRaw ;;
  assert_ (negb (SinglePool.isClosed pool)) "already closed" ;;
  assert_ (SinglePool.closeTs pool <=? timestamp ctx) "too early to close" ;;
  let pool := SinglePool.set_isClosed true pool in
  let pool :=
    if 0 <? SinglePool.totalPool pool then
      let payoutPool := payoutPool pool in
      let pool :=
        if 0 <? SinglePool.outcomeABets pool
        then SinglePool.set_outcomeAOddsFP
               (u128_div (u128_mul payoutPool ODDS_SCALE_U128) (SinglePool.outcomeABets pool)) pool
        else pool in
      if 0 <? SinglePool.outcomeBBets pool
      then SinglePool.set_outcomeBOddsFP
             (u128_div (u128_mul payoutPool ODDS_SCALE_U128) (SinglePool.outcomeBBets pool)) pool
      else pool
    else pool in
  setBytes (spoolKey poolId) (VSinglePool pool) ;;
  endNonReentrant ;;
  generateEvent "SinglePoolClosed" [poolId] [].

Definition isAuthorizedSettler (addr : string) : M bool :=
  hasKey (AUTH_SETTLER_PREFIX +:+ addr).

Definition prediction_settleSinglePool (poolId : string) (winningOutcome : Z) : M unit :=
  whenNotPaused ;;
  nonReentrant ;;
  let winningOutcome := i8 winningOutcome in
  present <- hasKey (spoolKey poolId) ;;
  assert_ present "pool missing" ;;
  pRaw <- getBytes (spoolKey poolId) ;;
  pool <- deserializeSinglePool pRaw ;;
  assert_ (SinglePool.isClosed pool) "pool not closed" ;;
  assert_ (negb (SinglePool.isSettled pool)) "already settled" ;;
  authorized <- isAuthorizedSettler (caller ctx) ;;
  assert_ authorized "unauthorized settler" ;;
  let pool := SinglePool.set_isSettled true pool in
  let pool := SinglePool.set_winningOutcome winningOutcome pool in
  setBytes (spoolKey poolId) (VSinglePool pool) ;;
  endNonReentrant ;;
  generateEvent "SinglePoolSettled" [poolId] [winningOutcome].

(** The stake on the side that won, and the payout of one bet. *)
Definition winnerTotal (pool : SinglePool.t) : Z :=
  if SinglePool.winningOutcome pool =? 0
  then SinglePool.outcomeABets pool
  else SinglePool.outcomeBBets pool.
Definition payoutU (pool : SinglePool.t) (bet : SingleBet.t) : Z :=
  u128_div (u128_mul (payoutPool pool) (SingleBet.amount bet)) (winnerTotal pool).

Definition streakBonusOf (newStreak payoutU64 : Z) : Z :=
  if 2 <=? newStreak then
    let bonusPercent := if newStreak <? 5 then u64 (u64 (newStreak - 1) * 5) else 25 in
    u64 (payoutU64 * bonusPercent) / 100
  else 0.

Definition prediction_claimSingleBet (poolId bettor : string) : M unit :=
  whenNotPaused ;;
  nonReentrant ;;
  present <- hasKey (spoolKey poolId) ;;
  assert_ present "pool missing" ;;
  pRaw <- getBytes (spoolKey poolId) ;;
  pool <- deserializeSinglePool pRaw ;;
  assert_ (SinglePool.isSettled pool) "pool not settled" ;;
  let betKey := sbetKey poolId bettor in
  found <- hasKey betKey ;;
  assert_ found "bet not found" ;;
  bRaw <- getBytes betKey ;;
  bet <- deserializeSingleBet bRaw ;;
  assert_ (negb (SingleBet.isClaimed bet)) "already claimed" ;;
  let streakKeyBettor := streakKey bettor in
  currentStreak <- getCounter streakKeyBettor ;;
  if negb (SingleBet.outcome bet =? SinglePool.winningOutcome pool) then
    let bet := SingleBet.set_isClaimed true bet in
    setBytes betKey (VSingleBet bet) ;;
    incrementCounter TOTAL_BETS_CLAIMED_KEY ;;
    setCounter streakKeyBettor 0 ;;
    endNonReentrant ;;
    generateEvent "SingleBetClaimed" [poolId; bettor] [0; 0]
  else
    let newStreak := u64 (currentStreak + 1) in
    setCounter streakKeyBettor newStreak ;;
    let houseAmount := houseAmount pool in
    assert_ (0 <? winnerTotal pool) "no winners in pool" ;;
    let payoutU := payoutU pool bet in
    let payoutU64 := u64 payoutU in
    let bet := SingleBet.set_isClaimed true bet in
    setBytes betKey (VSingleBet bet) ;;
    let token := SinglePool.token pool in
    bal <- balanceOf token (callee ctx) ;;
    assert_ (payoutU64 <=? bal) "contract insufficient funds" ;;
    transfer token bettor payoutU64 ;;
    incrementCounter TOTAL_BETS_CLAIMED_KEY ;;
    let streakBonus := streakBonusOf newStreak payoutU64 in
    (if (2 <=? newStreak) && (0 <? streakBonus)
     then transfer token bettor streakBonus
     else ret tt) ;;
    let houseAmountU64 := u64 houseAmount in
    (if 0 <? houseAmountU64
     then
       treasury <- getCounter TREASURY_BALANCE_KEY ;;
       setCounter TREASURY_BALANCE_KEY (u64 (treasury + houseAmountU64))
     else ret tt) ;;
    endNonReentrant ;;
    generateEvent "SingleBetClaimed" [poolId; bettor] [payoutU; newStreak; streakBonus].

Definition prediction_setAuthorizedSettler (addr : string) : M unit :=
  onlyRole ADMIN_ROLE ;;
  setString (AUTH_SETTLER_PREFIX +:+ addr) "1" ;;
  generateEvent "SettlerAuthorized" [addr] [].

Definition prediction_setPaused (paused : bool) : M unit :=
  onlyRole PAUSER_ROLE ;;
  setBool PAUSED_KEY paused ;;
  generateEvent "Prediction pause toggled" [] [].

(** ** Prediction contract: multipools (parlays) *)

(** [BetslipSelection]: the class, its text form and the parser. *)
Record BetslipSelection : Type := mkSelection {
  sel_poolId : string;
  sel_outcome : Z;
  sel_oddsFP : Z
}.

Definition selection_toString (sel : BetslipSelection) : string :=
  sel_poolId sel +:+ "|" +:+ itoa (sel_outcome sel) +:+ "|" +:+ utoa (sel_oddsFP sel).

Definition selection_fromString (s : string) : M BetslipSelection :=
  match split1 "|" s with
  | p0 :: p1 :: p2 :: _ =>
      match parseInt p1 with
      | Some n => ret (mkSelection p0 (i8 n) (u128 (default 0 (parse_digits p2 None))))
      | None => abort "NaN as i8"
      end
  | _ => abort "Index out of range"
  end.

(** [serialize] joins the selection strings with a double bar and
    [deserialize] splits the text again (an empty text is no selection);
    a stored betslip is kept as [deserialize] returns it. *)
Definition serializeBetslip (s : Betslip.t) : Value :=
  let selStr := join "||" (Betslip.selections s) in
  let decoded := if bool_decide (selStr = "") then [] else split2 "|" "|" selStr in
  VBetslip (Betslip.mk (Betslip.betslipId s) (Betslip.bettor s) (Betslip.multipoolId s)
              (Betslip.amount s) decoded (Betslip.combinedOddsFP s) (Betslip.weightFP s)
              (Betslip.isWinner s) (Betslip.isClaimed s) (Betslip.isAccounted s)
              (Betslip.placedAt s)).

Definition prediction_createMultipool (multipoolId tokenAddr : string) : M unit :=
  whenNotPaused ;;
  nonReentrant ;;
  present <- hasKey (mpoolKey multipoolId) ;;
  assert_ (negb present) "multipool exists" ;;
  let mp := Multipool.mk multipoolId tokenAddr 0 0 0 false DEFAULT_HOUSE_EDGE_BPS
              (timestamp ctx) in
  setBytes (mpoolKey multipoolId) (VMultipool mp) ;;
  incrementCounter MULTIPOOL_COUNT_KEY ;;
  endNonReentrant ;;
  generateEvent "MultipoolCreated" [multipoolId] [].

(** The selection loop of [placeMultibet]: every leg must name a closed pool
    with non-zero odds on the chosen side; the running odds are multiplied
    in fixed point and the leg is recorded in text form. *)
Fixpoint placeMultibet_legs (legs : list (string * Z)) (combinedOddsFP : Z)
    (selections : list string) : M (Z * list string) :=
  match legs with
  | [] => ret (combinedOddsFP, selections)
  | (poolId, outcome) :: rest =>
      let outcome := i8 outcome in
      present <- hasKey (spoolKey poolId) ;;
      assert_ present "pool missing" ;;
      pRaw <- getBytes (spoolKey poolId) ;;
      pool <- deserializeSinglePool pRaw ;;
      assert_ (SinglePool.isClosed pool) "pool not closed" ;;
      let oddsFP := if outcome =? 0 then SinglePool.outcomeAOddsFP pool
                    else SinglePool.outcomeBOddsFP pool in
      assert_ (0 <? oddsFP) "invalid odds for pool" ;;
      let combinedOddsFP := u128_div (u128_mul combinedOddsFP oddsFP) ODDS_SCALE_U128 in
      let sel := mkSelection poolId outcome oddsFP in
      placeMultibet_legs rest combinedOddsFP (selections ++ [selection_toString sel])
  end.

Definition prediction_placeMultibet (betslipId multipoolId : string) (amount : Z)
    (legs : list (string * Z)) : M unit :=
  whenNotPaused ;;
  nonReentrant ;;
  let amount := u64 amount in
  parsed <- placeMultibet_legs legs ODDS_SCALE_U128 [] ;;
  let combinedOddsFP := fst parsed in
  let selections := snd parsed in
  present <- hasKey (mpoolKey multipoolId) ;;
  assert_ present "multipool missing" ;;
  mRaw <- getBytes (mpoolKey multipoolId) ;;
  mp <- deserializeMultipool mRaw ;;
  let token := Multipool.token mp in
  allowed <- allowance token (caller ctx) (callee ctx) ;;
  assert_ (amount <=? allowed) "allowance low" ;;
  bal <- balanceOf token (caller ctx) ;;
  assert_ (amount <=? bal) "insufficient balance" ;;
  transferFrom token (caller ctx) (callee ctx) amount ;;
  let weightFP := u128_div (u128_mul amount combinedOddsFP) ODDS_SCALE_U128 in
  let betslip := Betslip.mk betslipId (caller ctx) multipoolId amount selections
                   combinedOddsFP weightFP false false false (timestamp ctx) in
  let mp := Multipool.set_totalPool (u128_add (Multipool.totalPool mp) amount) mp in
  let mp := Multipool.set_totalWeightFP
              (u128_add (Multipool.totalWeightFP mp) (Betslip.weightFP betslip)) mp in
  setBytes (mpoolKey multipoolId) (VMultipool mp) ;;
  setBytes (betslipKey betslipId) (serializeBetslip betslip) ;;
  incrementCounter TOTAL_BETS_PLACED_KEY ;;
  endNonReentrant ;;
  generateEvent "MultibetPlaced" [betslipId; multipoolId] [].

(** The selection loop of [checkBetslipWinner]: stop at the first leg whose
    pool was settled with another outcome. *)
Fixpoint checkBetslipWinner_legs (selections : list string) : M bool :=
  match selections with
  | [] => ret true
  | s :: rest =>
      sel <- selection_fromString s ;;
      present <- hasKey (spoolKey (sel_poolId sel)) ;;
      assert_ present "pool missing" ;;
      pRaw <- getBytes (spoolKey (sel_poolId sel)) ;;
      pool <- deserializeSinglePool pRaw ;;
      assert_ (SinglePool.isSettled pool) "pool not settled" ;;
      if negb (SinglePool.winningOutcome pool =? sel_outcome sel)
      then ret false
      else checkBetslipWinner_legs rest
  end.

Definition prediction_checkBetslipWinner (betslipId : string) : M unit :=
  whenNotPaused ;;
  nonReentrant ;;
  present <- hasKey (betslipKey betslipId) ;;
  assert_ present "betslip missing" ;;
  sRaw <- getBytes (betslipKey betslipId) ;;
  betslip <- deserializeBetslip sRaw ;;
  assert_ (negb (Betslip.isAccounted betslip)) "already accounted" ;;
  isWinner <- checkBetslipWinner_legs (Betslip.selections betslip) ;;
  let betslip := Betslip.set_isWinner isWinner betslip in
  let betslip := Betslip.set_isAccounted true betslip in
  (if isWinner then
     present <- hasKey (mpoolKey (Betslip.multipoolId betslip)) ;;
     assert_ present "multipool missing" ;;
     mRaw <- getBytes (mpoolKey (Betslip.multipoolId betslip)) ;;
     mp <- deserializeMultipool mRaw ;;
     let mp := Multipool.set_totalWinnerWeightFP
                 (u128_add (Multipool.totalWinnerWeightFP mp) (Betslip.weightFP betslip)) mp in
     setBytes (mpoolKey (Betslip.multipoolId betslip)) (VMultipool mp)
   else ret tt) ;;
  setBytes (betslipKey betslipId) (serializeBetslip betslip) ;;
  endNonReentrant ;;
  generateEvent "BetslipChecked" [betslipId] [if isWinner then 1 else 0].

Definition prediction_finalizeMultipool (multipoolId : string) : M unit :=
  whenNotPaused ;;
  nonReentrant ;;
  onlyRole ADMIN_ROLE ;;
  present <- hasKey (mpoolKey multipoolId) ;;
  assert_ present "multipool missing" ;;
  mRaw <- getBytes (mpoolKey multipoolId) ;;
  mp <- deserializeMultipool mRaw ;;
  assert_ (negb (Multipool.isFinalized mp)) "already finalized" ;;
  let mp := Multipool.set_isFinalized true mp in
  setBytes (mpoolKey multipoolId) (VMultipool mp) ;;
  endNonReentrant ;;
  generateEvent "MultipoolFinalized" [multipoolId] [].

Definition multibetPayoutU (mp : Multipool.t) (betslip : Betslip.t) : Z :=
  let totalU := Multipool.totalPool mp in
  let houseAmount := u128_div (u128_mul totalU (Multipool.houseEdgeBps mp)) BASIS_POINTS in
  let payoutPool := u128_sub totalU houseAmount in
  u128_div (u128_mul payoutPool (Betslip.weightFP betslip)) (Multipool.totalWinnerWeightFP mp).

Definition prediction_claimMultibet (betslipId : string) : M unit :=
  whenNotPaused ;;
  nonReentrant ;;
  present <- hasKey (betslipKey betslipId) ;;
  assert_ present "betslip missing" ;;
  sRaw <- getBytes (betslipKey betslipId) ;;
  betslip <- deserializeBetslip sRaw ;;
  assert_ (negb (Betslip.isClaimed betslip)) "already claimed" ;;
  assert_ (Betslip.isAccounted betslip) "not yet accounted" ;;
  present <- hasKey (mpoolKey (Betslip.multipoolId betslip)) ;;
  assert_ present "multipool missing" ;;
  mRaw <- getBytes (mpoolKey (Betslip.multipoolId betslip)) ;;
  mp <- deserializeMultipool mRaw ;;
  assert_ (Multipool.isFinalized mp) "multipool not finalized" ;;
  if negb (Betslip.isWinner betslip) then
    let betslip := Betslip.set_isClaimed true betslip in
    setBytes (betslipKey betslipId) (serializeBetslip betslip) ;;
    incrementCounter TOTAL_BETS_CLAIMED_KEY ;;
    endNonReentrant ;;
    generateEvent "MultibetClaimed" [betslipId] [0]
  else
    assert_ (0 <? Multipool.totalWinnerWeightFP mp) "no winners" ;;
    let payoutU := multibetPayoutU mp betslip in
    let payoutU64 := u64 payoutU in
    let betslip := Betslip.set_isClaimed true betslip in
    setBytes (betslipKey betslipId) (serializeBetslip betslip) ;;
    let token := Multipool.token mp in
    bal <- balanceOf token (callee ctx) ;;
    assert_ (payoutU64 <=? bal) "contract insufficient funds" ;;
    transfer token (Betslip.bettor betslip) payoutU64 ;;
    incrementCounter TOTAL_BETS_CLAIMED_KEY ;;
    endNonReentrant ;;
    generateEvent "MultibetClaimed" [betslipId] [payoutU].

(** ** Game contract: characters, equipment, skills, battles *)

Definition CHARACTER_PREFIX : string := "character:".
Definition BATTLE_PREFIX : string := "battle:".
Definition EQUIPMENT_PREFIX : string := "equipment:".

Definition characterKey (id : string) : string := CHARACTER_PREFIX +:+ id.
Definition battleKey (id : string) : string := BATTLE_PREFIX +:+ id.
Definition equipmentKey (id : string) : string := EQUIPMENT_PREFIX +:+ id.

Definition deserializeEquipment (v : Value) : M Equipment.t :=
  match v with VEquipment e => ret e | _ => abort "Equipment.deserialize" end.
Definition deserializeCharacter (v : Value) : M Character.t :=
  match v with VCharacter c => ret c | _ => abort "Character.deserialize" end.
Definition deserializeBattle (v : Value) : M Battle.t :=
  match v with VBattle b => ret b | _ => abort "Battle.deserialize" end.

Definition game_constructor : M unit :=
  assert_ (callerHasWriteAccess ctx) "Must be deployment" ;;
  setString (ADMIN_ROLE +:+ ":" +:+ caller ctx) "1" ;;
  setBool "game_initialized" true ;;
  setCounter CHARACTER_COUNT_KEY 0 ;;
  setCounter BATTLE_COUNT_KEY 0 ;;
  setCounter TOTAL_BATTLES_FINISHED_KEY 0 ;;
  generateEvent "Game contract deployed" [] [].

(** [new Character()] with the owner, class, name and creation time that
    [createCharacter] assigns before the class table. *)
Definition newCharacter (owner : string) (classU8 : Z) (name : string) (ts : Z)
    (maxHp dmgMin dmgMax crit dodge : Z) : Character.t :=
  Character.mk owner classU8 name 1 0 maxHp maxHp dmgMin dmgMax crit dodge 0 0 0 1000 ts
    "" "" "" SKILL_NONE SKILL_NONE SKILL_NONE "" MAX_ENERGY.

(** The class table: maxHp, damage range, crit and dodge chance. *)
Definition classStats (classU8 : Z) : option (Z * Z * Z * Z * Z) :=
  if classU8 =? 0 then Some (120, 8, 15, 15, 0)
  else if classU8 =? 1 then Some (90, 12, 20, 35, 20)
  else if classU8 =? 2 then Some (80, 10, 18, 20, 0)
  else if classU8 =? 3 then Some (150, 6, 12, 10, 0)
  else if classU8 =? 4 then Some (100, 9, 16, 25, 15)
  else None.

Definition game_createCharacter (id : string) (classU8 : Z) (name : string) : M unit :=
  whenNotPaused ;;
  nonReentrant ;;
  let classU8 := u8 classU8 in
  present <- hasKey (characterKey id) ;;
  assert_ (negb present) "character exists" ;;
  match classStats classU8 with
  | Some (maxHp, dmgMin, dmgMax, crit, dodge) =>
      let char := newCharacter (caller ctx) classU8 name (timestamp ctx)
                    maxHp dmgMin dmgMax crit dodge in
      setBytes (characterKey id) (VCharacter char) ;;
      incrementCounter CHARACTER_COUNT_KEY ;;
      endNonReentrant ;;
      generateEvent "CharacterCreated" [id] []
  | None => abort "invalid class"
  end.

Definition game_createBattle (battleId char1Id char2Id : string) (startTs : Z) : M unit :=
  whenNotPaused ;;
  nonReentrant ;;
  let startTs := u64 startTs in
  present <- hasKey (battleKey battleId) ;;
  assert_ (negb present) "battle exists" ;;
  has1 <- hasKey (characterKey char1Id) ;;
  has2 <- hasKey (characterKey char2Id) ;;
  assert_ (has1 && has2) "characters missing" ;;
  c1Data <- getBytes (characterKey char1Id) ;;
  c2Data <- getBytes (characterKey char2Id) ;;
  c1 <- deserializeCharacter c1Data ;;
  c2 <- deserializeCharacter c2Data ;;
  assert_ (bool_decide (caller ctx = Character.owner c1)) "not owner of char1" ;;
  let battle := Battle.mk char1Id char2Id (Character.owner c1) (Character.owner c2)
                  startTs (timestamp ctx) 0 1 false 0 (Character.maxHp c1) (Character.maxHp c2)
                  false 0 0 (-1) (-1) STATUS_NONE STATUS_NONE 0 0 0 0 0 0 0 0 0 0 in
  setBytes (battleKey battleId) (VBattle battle) ;;
  incrementCounter BATTLE_COUNT_KEY ;;
  endNonReentrant ;;
  generateEvent "BattleCreated" [battleId] [].

(** The prototype random source: an xorshift of seed, salt and block time. *)
Definition simple_random (seed salt : Z) : Z :=
  let x := Z.lxor (Z.lxor seed salt) (timestamp ctx) in
  let r := x in
  let r := Z.lxor r (u64 (Z.shiftl r 13)) in
  let r := Z.lxor r (Z.shiftr r 7) in
  let r := Z.lxor r (u64 (Z.shiftl r 17)) in
  Z.land r 18446744073709551615.

Definition getSkillCooldown (skillId : Z) : Z :=
  if skillId =? SKILL_POWER_STRIKE then 3
  else if skillId =? SKILL_HEAL then 4
  else if skillId =? SKILL_POISON_STRIKE then 2
  else if skillId =? SKILL_STUN_STRIKE then 5
  else if skillId =? SKILL_SHIELD_WALL then 3
  else if skillId =? SKILL_RAGE_MODE then 4
  else if skillId =? SKILL_CRITICAL_EYE then 6
  else if skillId =? SKILL_DODGE_MASTER then 5
  else if skillId =? SKILL_BURN_AURA then 3
  else if skillId =? SKILL_COMBO_BREAKER then 4
  else 0.

Definition getSkillEnergyCost (skillId : Z) : Z :=
  if skillId =? SKILL_POWER_STRIKE then 30
  else if skillId =? SKILL_HEAL then 40
  else if skillId =? SKILL_POISON_STRIKE then 25
  else if skillId =? SKILL_STUN_STRIKE then 50
  else if skillId =? SKILL_SHIELD_WALL then 30
  else if skillId =? SKILL_RAGE_MODE then 40
  else if skillId =? SKILL_CRITICAL_EYE then 60
  else if skillId =? SKILL_DODGE_MASTER then 50
  else if skillId =? SKILL_BURN_AURA then 35
  else if skillId =? SKILL_COMBO_BREAKER then 45
  else 0.

(** *** One turn, phase by phase *)

(** The wildcard roll succeeded. *)
Definition triggerWildcard (battle : Battle.t) : Battle.t :=
  let battle := Battle.set_wildcardActive true battle in
  let battle := Battle.set_wildcardType
                  (u8 (simple_random (Battle.turnNumber battle) 2 mod 4)) battle in
  let battle := Battle.set_wildcardDecisionDeadline (u64 (timestamp ctx + 10000)) battle in
  let battle := Battle.set_wildcardPlayer1Decision (-1) battle in
  Battle.set_wildcardPlayer2Decision (-1) battle.

(** Equipment bonuses: weapon and accessory of the attacker, armor and
    accessory of the defender. *)
Record Bonuses : Type := mkBonuses {
  attackerDamageMinBonus : Z;
  attackerDamageMaxBonus : Z;
  attackerCritBonus : Z;
  defenderDodgeBonus : Z
}.

Definition loadEquipped (id : string) : M (option Equipment.t) :=
  if bool_decide (id = "") then ret None
  else
    present <- hasKey (equipmentKey id) ;;
    if present then
      raw <- getBytes (equipmentKey id) ;;
      e <- deserializeEquipment raw ;;
      ret (Some e)
    else ret None.

Definition loadBonuses (attacker defender : Character.t) : M Bonuses :=
  weapon <- loadEquipped (Character.weaponId attacker) ;;
  let b := mkBonuses 0 0 0 0 in
  let b := match weapon with
           | Some weapon =>
               mkBonuses (u16 (attackerDamageMinBonus b + Equipment.damageMinBonus weapon))
                 (u16 (attackerDamageMaxBonus b + Equipment.damageMaxBonus weapon))
                 (u16 (attackerCritBonus b + Equipment.critBonus weapon))
                 (defenderDodgeBonus b)
           | None => b
           end in
  accessory <- loadEquipped (Character.accessoryId attacker) ;;
  let b := match accessory with
           | Some accessory =>
               mkBonuses (attackerDamageMinBonus b) (attackerDamageMaxBonus b)
                 (u16 (attackerCritBonus b + Equipment.critBonus accessory))
                 (defenderDodgeBonus b)
           | None => b
           end in
  armor <- loadEquipped (Character.armorId defender) ;;
  let b := match armor with
           | Some armor =>
               mkBonuses (attackerDamageMinBonus b) (attackerDamageMaxBonus b)
                 (attackerCritBonus b)
                 (u16 (defenderDodgeBonus b + Equipment.dodgeBonus armor))
           | None => b
           end in
  accessory <- loadEquipped (Character.accessoryId defender) ;;
  let b := match accessory with
           | Some accessory =>
               mkBonuses (attackerDamageMinBonus b) (attackerDamageMaxBonus b)
                 (attackerCritBonus b)
                 (u16 (defenderDodgeBonus b + Equipment.dodgeBonus accessory))
           | None => b
           end in
  ret b.

(** What the skill block leaves behind. *)
Record SkillResult : Type := mkSkillResult {
  sr_battle : Battle.t;
  sr_attacker : Character.t;
  skillUsed : Z;
  skillDamageMultiplier : Z;
  skillForceCrit : bool;
  skillDodgeBonus : Z
}.

Definition noSkill (battle : Battle.t) (attacker : Character.t) : SkillResult :=
  mkSkillResult battle attacker SKILL_NONE 100 false 0.

(** A status effect with its duration, put on player one or player two. *)
Definition addStatus (onPlayer1 : bool) (status duration : Z) (battle : Battle.t) : Battle.t :=
  if onPlayer1 then
    Battle.set_player1StatusDuration duration
      (Battle.set_player1StatusEffects (u8 (Z.lor (Battle.player1StatusEffects battle) status))
         battle)
  else
    Battle.set_player2StatusDuration duration
      (Battle.set_player2StatusEffects (u8 (Z.lor (Battle.player2StatusEffects battle) status))
         battle).

Definition healed (attacker : Character.t) : Z :=
  let healAmount := u64 (Character.maxHp attacker * 30) / 100 in
  let sum := u64 (Character.currentHp attacker + healAmount) in
  if Character.maxHp attacker <? sum then Character.maxHp attacker else sum.

Definition setCooldown (isPlayer1 : bool) (skillSlot cooldown : Z) (battle : Battle.t)
  : Battle.t :=
  if isPlayer1 then
    if skillSlot =? 1 then Battle.set_player1Skill1Cooldown cooldown battle
    else if skillSlot =? 2 then Battle.set_player1Skill2Cooldown cooldown battle
    else Battle.set_player1Skill3Cooldown cooldown battle
  else
    if skillSlot =? 1 then Battle.set_player2Skill1Cooldown cooldown battle
    else if skillSlot =? 2 then Battle.set_player2Skill2Cooldown cooldown battle
    else Battle.set_player2Skill3Cooldown cooldown battle.

(** The effect of the skill that is used, before its cooldown is set. *)
Definition applySkill (isPlayer1 : bool) (skill : Z) (battle : Battle.t)
    (attacker : Character.t) : SkillResult :=
  if skill =? SKILL_POWER_STRIKE then
    mkSkillResult battle attacker skill 150 false 0
  else if skill =? SKILL_HEAL then
    let attacker := Character.set_currentHp (healed attacker) attacker in
    let battle := if isPlayer1
                  then Battle.set_player1Hp (Character.currentHp attacker) battle
                  else Battle.set_player2Hp (Character.currentHp attacker) battle in
    mkSkillResult battle attacker skill 100 false 0
  else if skill =? SKILL_POISON_STRIKE then
    mkSkillResult (addStatus (negb isPlayer1) STATUS_POISON 3 battle) attacker skill 100 false 0
  else if skill =? SKILL_STUN_STRIKE then
    mkSkillResult (addStatus (negb isPlayer1) STATUS_STUN 1 battle) attacker skill 100 false 0
  else if skill =? SKILL_SHIELD_WALL then
    mkSkillResult (addStatus isPlayer1 STATUS_SHIELD 2 battle) attacker skill 100 false 0
  else if skill =? SKILL_RAGE_MODE then
    mkSkillResult (addStatus isPlayer1 STATUS_RAGE 2 battle) attacker skill 100 false 0
  else if skill =? SKILL_CRITICAL_EYE then
    mkSkillResult battle attacker skill 100 true 0
  else if skill =? SKILL_DODGE_MASTER then
    mkSkillResult (addStatus isPlayer1 STATUS_SHIELD 2 battle) attacker skill 100 false 50
  else if skill =? SKILL_BURN_AURA then
    mkSkillResult (addStatus (negb isPlayer1) STATUS_BURN 3 battle) attacker skill 100 false 0
  else if skill =? SKILL_COMBO_BREAKER then
    let battle := if isPlayer1 then Battle.set_player2ComboCount 0 battle
                  else Battle.set_player1ComboCount 0 battle in
    mkSkillResult battle attacker skill 120 false 0
  else mkSkillResult battle attacker skill 100 false 0.

(** The skill block: slot valid, a skill equipped there, off cooldown and
    affordable; otherwise nothing happens. *)
Definition resolveSkill (isPlayer1 : bool) (skillSlot : Z) (battle : Battle.t)
    (attacker : Character.t) : SkillResult :=
  if (1 <=? skillSlot) && (skillSlot <=? 3) then
    let equippedSkill :=
      if skillSlot =? 1 then Character.skill1 attacker
      else if skillSlot =? 2 then Character.skill2 attacker
      else Character.skill3 attacker in
    if negb (equippedSkill =? SKILL_NONE) then
      let currentCooldown :=
        if isPlayer1 then
          if skillSlot =? 1 then Battle.player1Skill1Cooldown battle
          else if skillSlot =? 2 then Battle.player1Skill2Cooldown battle
          else Battle.player1Skill3Cooldown battle
        else
          if skillSlot =? 1 then Battle.player2Skill1Cooldown battle
          else if skillSlot =? 2 then Battle.player2Skill2Cooldown battle
          else Battle.player2Skill3Cooldown battle in
      if currentCooldown =? 0 then
        let energyCost := getSkillEnergyCost equippedSkill in
        if energyCost <=? Character.currentEnergy attacker then
          let attacker :=
            Character.set_currentEnergy (u8 (Character.currentEnergy attacker - energyCost))
              attacker in
          let r := applySkill isPlayer1 equippedSkill battle attacker in
          mkSkillResult
            (setCooldown isPlayer1 skillSlot (getSkillCooldown equippedSkill) (sr_battle r))
            (sr_attacker r) (skillUsed r) (skillDamageMultiplier r) (skillForceCrit r)
            (skillDodgeBonus r)
        else noSkill battle attacker
      else noSkill battle attacker
    else noSkill battle attacker
  else noSkill battle attacker.

Definition regenEnergy (c : Character.t) : Character.t :=
  if Character.currentEnergy c <? MAX_ENERGY then
    let sum := u8 (Character.currentEnergy c + ENERGY_PER_TURN) in
    Character.set_currentEnergy (if MAX_ENERGY <? sum then MAX_ENERGY else sum) c
  else c.

Definition tickStatus1 (battle : Battle.t) : Battle.t :=
  if 0 <? Battle.player1StatusDuration battle then
    let battle := Battle.set_player1StatusDuration
                    (u8 (Battle.player1StatusDuration battle - 1)) battle in
    if Battle.player1StatusDuration battle =? 0
    then Battle.set_player1StatusEffects STATUS_NONE battle
    else battle
  else battle.

Definition tickStatus2 (battle : Battle.t) : Battle.t :=
  if 0 <? Battle.player2StatusDuration battle then
    let battle := Battle.set_player2StatusDuration
                    (u8 (Battle.player2StatusDuration battle - 1)) battle in
    if Battle.player2StatusDuration battle =? 0
    then Battle.set_player2StatusEffects STATUS_NONE battle
    else battle
  else battle.

Definition advanceTurn (battle : Battle.t) : Battle.t :=
  let battle := Battle.set_turnNumber (u32 (Battle.turnNumber battle + 1)) battle in
  Battle.set_currentTurn (if Battle.currentTurn battle =? 1 then 2 else 1) battle.

(** The stunned attacker loses the turn. *)
Definition stunnedTurn (isPlayer1 : bool) (battle : Battle.t) : Battle.t :=
  advanceTurn (if isPlayer1 then tickStatus1 battle else tickStatus2 battle).

(** A dodged hit does nothing; otherwise the defender's flat defense is
    taken off. *)
Definition mitigate (dodged : bool) (defense damage : Z) : Z :=
  if dodged then 0
  else if defense <? damage then u64 (damage - defense) else 0.

(** A shield on the defender takes thirty percent off. *)
Definition shielded (defenderStatus damage : Z) : Z :=
  if negb (Z.land defenderStatus STATUS_SHIELD =? 0) && (0 <? damage)
  then u64 (damage - u64 (damage * 30) / 100) else damage.

(** Damage of the hit before dodge and defense. *)
Definition rawDamage (isPlayer1 : bool) (battle : Battle.t) (attacker : Character.t)
    (b : Bonuses) (sk : SkillResult) : Z :=
  let attackerStatus := if isPlayer1 then Battle.player1StatusEffects battle
                        else Battle.player2StatusEffects battle in
  let totalDamageMin := u16 (Character.baseDamageMin attacker + attackerDamageMinBonus b) in
  let totalDamageMax := u16 (Character.baseDamageMax attacker + attackerDamageMaxBonus b) in
  let dmgRange := if totalDamageMin <? totalDamageMax
                  then u16 (totalDamageMax - totalDamageMin) else 0 in
  let seed := u64 (Battle.turnNumber battle + timestamp ctx) in
  let rollDamage := u16 (simple_random seed 3 mod u64 (dmgRange + 1)) in
  let baseDamage := u16 (totalDamageMin + rollDamage) in
  let baseDamage := u16 (baseDamage + u16 (u16 (Character.level attacker - 1) * 2)) in
  let baseDamage := if negb (Z.land attackerStatus STATUS_RAGE =? 0)
                    then u16 (baseDamage + baseDamage / 2) else baseDamage in
  let baseDamage := if negb (skillDamageMultiplier sk =? 100)
                    then u16 (u64 (baseDamage * skillDamageMultiplier sk) / 100)
                    else baseDamage in
  let totalCritChance := u16 (Character.critChance attacker + attackerCritBonus b) in
  let critRoll := u16 (simple_random seed 4 mod 100) in
  let damage := baseDamage in
  let damage := if skillForceCrit sk || (critRoll <? totalCritChance)
                then u64 (damage * 2) else damage in
  let attackerCombo := if isPlayer1 then Battle.player1ComboCount battle
                       else Battle.player2ComboCount battle in
  if 3 <=? attackerCombo then u64 (damage + damage / 5) else damage.

(** Damage of the hit and whether it was dodged. *)
Definition computeDamage (isPlayer1 : bool) (battle : Battle.t)
    (attacker defender : Character.t) (b : Bonuses) (sk : SkillResult) : Z * bool :=
  let damage := rawDamage isPlayer1 battle attacker b sk in
  let seed := u64 (Battle.turnNumber battle + timestamp ctx) in
  let totalDodgeChance :=
    u16 (u16 (Character.dodgeChance defender + defenderDodgeBonus b) + skillDodgeBonus sk) in
  let dodged := simple_random seed 6 mod 100 <? totalDodgeChance in
  let damage := mitigate dodged (Character.defense defender) damage in
  let defenderStatus := if isPlayer1 then Battle.player2StatusEffects battle
                        else Battle.player1StatusEffects battle in
  (shielded defenderStatus damage, dodged).

Definition hit (hp damage : Z) : Z := if damage <? hp then u64 (hp - damage) else 0.

Definition bumpCombo (n : Z) : Z := if n <? 255 then u8 (n + 1) else 255.

(** Damage to the defender, combo counters of both sides. *)
Definition applyDamage (isPlayer1 : bool) (damage : Z) (dodged : bool) (battle : Battle.t)
  : Battle.t :=
  if isPlayer1 then
    let battle := Battle.set_player2Hp (hit (Battle.player2Hp battle) damage) battle in
    if (0 <? damage) && negb dodged then
      Battle.set_player2ComboCount 0
        (Battle.set_player1ComboCount (bumpCombo (Battle.player1ComboCount battle)) battle)
    else Battle.set_player1ComboCount 0 battle
  else
    let battle := Battle.set_player1Hp (hit (Battle.player1Hp battle) damage) battle in
    if (0 <? damage) && negb dodged then
      Battle.set_player1ComboCount 0
        (Battle.set_player2ComboCount (bumpCombo (Battle.player2ComboCount battle)) battle)
    else Battle.set_player2ComboCount 0 battle.

(** Poison and burn on both sides. *)
Definition applyDots (c1 c2 : Character.t) (battle : Battle.t) : Battle.t :=
  let p1Status := Battle.player1StatusEffects battle in
  let p2Status := Battle.player2StatusEffects battle in
  let battle := if negb (Z.land p1Status STATUS_POISON =? 0)
                then Battle.set_player1Hp
                       (hit (Battle.player1Hp battle) (Character.maxHp c1 / 20)) battle
                else battle in
  let battle := if negb (Z.land p1Status STATUS_BURN =? 0)
                then Battle.set_player1Hp
                       (hit (Battle.player1Hp battle) (u64 (Character.maxHp c1 * 8) / 100)) battle
                else battle in
  let battle := if negb (Z.land p2Status STATUS_POISON =? 0)
                then Battle.set_player2Hp
                       (hit (Battle.player2Hp battle) (Character.maxHp c2 / 20)) battle
                else battle in
  if negb (Z.land p2Status STATUS_BURN =? 0)
  then Battle.set_player2Hp
         (hit (Battle.player2Hp battle) (u64 (Character.maxHp c2 * 8) / 100)) battle
  else battle.

Definition dec (n : Z) : Z := if 0 <? n then u8 (n - 1) else n.

Definition tickCooldowns (battle : Battle.t) : Battle.t :=
  let battle := Battle.set_player1Skill1Cooldown (dec (Battle.player1Skill1Cooldown battle)) battle in
  let battle := Battle.set_player1Skill2Cooldown (dec (Battle.player1Skill2Cooldown battle)) battle in
  let battle := Battle.set_player1Skill3Cooldown (dec (Battle.player1Skill3Cooldown battle)) battle in
  let battle := Battle.set_player2Skill1Cooldown (dec (Battle.player2Skill1Cooldown battle)) battle in
  let battle := Battle.set_player2Skill2Cooldown (dec (Battle.player2Skill2Cooldown battle)) battle in
  Battle.set_player2Skill3Cooldown (dec (Battle.player2Skill3Cooldown battle)) battle.

(** The finish check at the end of a turn that was played out. *)
Definition checkFinish (battle : Battle.t) : Battle.t :=
  if (Battle.player1Hp battle =? 0) || (Battle.player2Hp battle =? 0) then
    let battle := Battle.set_isFinished true battle in
    Battle.set_winner (if 0 <? Battle.player1Hp battle then 1 else 2) battle
  else battle.

(** From the damage roll to the finish check. *)
Definition playTurn (isPlayer1 : bool) (battle : Battle.t) (c1 c2 : Character.t)
    (b : Bonuses) (sk : SkillResult) : Battle.t :=
  let attacker := if isPlayer1 then c1 else c2 in
  let defender := if isPlayer1 then c2 else c1 in
  let '(damage, dodged) := computeDamage isPlayer1 battle attacker defender b sk in
  let battle := applyDamage isPlayer1 damage dodged battle in
  let battle := applyDots c1 c2 battle in
  let battle := tickStatus2 (tickStatus1 battle) in
  let battle := advanceTurn battle in
  let battle := tickCooldowns battle in
  checkFinish battle.

Definition game_executeTurn (battleId attackerCharId : string) (stance : Z)
    (useSpecial : bool) (skillSlot : Z) : M unit :=
  whenNotPaused ;;
  nonReentrant ;;
  let skillSlot := u8 skillSlot in
  present <- hasKey (battleKey battleId) ;;
  assert_ present "battle missing" ;;
  bData <- getBytes (battleKey battleId) ;;
  battle <- deserializeBattle bData ;;
  assert_ (negb (Battle.isFinished battle)) "battle finished" ;;
  let isPlayer1 := bool_decide (attackerCharId = Battle.player1Char battle) in
  let expectedOwner := if isPlayer1 then Battle.player1Owner battle
                       else Battle.player2Owner battle in
  assert_ (bool_decide (caller ctx = expectedOwner)) "not turn owner" ;;
  assert_ ((isPlayer1 && (Battle.currentTurn battle =? 1))
           || (negb isPlayer1 && (Battle.currentTurn battle =? 2))) "not your turn" ;;
  let wildcardChance :=
    if isPlayer1 && bool_decide (attackerCharId = "Trickster") then 25 else 10 in
  let roll :=
    simple_random (u64 (Battle.turnNumber battle + Battle.createdAt battle)) 1 mod 100 in
  if (roll <? wildcardChance) && negb (Battle.wildcardActive battle) then
    setBytes (battleKey battleId) (VBattle (triggerWildcard battle)) ;;
    endNonReentrant ;;
    generateEvent "WildcardTriggered" [battleId] []
  else
    c1Raw <- getBytes (characterKey (Battle.player1Char battle)) ;;
    c2Raw <- getBytes (characterKey (Battle.player2Char battle)) ;;
    c1 <- deserializeCharacter c1Raw ;;
    c2 <- deserializeCharacter c2Raw ;;
    let attacker := if isPlayer1 then c1 else c2 in
    let defender := if isPlayer1 then c2 else c1 in
    b <- loadBonuses attacker defender ;;
    let sk := resolveSkill isPlayer1 skillSlot battle attacker in
    let battle := sr_battle sk in
    let c1 := if isPlayer1 then sr_attacker sk else c1 in
    let c2 := if isPlayer1 then c2 else sr_attacker sk in
    (if negb (skillUsed sk =? SKILL_NONE) then
       if isPlayer1
       then setBytes (characterKey (Battle.player1Char battle)) (VCharacter c1)
       else setBytes (characterKey (Battle.player2Char battle)) (VCharacter c2)
     else ret tt) ;;
    let c1 := regenEnergy c1 in
    let c2 := regenEnergy c2 in
    let attackerStatus := if isPlayer1 then Battle.player1StatusEffects battle
                          else Battle.player2StatusEffects battle in
    if negb (Z.land attackerStatus STATUS_STUN =? 0) then
      setBytes (battleKey battleId) (VBattle (stunnedTurn isPlayer1 battle)) ;;
      endNonReentrant ;;
      generateEvent "TurnExecuted" [battleId; "Stunned"] []
    else
      let battle := playTurn isPlayer1 battle c1 c2 b sk in
      setBytes (characterKey (Battle.player1Char battle)) (VCharacter c1) ;;
      setBytes (characterKey (Battle.player2Char battle)) (VCharacter c2) ;;
      (if Battle.isFinished battle then generateEvent "BattleEnded" [battleId] [] else ret tt) ;;
      setBytes (battleKey battleId) (VBattle battle) ;;
      endNonReentrant ;;
      generateEvent "TurnExecuted" [battleId] [skillUsed sk].

(** Both sides accepted a wildcard of type 0: fifty hit points each, capped. *)
Definition wildcardBoost (hp : Z) : Z :=
  let newHp := u64 (hp + 50) in
  if newHp <? 1000000 then newHp else 1000000.

Definition resolveWildcard (battle : Battle.t) : Battle.t :=
  if negb (Battle.wildcardPlayer1Decision battle =? -1)
     && negb (Battle.wildcardPlayer2Decision battle =? -1) then
    let p1 := Battle.wildcardPlayer1Decision battle =? 1 in
    let p2 := Battle.wildcardPlayer2Decision battle =? 1 in
    let battle :=
      if p1 && p2 && (Battle.wildcardType battle =? 0) then
        let battle := Battle.set_player1Hp (wildcardBoost (Battle.player1Hp battle)) battle in
        Battle.set_player2Hp (wildcardBoost (Battle.player2Hp battle)) battle
      else battle in
    let battle := Battle.set_wildcardActive false battle in
    let battle := Battle.set_wildcardPlayer1Decision (-1) battle in
    Battle.set_wildcardPlayer2Decision (-1) battle
  else battle.

Definition game_decideWildcard (battleId : string) (accept : bool) (playerCharId : string)
  : M unit :=
  whenNotPaused ;;
  nonReentrant ;;
  present <- hasKey (battleKey battleId) ;;
  assert_ present "battle missing" ;;
  bData <- getBytes (battleKey battleId) ;;
  battle <- deserializeBattle bData ;;
  assert_ (Battle.wildcardActive battle) "no wildcard active" ;;
  assert_ (timestamp ctx <=? Battle.wildcardDecisionDeadline battle) "decision window expired" ;;
  let isPlayer1 := bool_decide (playerCharId = Battle.player1Char battle) in
  let expectedOwner := if isPlayer1 then Battle.player1Owner battle
                       else Battle.player2Owner battle in
  assert_ (bool_decide (caller ctx = expectedOwner)) "not owner" ;;
  let battle :=
    if isPlayer1
    then Battle.set_wildcardPlayer1Decision (if accept then 1 else 0) battle
    else Battle.set_wildcardPlayer2Decision (if accept then 1 else 0) battle in
  let battle := resolveWildcard battle in
  setBytes (battleKey battleId) (VBattle battle) ;;
  endNonReentrant ;;
  generateEvent "WildcardDecision" [battleId] [].

Definition game_finalizeBattle (battleId : string) : M unit :=
  whenNotPaused ;;
  nonReentrant ;;
  present <- hasKey (battleKey battleId) ;;
  assert_ present "battle missing" ;;
  bData <- getBytes (battleKey battleId) ;;
  battle <- deserializeBattle bData ;;
  assert_ (Battle.isFinished battle) "not finished" ;;
  assert_ (negb (Battle.winner battle =? 0)) "no winner" ;;
  c1Raw <- getBytes (characterKey (Battle.player1Char battle)) ;;
  c2Raw <- getBytes (characterKey (Battle.player2Char battle)) ;;
  c1 <- deserializeCharacter c1Raw ;;
  c2 <- deserializeCharacter c2Raw ;;
  let c1 := if Battle.winner battle =? 1
            then Character.set_totalWins (u32 (Character.totalWins c1 + 1)) c1
            else Character.set_totalLosses (u32 (Character.totalLosses c1 + 1)) c1 in
  let c2 := if Battle.winner battle =? 1
            then Character.set_totalLosses (u32 (Character.totalLosses c2 + 1)) c2
            else Character.set_totalWins (u32 (Character.totalWins c2 + 1)) c2 in
  let c1 := Character.set_currentHp (Character.maxHp c1) c1 in
  let c2 := Character.set_currentHp (Character.maxHp c2) c2 in
  setBytes (characterKey (Battle.player1Char battle)) (VCharacter c1) ;;
  setBytes (characterKey (Battle.player2Char battle)) (VCharacter c2) ;;
  incrementCounter TOTAL_BATTLES_FINISHED_KEY ;;
  generateEvent "BattleFinalized" [battleId] [Battle.winner battle] ;;
  endNonReentrant.

Definition game_setPaused (paused : bool) : M unit :=
  onlyRole PAUSER_ROLE ;;
  setBool PAUSED_KEY paused ;;
  generateEvent "Game pause toggled" [] [].

Definition game_grantSettler (addr : string) : M unit :=
  onlyRole ADMIN_ROLE ;;
  setString (AUTH_SETTLER_PREFIX +:+ addr) "1" ;;
  generateEvent "Game settler granted" [addr] [].

(** The stat change of one upgrade; [None] is an invalid upgrade type. *)
Definition applyUpgrade (upgradeType : Z) (char : Character.t) : option Character.t :=
  if upgradeType =? 0 then
    let char := Character.set_maxHp (u64 (Character.maxHp char + 10)) char in
    Some (Character.set_currentHp (Character.maxHp char) char)
  else if upgradeType =? 1 then
    let char := Character.set_baseDamageMin (u16 (Character.baseDamageMin char + 2)) char in
    Some (Character.set_baseDamageMax (u16 (Character.baseDamageMax char + 3)) char)
  else if upgradeType =? 2 then
    Some (if Character.critChance char <? 50
          then Character.set_critChance (u16 (Character.critChance char + 5)) char
          else char)
  else if upgradeType =? 3 then
    Some (if Character.dodgeChance char <? 40
          then Character.set_dodgeChance (u16 (Character.dodgeChance char + 5)) char
          else char)
  else None.

Definition game_upgradeCharacter (charId : string) (upgradeType : Z) : M unit :=
  whenNotPaused ;;
  nonReentrant ;;
  let upgradeType := u8 upgradeType in
  present <- hasKey (characterKey charId) ;;
  assert_ present "character not found" ;;
  charData <- getBytes (characterKey charId) ;;
  char <- deserializeCharacter charData ;;
  assert_ (bool_decide (caller ctx = Character.owner char)) "not owner" ;;
  let xpCost := 100 in
  assert_ (xpCost <=? Character.xp char) "insufficient XP" ;;
  let char := Character.set_xp (u64 (Character.xp char - xpCost)) char in
  match applyUpgrade upgradeType char with
  | Some char =>
      setBytes (characterKey charId) (VCharacter char) ;;
      endNonReentrant ;;
      generateEvent "CharacterUpgraded" [charId] [upgradeType]
  | None => abort "invalid upgrade type"
  end.

(** The level-up test of [grantXP], run once on the character whose xp was
    already increased. *)
Definition levelUp (char : Character.t) : Character.t :=
  let xpForNextLevel := u64 (Character.level char * 200) in
  if xpForNextLevel <=? Character.xp char then
    let char := Character.set_level (u16 (Character.level char + 1)) char in
    let char := Character.set_xp (u64 (Character.xp char - xpForNextLevel)) char in
    let char := Character.set_maxHp (u64 (Character.maxHp char + 5)) char in
    let char := Character.set_currentHp (Character.maxHp char) char in
    let char := Character.set_baseDamageMin (u16 (Character.baseDamageMin char + 1)) char in
    Character.set_baseDamageMax (u16 (Character.baseDamageMax char + 2)) char
  else char.

Definition grantXP_char (xpAmount : Z) (char : Character.t) : Character.t :=
  levelUp (Character.set_xp (u64 (Character.xp char + xpAmount)) char).

Definition game_grantXP (charId : string) (xpAmount : Z) : M unit :=
  onlyRole ADMIN_ROLE ;;
  let xpAmount := u64 xpAmount in
  present <- hasKey (characterKey charId) ;;
  assert_ present "character not found" ;;
  charData <- getBytes (characterKey charId) ;;
  char <- deserializeCharacter charData ;;
  let leveled := u64 (Character.level char * 200) <=? u64 (Character.xp char + xpAmount) in
  let char := grantXP_char xpAmount char in
  (if leveled
   then generateEvent "CharacterLevelUp" [charId] [Character.level char]
   else ret tt) ;;
  setBytes (characterKey charId) (VCharacter char) ;;
  generateEvent "XPGranted" [charId] [xpAmount].

Definition game_healCharacter (charId : string) : M unit :=
  whenNotPaused ;;
  nonReentrant ;;
  present <- hasKey (characterKey charId) ;;
  assert_ present "character not found" ;;
  charData <- getBytes (characterKey charId) ;;
  char <- deserializeCharacter charData ;;
  assert_ (bool_decide (caller ctx = Character.owner char)) "not owner" ;;
  let char := Character.set_currentHp (Character.maxHp char) char in
  setBytes (characterKey charId) (VCharacter char) ;;
  endNonReentrant ;;
  generateEvent "CharacterHealed" [charId] [].

(** The rarity table: hp, damage range, crit, dodge, durability.  Another
    rarity leaves the constructor's values. *)
Definition rarityStats (rarity : Z) : Z * Z * Z * Z * Z * Z :=
  if rarity =? RARITY_COMMON then (10, 1, 2, 2, 1, 100)
  else if rarity =? RARITY_RARE then (25, 3, 5, 5, 3, 200)
  else if rarity =? RARITY_EPIC then (50, 5, 10, 10, 5, 300)
  else if rarity =? RARITY_LEGENDARY then (100, 10, 20, 15, 10, 500)
  else (0, 0, 0, 0, 0, 100).

Definition game_createEquipment (equipmentId ownerAddr : string) (type_ rarity : Z) : M unit :=
  whenNotPaused ;;
  nonReentrant ;;
  onlyRole ADMIN_ROLE ;;
  let type_ := u8 type_ in
  let rarity := u8 rarity in
  present <- hasKey (equipmentKey equipmentId) ;;
  assert_ (negb present) "equipment exists" ;;
  let '(hp, dmgMin, dmgMax, crit, dodge, durability) := rarityStats rarity in
  let equip := Equipment.mk equipmentId ownerAddr type_ rarity hp dmgMin dmgMax crit dodge
                 durability durability (timestamp ctx) in
  setBytes (equipmentKey equipmentId) (VEquipment equip) ;;
  incrementCounter EQUIPMENT_COUNT_KEY ;;
  endNonReentrant ;;
  generateEvent "EquipmentCreated" [equipmentId] [rarity].

Definition game_equipItem (charId equipmentId : string) : M unit :=
  whenNotPaused ;;
  nonReentrant ;;
  hasChar <- hasKey (characterKey charId) ;;
  assert_ hasChar "character not found" ;;
  hasEquip <- hasKey (equipmentKey equipmentId) ;;
  assert_ hasEquip "equipment not found" ;;
  charData <- getBytes (characterKey charId) ;;
  char <- deserializeCharacter charData ;;
  equipData <- getBytes (equipmentKey equipmentId) ;;
  equip <- deserializeEquipment equipData ;;
  assert_ (bool_decide (caller ctx = Character.owner char)) "not character owner" ;;
  assert_ (bool_decide (caller ctx = Equipment.owner equip)) "not equipment owner" ;;
  let char :=
    if Equipment.type_ equip =? 0 then Character.set_weaponId equipmentId char
    else if Equipment.type_ equip =? 1 then Character.set_armorId equipmentId char
    else if Equipment.type_ equip =? 2 then Character.set_accessoryId equipmentId char
    else char in
  setBytes (characterKey charId) (VCharacter char) ;;
  endNonReentrant ;;
  generateEvent "ItemEquipped" [charId; equipmentId] [].

Definition game_transferEquipment (equipmentId toAddr : string) : M unit :=
  whenNotPaused ;;
  nonReentrant ;;
  present <- hasKey (equipmentKey equipmentId) ;;
  assert_ present "equipment not found" ;;
  equipData <- getBytes (equipmentKey equipmentId) ;;
  equip <- deserializeEquipment equipData ;;
  assert_ (bool_decide (caller ctx = Equipment.owner equip)) "not owner" ;;
  let equip := Equipment.set_owner toAddr equip in
  setBytes (equipmentKey equipmentId) (VEquipment equip) ;;
  endNonReentrant ;;
  generateEvent "EquipmentTransferred" [equipmentId] [].

(** The learned skills, a comma-separated text, as the list it encodes, and
    the search for a skill id that both skill functions run on it. *)
Definition learnedArray (char : Character.t) : list string :=
  if bool_decide (Character.learnedSkills char = "") then []
  else split1 "," (Character.learnedSkills char).

Definition isLearned (skillId : Z) (char : Character.t) : bool :=
  existsb (fun s => bool_decide (parseInt s = Some skillId)) (learnedArray char).

Definition game_learnSkill (characterId : string) (skillId : Z) : M unit :=
  whenNotPaused ;;
  nonReentrant ;;
  let skillId := u8 skillId in
  assert_ ((SKILL_NONE <? skillId) && (skillId <=? SKILL_COMBO_BREAKER)) "invalid skill" ;;
  present <- hasKey (characterKey characterId) ;;
  assert_ present "character not found" ;;
  charData <- getBytes (characterKey characterId) ;;
  char <- deserializeCharacter charData ;;
  assert_ (bool_decide (caller ctx = Character.owner char)) "not character owner" ;;
  assert_ (negb (isLearned skillId char)) "skill already learned" ;;
  let requiredLevel := if skillId <=? 3 then 1 else if skillId <=? 6 then 5 else 10 in
  assert_ (requiredLevel <=? Character.level char) "level too low for this skill" ;;
  let char :=
    if negb (bool_decide (Character.learnedSkills char = ""))
    then Character.set_learnedSkills (Character.learnedSkills char +:+ "," +:+ utoa skillId) char
    else Character.set_learnedSkills (utoa skillId) char in
  setBytes (characterKey characterId) (VCharacter char) ;;
  endNonReentrant ;;
  generateEvent "SkillLearned" [characterId] [skillId].

Definition game_equipSkill (characterId : string) (skillId slot : Z) : M unit :=
  whenNotPaused ;;
  nonReentrant ;;
  let skillId := u8 skillId in
  let slot := u8 slot in
  assert_ ((1 <=? slot) && (slot <=? 3)) "invalid slot" ;;
  present <- hasKey (characterKey characterId) ;;
  assert_ present "character not found" ;;
  charData <- getBytes (characterKey characterId) ;;
  char <- deserializeCharacter charData ;;
  assert_ (bool_decide (caller ctx = Character.owner char)) "not character owner" ;;
  (if negb (skillId =? SKILL_NONE)
   then assert_ (isLearned skillId char) "skill not learned"
   else ret tt) ;;
  let char :=
    if slot =? 1 then Character.set_skill1 skillId char
    else if slot =? 2 then Character.set_skill2 skillId char
    else Character.set_skill3 skillId char in
  setBytes (characterKey characterId) (VCharacter char) ;;
  endNonReentrant ;;
  generateEvent "SkillEquipped" [characterId] [slot; skillId].

Definition game_addToTreasury (amount : Z) : M unit :=
  nonReentrant ;;
  let amount := u64 amount in
  currentBalance <- getCounter TREASURY_BALANCE_KEY ;;
  setCounter TREASURY_BALANCE_KEY (u64 (currentBalance + amount)) ;;
  endNonReentrant ;;
  generateEvent "TreasuryDeposit" [] [amount].

Definition game_withdrawTreasury (amount : Z) (tokenAddr recipient : string) : M unit :=
  whenNotPaused ;;
  nonReentrant ;;
  onlyRole ADMIN_ROLE ;;
  let amount := u64 amount in
  currentBalance <- getCounter TREASURY_BALANCE_KEY ;;
  assert_ (amount <=? currentBalance) "insufficient treasury balance" ;;
  setCounter TREASURY_BALANCE_KEY (u64 (currentBalance - amount)) ;;
  totalWithdrawn <- getCounter TREASURY_WITHDRAWN_KEY ;;
  setCounter TREASURY_WITHDRAWN_KEY (u64 (totalWithdrawn + amount)) ;;
  transfer tokenAddr recipient amount ;;
  endNonReentrant ;;
  generateEvent "TreasuryWithdrawal" [] [amount].

(** ** Prop bets *)

Definition PROP_BET_PREFIX : string := "propbet:".
Definition PROP_TICKET_PREFIX : string := "propticket:".

Definition propBetKey (id : string) : string := PROP_BET_PREFIX +:+ id.
Definition propTicketKey (propId bettor : string) : string :=
  PROP_TICKET_PREFIX +:+ propId +:+ ":" +:+ bettor.

Definition deserializePropBet (v : Value) : M PropBet.t :=
  match v with VPropBet p => ret p | _ => abort "PropBet.deserialize" end.
Definition deserializePropTicket (v : Value) : M PropTicket.t :=
  match v with VPropTicket t => ret t | _ => abort "PropTicket.deserialize" end.

Definition propbet_createProp (propId battleId : string) (propType threshold : Z)
    (description : string) : M unit :=
  whenNotPaused ;;
  nonReentrant ;;
  onlyRole ADMIN_ROLE ;;
  let propType := u8 propType in
  let threshold := u64 threshold in
  present <- hasKey (propBetKey propId) ;;
  assert_ (negb present) "prop exists" ;;
  battlePresent <- hasKey (battleKey battleId) ;;
  assert_ battlePresent "battle does not exist" ;;
  let prop := PropBet.mk propId battleId propType threshold description 0 0 false false
                (timestamp ctx) in
  setBytes (propBetKey propId) (VPropBet prop) ;;
  endNonReentrant ;;
  generateEvent "PropBetCreated" [propId; battleId] [].

Definition propbet_placeBet (propId : string) (amount : Z) (prediction : bool)
    (tokenAddr : string) : M unit :=
  whenNotPaused ;;
  nonReentrant ;;
  let amount := u64 amount in
  present <- hasKey (propBetKey propId) ;;
  assert_ present "prop does not exist" ;;
  propData <- getBytes (propBetKey propId) ;;
  prop <- deserializePropBet propData ;;
  assert_ (negb (PropBet.isResolved prop)) "prop already resolved" ;;
  assert_ (0 <? amount) "amount must be positive" ;;
  let ticketKey := propTicketKey propId (caller ctx) in
  taken <- hasKey ticketKey ;;
  assert_ (negb taken) "already bet on this prop" ;;
  transferFrom tokenAddr (caller ctx) (callee ctx) amount ;;
  let ticket := PropTicket.mk propId (caller ctx) amount prediction false (timestamp ctx) in
  setBytes ticketKey (VPropTicket ticket) ;;
  let prop :=
    if prediction
    then PropBet.set_yesPool (u128_add (PropBet.yesPool prop) amount) prop
    else PropBet.set_noPool (u128_add (PropBet.noPool prop) amount) prop in
  setBytes (propBetKey propId) (VPropBet prop) ;;
  incrementCounter TOTAL_BETS_PLACED_KEY ;;
  endNonReentrant ;;
  generateEvent "PropBetPlaced" [propId; caller ctx] [amount].

Definition propbet_resolveProp (propId : string) (outcome : bool) : M unit :=
  whenNotPaused ;;
  nonReentrant ;;
  onlyRole SETTLER_ROLE ;;
  present <- hasKey (propBetKey propId) ;;
  assert_ present "prop does not exist" ;;
  propData <- getBytes (propBetKey propId) ;;
  prop <- deserializePropBet propData ;;
  assert_ (negb (PropBet.isResolved prop)) "already resolved" ;;
  battlePresent <- hasKey (battleKey (PropBet.battleId prop)) ;;
  assert_ battlePresent "battle missing" ;;
  battleData <- getBytes (battleKey (PropBet.battleId prop)) ;;
  battle <- deserializeBattle battleData ;;
  assert_ (Battle.isFinished battle) "battle not finished" ;;
  let prop := PropBet.set_outcome outcome (PropBet.set_isResolved true prop) in
  setBytes (propBetKey propId) (VPropBet prop) ;;
  endNonReentrant ;;
  generateEvent "PropBetResolved" [propId] [].

(** What a winning ticket is paid: the stake plus its share of the losing
    side. *)
Definition propPayoutU (prop : PropBet.t) (ticket : PropTicket.t) : Z :=
  let winnerPool := if PropBet.outcome prop then PropBet.yesPool prop else PropBet.noPool prop in
  let loserPool := if PropBet.outcome prop then PropBet.noPool prop else PropBet.yesPool prop in
  if 0 <? winnerPool
  then u128_add (PropTicket.amount ticket)
         (u128_div (u128_mul loserPool (PropTicket.amount ticket)) winnerPool)
  else PropTicket.amount ticket.

Definition propbet_claimProp (propId tokenAddr : string) : M unit :=
  whenNotPaused ;;
  nonReentrant ;;
  let ticketKey := propTicketKey propId (caller ctx) in
  found <- hasKey ticketKey ;;
  assert_ found "no ticket found" ;;
  ticketData <- getBytes ticketKey ;;
  ticket <- deserializePropTicket ticketData ;;
  assert_ (negb (PropTicket.isClaimed ticket)) "already claimed" ;;
  present <- hasKey (propBetKey propId) ;;
  assert_ present "prop does not exist" ;;
  propData <- getBytes (propBetKey propId) ;;
  prop <- deserializePropBet propData ;;
  assert_ (PropBet.isResolved prop) "prop not resolved" ;;
  let isWinner := Bool.eqb (PropTicket.prediction ticket) (PropBet.outcome prop) in
  if negb isWinner then
    setBytes ticketKey (VPropTicket (PropTicket.set_isClaimed true ticket)) ;;
    incrementCounter TOTAL_BETS_CLAIMED_KEY ;;
    endNonReentrant ;;
    generateEvent "PropBetClaimed" [propId; caller ctx; "loss"] []
  else
    let payoutU64 := u64 (propPayoutU prop ticket) in
    setBytes ticketKey (VPropTicket (PropTicket.set_isClaimed true ticket)) ;;
    bal <- balanceOf tokenAddr (callee ctx) ;;
    assert_ (payoutU64 <=? bal) "contract insufficient funds" ;;
    transfer tokenAddr (caller ctx) payoutU64 ;;
    incrementCounter TOTAL_BETS_CLAIMED_KEY ;;
    endNonReentrant ;;
    generateEvent "PropBetClaimed" [propId; caller ctx] [payoutU64].

End Calls.
(** * Reasoning about calls *)

(** [wp c Q w]: if [c] completes from [w], its result and final world
    satisfy [Q]. *)
Definition wp {A : Type} (c : M A) (Q : A -> World -> Prop) (w : World) : Prop :=
  match c w with
  | Ok a w' => Q a w'
  | Abort _ _ => True
  end.

Lemma wp_bind {A B : Type} (c : M A) (k : A -> M B) (Q : B -> World -> Prop) (w : World) :
  wp c (fun a w' => wp (k a) Q w') w -> wp (bind c k) Q w.
Proof. unfold wp, bind. destruct (c w); auto. Qed.

Lemma wp_mono {A : Type} (c : M A) (Q Q' : A -> World -> Prop) (w : World) :
  (forall a w', Q a w' -> Q' a w') -> wp c Q w -> wp c Q' w.
Proof. unfold wp. destruct (c w); auto. Qed.

Lemma wp_exec (c : M unit) (P : World -> Prop) (w : World) :
  P w -> wp c (fun _ w' => P w') w -> P (exec c w).
Proof. unfold wp, exec. destruct (c w); auto. Qed.

Lemma bind_Ok {A B : Type} (c : M A) (k : A -> M B) (w w' : World) (b : B) :
  bind c k w = Ok b w' -> exists a w1, c w = Ok a w1 /\ k a w1 = Ok b w'.
Proof. unfold bind. destruct (c w) as [a w1|]; [eauto | discriminate]. Qed.

Lemma assert_Ok (b : bool) (msg : string) (w w' : World) (u : unit) :
  assert_ b msg w = Ok u w' -> b = true /\ w' = w.
Proof. destruct b; cbn; [intros [= <-]; auto | discriminate]. Qed.

Lemma hasKey_Ok (key : string) (w w' : World) (b : bool) :
  hasKey key w = Ok b w' -> w' = w /\ b = bool_decide (is_Some (storage w !! key)).
Proof. intros [= <- <-]. done. Qed.

Lemma getBytes_Ok (key : string) (w w' : World) (v : Value) :
  getBytes key w = Ok v w' -> w' = w /\ storage w !! key = Some v.
Proof. unfold getBytes. destruct (storage w !! key); [intros [= <- <-]; done | discriminate]. Qed.

Lemma setBytes_Ok (key : string) (v : Value) (w w' : World) (u : unit) :
  setBytes key v w = Ok u w' -> w' = write key v w.
Proof. by intros [= <-]. Qed.

Lemma deleteKey_Ok (key : string) (w w' : World) (u : unit) :
  deleteKey key w = Ok u w' -> w' = erase key w.
Proof. by intros [= <-]. Qed.

Lemma ret_Ok {A : Type} (a b : A) (w w' : World) : ret a w = Ok b w' -> w' = w /\ b = a.
Proof. by intros [= <- <-]. Qed.

Lemma generateEvent_Ok (tag : string) (ids : list string) (nums : list Z) (w w' : World)
    (u : unit) :
  generateEvent tag ids nums w = Ok u w' -> w' = emit (EEvent tag ids nums) w.
Proof. by intros [= <-]. Qed.

Lemma getCounter_Ok (key : string) (w w' : World) (n : Z) :
  getCounter key w = Ok n w' -> w' = w /\ n = counter_of w key.
Proof.
  unfold getCounter, counter_of. intros Hx.
  apply bind_Ok in Hx as (h & w1 & H1 & Hx). apply hasKey_Ok in H1 as [-> ->].
  destruct (storage w !! key) as [v|] eqn:E; cbn in Hx.
  - apply bind_Ok in Hx as (v' & w1 & H1 & Hx). apply getBytes_Ok in H1 as [-> E'].
    rewrite E in E'. injection E' as <-.
    destruct v; try discriminate. case_match; [|discriminate]. by inversion Hx.
  - by inversion Hx.
Qed.

Lemma incrementCounter_Ok (key : string) (w w' : World) (n : Z) :
  incrementCounter key w = Ok n w' ->
  w' = write key (VNum (u64 (counter_of w key + 1))) w /\ n = u64 (counter_of w key + 1).
Proof.
  unfold incrementCounter. intros H.
  apply bind_Ok in H as (c & w1 & H1 & H). apply getCounter_Ok in H1 as [-> ->].
  apply bind_Ok in H as ([] & w2 & H2 & H). apply setBytes_Ok in H2 as ->.
  apply ret_Ok in H as [-> ->]. done.
Qed.

Lemma getString_Ok (key : string) (w w' : World) (s : string) :
  getString key w = Ok s w' -> w' = w.
Proof.
  unfold getString. intros Hx.
  apply bind_Ok in Hx as (h & w1 & H1 & Hx). apply hasKey_Ok in H1 as [-> ->].
  destruct (bool_decide _); cbn in Hx.
  - apply bind_Ok in Hx as (v' & w1 & H1 & Hx). apply getBytes_Ok in H1 as [-> E'].
    destruct v'; try discriminate. by inversion Hx.
  - by inversion Hx.
Qed.

Lemma whenNotPaused_Ok (w w' : World) (u : unit) : whenNotPaused w = Ok u w' -> w' = w.
Proof.
  unfold whenNotPaused, getBool. intros H.
  apply bind_Ok in H as (p & w1 & H1 & H).
  apply bind_Ok in H1 as (s & w2 & H2 & H1). apply getString_Ok in H2 as ->.
  apply ret_Ok in H1 as [-> ->]. apply assert_Ok in H as [_ ->]. done.
Qed.

Lemma nonReentrant_Ok (w w' : World) (u : unit) :
  nonReentrant w = Ok u w' ->
  storage w !! LOCKED_KEY = None /\ w' = write LOCKED_KEY (VText "true") w.
Proof.
  unfold nonReentrant. intros H.
  apply bind_Ok in H as (l & w1 & H1 & H). apply hasKey_Ok in H1 as [-> ->].
  apply bind_Ok in H as ([] & w2 & H2 & H). apply assert_Ok in H2 as [Hl ->].
  apply setBytes_Ok in H as ->. split; [|done].
  apply negb_true_iff, bool_decide_eq_false in Hl.
  destruct (storage w !! LOCKED_KEY); [|done]. destruct Hl. eauto.
Qed.

Lemma endNonReentrant_Ok (w w' : World) (u : unit) :
  endNonReentrant w = Ok u w' -> w' = erase LOCKED_KEY w.
Proof. apply deleteKey_Ok. Qed.

Lemma onlyRole_Ok (ctx : Ctx) (role : string) (w w' : World) (u : unit) :
  onlyRole ctx role w = Ok u w' ->
  w' = w /\ is_Some (storage w !! (role +:+ ":" +:+ caller ctx)).
Proof.
  unfold onlyRole. intros H.
  apply bind_Ok in H as (h & w1 & H1 & H). apply hasKey_Ok in H1 as [-> ->].
  apply assert_Ok in H as [Hh ->]. split; [done|]. by apply bool_decide_eq_true in Hh.
Qed.

Lemma balanceOf_Ok (token holder : string) (w w' : World) (n : Z) :
  balanceOf token holder w = Ok n w' ->
  w' = emit (EBalanceOf token holder) w /\ n = balance_of w token holder.
Proof. by intros [= <- <-]. Qed.

Lemma allowance_Ok (token owner spender : string) (w w' : World) (n : Z) :
  allowance token owner spender w = Ok n w' ->
  w' = emit (EAllowance token owner spender) w /\ n = allowance_of w token owner spender.
Proof. by intros [= <- <-]. Qed.

(** What the storage of a world is after the primitive updates. *)
Lemma storage_write (key : string) (v : Value) (w : World) :
  storage (write key v w) = <[key := v]> (storage w).
Proof. reflexivity. Qed.

Lemma storage_erase (key : string) (w : World) :
  storage (erase key w) = delete key (storage w).
Proof. reflexivity. Qed.

Lemma storage_emit (e : Effect) (w : World) : storage (emit e w) = storage w.
Proof. reflexivity. Qed.

Lemma storage_move_tokens (token src dst : string) (amount : Z) (w : World) :
  storage (move_tokens token src dst amount w) = storage w.
Proof. reflexivity. Qed.

Lemma transfer_Ok (ctx : Ctx) (token recipient : string) (amount : Z) (w w' : World)
    (u : unit) :
  transfer ctx token recipient amount w = Ok u w' ->
  amount <= balance_of w token (callee ctx)
  /\ w' = move_tokens token (callee ctx) recipient amount
            (emit (ETransfer token recipient amount) w).
Proof.
  unfold transfer. destruct (Z.leb_spec amount (balance_of w token (callee ctx)));
    [|discriminate].
  intros Hx. inversion Hx. done.
Qed.

Lemma transferFrom_Ok (ctx : Ctx) (token owner recipient : string) (amount : Z)
    (w w' : World) (u : unit) :
  transferFrom ctx token owner recipient amount w = Ok u w' ->
  storage w' = storage w.
Proof.
  unfold transferFrom. destruct (_ && _); [|discriminate].
  intros Hx. inversion Hx. reflexivity.
Qed.

(** ** Invariants of the storage

    [stores g w]: every binding of the storage satisfies [g], a predicate
    on the key and the value stored under it. *)

Definition stores (g : string -> Value -> Prop) (w : World) : Prop :=
  forall k v, storage w !! k = Some v -> g k v.

(** [keeps g g' c R]: run from a storage whose bindings satisfy [g], the
    call [c] leaves one whose bindings satisfy [g'] and returns a result
    satisfying [R]. *)
Definition keeps (g g' : string -> Value -> Prop) {A : Type} (c : M A) (R : A -> Prop)
  : Prop :=
  forall w, stores g w -> wp c (fun a w' => stores g' w' /\ R a) w.

Lemma keeps_exec (g g' : string -> Value -> Prop) (c : M unit) (w : World) :
  (forall k v, g k v -> g' k v) -> keeps g g' c (fun _ => True) -> stores g w ->
  stores g' (exec c w).
Proof.
  intros Hsub Hc Hw. specialize (Hc w Hw). unfold wp, exec in *.
  destruct (c w); [tauto|]. intros k v E. eauto.
Qed.

Section Keeps.

Context {g : string -> Value -> Prop}.

Lemma keeps_bind {A B : Type} (g1 g2 : string -> Value -> Prop) (c : M A) (k : A -> M B)
    (R : A -> Prop) (R' : B -> Prop) :
  keeps g g1 c R -> (forall a, R a -> keeps g1 g2 (k a) R') -> keeps g g2 (bind c k) R'.
Proof.
  intros Hc Hk w Hw. apply wp_bind. specialize (Hc w Hw).
  unfold wp in *. destruct (c w) as [a w1|]; [|done].
  destruct Hc as [H1 HR]. exact (Hk a HR w1 H1).
Qed.

Lemma keeps_weaken {A : Type} (g1 : string -> Value -> Prop) (c : M A) (R R' : A -> Prop) :
  (forall a, R a -> R' a) -> keeps g g1 c R -> keeps g g1 c R'.
Proof.
  intros HR Hc w Hw. eapply wp_mono; [|exact (Hc w Hw)]. cbn. intros a w' [? ?]; auto.
Qed.

Lemma keeps_post {A : Type} (g1 g2 : string -> Value -> Prop) (c : M A) (R : A -> Prop) :
  (forall k v, g1 k v -> g2 k v) -> keeps g g1 c R -> keeps g g2 c R.
Proof.
  intros Hsub Hc w Hw. eapply wp_mono; [|exact (Hc w Hw)]. cbn.
  intros a w' [H1 ?]. split; [|done]. intros k v E. eauto.
Qed.

Lemma keeps_ret {A : Type} (a : A) (R : A -> Prop) : R a -> keeps g g (ret a) R.
Proof. intros HR w Hw. cbn. auto. Qed.

Lemma keeps_abort {A : Type} (g1 : string -> Value -> Prop) (msg : string) (R : A -> Prop) :
  keeps g g1 (abort msg) R.
Proof. intros w Hw. exact I. Qed.

Lemma keeps_assert (b : bool) (msg : string) : keeps g g (assert_ b msg) (fun _ => b = true).
Proof. intros w Hw. destruct b; cbn; auto. Qed.

Lemma keeps_hasKey (key : string) : keeps g g (hasKey key) (fun _ => True).
Proof. intros w Hw. cbn. auto. Qed.

Lemma keeps_getBytes (key : string) : keeps g g (getBytes key) (g key).
Proof.
  intros w Hw. unfold wp, getBytes. destruct (storage w !! key) as [v|] eqn:E; [|done].
  split; [done | eauto].
Qed.

Lemma stores_insert (g1 : string -> Value -> Prop) (w : World) (key : string) (v : Value) :
  (forall k x, g k x -> g1 k x) -> g1 key v -> stores g w ->
  stores g1 (write key v w).
Proof.
  intros Hsub Hv Hw k x. cbn. rewrite lookup_insert. case_decide.
  - intros [= <-]. by subst.
  - intros E. apply Hsub. eauto.
Qed.

Lemma keeps_setBytes_to (g1 : string -> Value -> Prop) (key : string) (v : Value) :
  (forall k x, g k x -> g1 k x) -> g1 key v -> keeps g g1 (setBytes key v) (fun _ => True).
Proof. intros Hsub Hv w Hw. cbn. split; [|done]. by apply stores_insert. Qed.

Lemma keeps_setBytes (key : string) (v : Value) :
  g key v -> keeps g g (setBytes key v) (fun _ => True).
Proof. apply keeps_setBytes_to. auto. Qed.

Lemma keeps_deleteKey (key : string) : keeps g g (deleteKey key) (fun _ => True).
Proof.
  intros w Hw. cbn. split; [|done]. intros k x. cbn. rewrite lookup_delete.
  case_decide; [done | eauto].
Qed.

Lemma keeps_generateEvent (tag : string) (ids : list string) (nums : list Z) :
  keeps g g (generateEvent tag ids nums) (fun _ => True).
Proof. intros w Hw. cbn. split; [|done]. exact Hw. Qed.

Lemma keeps_balanceOf (token holder : string) :
  keeps g g (balanceOf token holder) (fun _ => True).
Proof. intros w Hw. cbn. split; [|done]. exact Hw. Qed.

Lemma keeps_allowance (token owner spender : string) :
  keeps g g (allowance token owner spender) (fun _ => True).
Proof. intros w Hw. cbn. split; [|done]. exact Hw. Qed.

Lemma keeps_transferFrom (ctx : Ctx) (token owner recipient : string) (amount : Z) :
  keeps g g (transferFrom ctx token owner recipient amount) (fun _ => True).
Proof.
  intros w Hw. unfold wp, transferFrom.
  destruct (_ && _); [|done]. split; [|done]. exact Hw.
Qed.

Lemma keeps_transfer (ctx : Ctx) (token recipient : string) (amount : Z) :
  keeps g g (transfer ctx token recipient amount) (fun _ => True).
Proof.
  intros w Hw. unfold wp, transfer.
  destruct (_ <=? _); [|done]. split; [|done]. exact Hw.
Qed.

Lemma keeps_setString (key value : string) :
  g key (VText value) -> keeps g g (setString key value) (fun _ => True).
Proof. apply keeps_setBytes. Qed.

Lemma keeps_setBool (key : string) (value : bool) :
  (forall s, g key (VText s)) -> keeps g g (setBool key value) (fun _ => True).
Proof. intros H. apply keeps_setString, H. Qed.

Lemma keeps_setCounter (key : string) (value : Z) :
  g key (VNum value) -> keeps g g (setCounter key value) (fun _ => True).
Proof. apply keeps_setBytes. Qed.

Lemma keeps_getCounter (key : string) : keeps g g (getCounter key) (fun _ => True).
Proof.
  unfold getCounter. eapply keeps_bind; [apply keeps_hasKey|]. intros has _.
  destruct has; cbn; [|by apply keeps_ret].
  eapply keeps_bind; [apply keeps_getBytes|]. intros v _.
  destruct v; try apply keeps_abort.
  destruct (_ <? _); [by apply keeps_ret | apply keeps_abort].
Qed.

Lemma keeps_incrementCounter (key : string) :
  (forall n, g key (VNum n)) -> keeps g g (incrementCounter key) (fun _ => True).
Proof.
  intros H. unfold incrementCounter. eapply keeps_bind; [apply keeps_getCounter|]. intros n _.
  eapply keeps_bind; [apply keeps_setCounter, H|]. intros _ _. by apply keeps_ret.
Qed.

Lemma keeps_getString (key : string) : keeps g g (getString key) (fun _ => True).
Proof.
  unfold getString. eapply keeps_bind; [apply keeps_hasKey|]. intros has _.
  destruct has; cbn; [|by apply keeps_ret].
  eapply keeps_bind; [apply keeps_getBytes|]. intros v _.
  destruct v; try apply keeps_abort. by apply keeps_ret.
Qed.

Lemma keeps_whenNotPaused : keeps g g whenNotPaused (fun _ => True).
Proof.
  unfold whenNotPaused, getBool.
  eapply keeps_bind; [eapply keeps_bind; [apply keeps_getString|]|].
  - intros s _. by apply (keeps_ret _ (fun _ => True)).
  - intros paused _. eapply keeps_weaken; [|apply keeps_assert]. done.
Qed.

Lemma keeps_nonReentrant :
  (forall s, g LOCKED_KEY (VText s)) -> keeps g g nonReentrant (fun _ => True).
Proof.
  intros H. unfold nonReentrant. eapply keeps_bind; [apply keeps_hasKey|]. intros locked _.
  eapply keeps_bind; [apply keeps_assert|]. intros _ _. by apply keeps_setBool.
Qed.

Lemma keeps_endNonReentrant : keeps g g endNonReentrant (fun _ => True).
Proof. apply keeps_deleteKey. Qed.

Lemma keeps_onlyRole (ctx : Ctx) (role : string) : keeps g g (onlyRole ctx role) (fun _ => True).
Proof.
  unfold onlyRole. eapply keeps_bind; [apply keeps_hasKey|]. intros has _.
  eapply keeps_weaken; [|apply keeps_assert]. done.
Qed.

End Keeps.

(** * The game contract as a whole *)

Inductive GameCall : Type :=
| Constructor
| CreateCharacter (id : string) (classU8 : Z) (name : string)
| CreateBattle (battleId char1Id char2Id : string) (startTs : Z)
| ExecuteTurn (battleId attackerCharId : string) (stance : Z) (useSpecial : bool)
    (skillSlot : Z)
| DecideWildcard (battleId : string) (accept : bool) (playerCharId : string)
| FinalizeBattle (battleId : string)
| SetPaused (paused : bool)
| GrantSettler (addr : string)
| UpgradeCharacter (charId : string) (upgradeType : Z)
| GrantXP (charId : string) (xpAmount : Z)
| HealCharacter (charId : string)
| CreateEquipment (equipmentId ownerAddr : string) (type_ rarity : Z)
| EquipItem (charId equipmentId : string)
| TransferEquipment (equipmentId toAddr : string)
| LearnSkill (characterId : string) (skillId : Z)
| EquipSkill (characterId : string) (skillId slot : Z)
| AddToTreasury (amount : Z)
| WithdrawTreasury (amount : Z) (tokenAddr recipient : string).

Definition game_call (ctx : Ctx) (c : GameCall) : M unit :=
  match c with
  | Constructor => game_constructor ctx
  | CreateCharacter id classU8 name => game_createCharacter ctx id classU8 name
  | CreateBattle battleId char1Id char2Id startTs =>
      game_createBattle ctx battleId char1Id char2Id startTs
  | ExecuteTurn battleId attackerCharId stance useSpecial skillSlot =>
      game_executeTurn ctx battleId attackerCharId stance useSpecial skillSlot
  | DecideWildcard battleId accept playerCharId =>
      game_decideWildcard ctx battleId accept playerCharId
  | FinalizeBattle battleId => game_finalizeBattle battleId
  | SetPaused paused => game_setPaused ctx paused
  | GrantSettler addr => game_grantSettler ctx addr
  | UpgradeCharacter charId upgradeType => game_upgradeCharacter ctx charId upgradeType
  | GrantXP charId xpAmount => game_grantXP ctx charId xpAmount
  | HealCharacter charId => game_healCharacter ctx charId
  | CreateEquipment equipmentId ownerAddr type_ rarity =>
      game_createEquipment ctx equipmentId ownerAddr type_ rarity
  | EquipItem charId equipmentId => game_equipItem ctx charId equipmentId
  | TransferEquipment equipmentId toAddr => game_transferEquipment ctx equipmentId toAddr
  | LearnSkill characterId skillId => game_learnSkill ctx characterId skillId
  | EquipSkill characterId skillId slot => game_equipSkill ctx characterId skillId slot
  | AddToTreasury amount => game_addToTreasury amount
  | WithdrawTreasury amount tokenAddr recipient =>
      game_withdrawTreasury ctx amount tokenAddr recipient
  end.

(** The entry points of the betting market. *)
Inductive MarketCall : Type :=
| MarketConstructor
| CreateSinglePool (poolId battleId tokenAddr : string) (closeTs : Z)
| PlaceSingleBet (poolId : string) (outcome amount : Z)
| CloseSinglePool (poolId : string)
| SettleSinglePool (poolId : string) (winningOutcome : Z)
| ClaimSingleBet (poolId bettor : string)
| SetAuthorizedSettler (addr : string)
| MarketSetPaused (paused : bool)
| CreateMultipool (multipoolId tokenAddr : string)
| PlaceMultibet (betslipId multipoolId : string) (amount : Z) (legs : list (string * Z))
| CheckBetslipWinner (betslipId : string)
| FinalizeMultipool (multipoolId : string)
| ClaimMultibet (betslipId : string).

Definition prediction_call (ctx : Ctx) (c : MarketCall) : M unit :=
  match c with
  | MarketConstructor => prediction_constructor ctx
  | CreateSinglePool poolId battleId tokenAddr closeTs =>
      prediction_createSinglePool ctx poolId battleId tokenAddr closeTs
  | PlaceSingleBet poolId outcome amount => prediction_placeSingleBet ctx poolId outcome amount
  | CloseSinglePool poolId => prediction_closeSinglePool ctx poolId
  | SettleSinglePool poolId winningOutcome =>
      prediction_settleSinglePool ctx poolId winningOutcome
  | ClaimSingleBet poolId bettor => prediction_claimSingleBet ctx poolId bettor
  | SetAuthorizedSettler addr => prediction_setAuthorizedSettler ctx addr
  | MarketSetPaused paused => prediction_setPaused ctx paused
  | CreateMultipool multipoolId tokenAddr => prediction_createMultipool ctx multipoolId tokenAddr
  | PlaceMultibet betslipId multipoolId amount legs =>
      prediction_placeMultibet ctx betslipId multipoolId amount legs
  | CheckBetslipWinner betslipId => prediction_checkBetslipWinner betslipId
  | FinalizeMultipool multipoolId => prediction_finalizeMultipool ctx multipoolId
  | ClaimMultibet betslipId => prediction_claimMultibet ctx betslipId
  end.

(** The entry points of the prop bets. *)
Inductive PropCall : Type :=
| CreateProp (propId battleId : string) (propType threshold : Z) (description : string)
| PlaceProp (propId : string) (amount : Z) (prediction : bool) (tokenAddr : string)
| ResolveProp (propId : string) (outcome : bool)
| ClaimProp (propId tokenAddr : string).

Definition propbet_call (ctx : Ctx) (c : PropCall) : M unit :=
  match c with
  | CreateProp propId battleId propType threshold description =>
      propbet_createProp ctx propId battleId propType threshold description
  | PlaceProp propId amount prediction tokenAddr =>
      propbet_placeBet ctx propId amount prediction tokenAddr
  | ResolveProp propId outcome => propbet_resolveProp ctx propId outcome
  | ClaimProp propId tokenAddr => propbet_claimProp ctx propId tokenAddr
  end.

(** All state-changing entry points: the file holds the game, the market
    and the prop bets, over one storage. *)
Inductive Call : Type :=
| Game (c : GameCall)
| Market (c : MarketCall)
| Prop_ (c : PropCall).

Definition call (ctx : Ctx) (c : Call) : M unit :=
  match c with
  | Game c => game_call ctx c
  | Market c => prediction_call ctx c
  | Prop_ c => propbet_call ctx c
  end.

(** The worlds that the contract can be in after [n] calls: deployed with
    an empty storage, driven by calls of the callers in [who], while the
    token ledger may change between calls.  A call that aborts leaves no
    trace ([exec]). *)
Inductive reach (who : string -> Prop) : nat -> World -> Prop :=
| genesis (w : World) : storage w = ∅ -> reach who 0 w
| step (n : nat) (w : World) (ctx : Ctx) (c : Call) :
    who (caller ctx) -> reach who n w -> reach who (S n) (exec (call ctx c) w)
| ledger (n : nat) (w : World) (bal : gmap (string * string) Z)
    (alw : gmap (string * string * string) Z) :
    reach who n w -> reach who n (set_allowances alw (set_balances bal w)).

Definition anyone (_ : string) : Prop := True.

(** A run of calls, one after the other. *)
Definition run (calls : list (Ctx * Call)) (w : World) : World :=
  fold_left (fun w '(ctx, c) => exec (call ctx c) w) calls w.

(** ** Stepping through a call *)

(** Keys are told apart by their first characters; the identifiers that
    follow the prefix are left alone. *)
Ltac unfold_keys E :=
  unfold battleKey, characterKey, equipmentKey, spoolKey, sbetKey, mpoolKey, betslipKey,
    streakKey, BATTLE_PREFIX, CHARACTER_PREFIX, EQUIPMENT_PREFIX, SINGLE_POOL_PREFIX,
    SINGLE_BET_PREFIX, MULTIPOOL_PREFIX, BETSLIP_PREFIX, BETTING_STREAK_PREFIX,
    LOCKED_KEY, PAUSED_KEY, ADMIN_ROLE, PAUSER_ROLE, SETTLER_ROLE, AUTH_SETTLER_PREFIX,
    CHARACTER_COUNT_KEY, BATTLE_COUNT_KEY, TOTAL_BATTLES_FINISHED_KEY,
    SINGLE_POOL_COUNT_KEY, MULTIPOOL_COUNT_KEY, TOTAL_BETS_PLACED_KEY,
    TOTAL_BETS_CLAIMED_KEY, EQUIPMENT_COUNT_KEY, TREASURY_BALANCE_KEY,
    TREASURY_WITHDRAWN_KEY, propBetKey, propTicketKey, PROP_BET_PREFIX,
    PROP_TICKET_PREFIX in E;
  cbn [String.append] in E.



Lemma keeps_deserializeEquipment (g : string -> Value -> Prop) (v : Value) :
  keeps g g (deserializeEquipment v) (fun e => v = VEquipment e).
Proof. destruct v; try apply keeps_abort. by apply keeps_ret. Qed.

Lemma keeps_deserializeCharacter (g : string -> Value -> Prop) (v : Value) :
  keeps g g (deserializeCharacter v) (fun c => v = VCharacter c).
Proof. destruct v; try apply keeps_abort. by apply keeps_ret. Qed.

Lemma keeps_deserializeBattle (g : string -> Value -> Prop) (v : Value) :
  keeps g g (deserializeBattle v) (fun b => v = VBattle b).
Proof. destruct v; try apply keeps_abort. by apply keeps_ret. Qed.

Lemma keeps_deserializeSinglePool (g : string -> Value -> Prop) (v : Value) :
  keeps g g (deserializeSinglePool v) (fun p => v = VSinglePool p).
Proof. destruct v; try apply keeps_abort. by apply keeps_ret. Qed.

Lemma keeps_deserializeSingleBet (g : string -> Value -> Prop) (v : Value) :
  keeps g g (deserializeSingleBet v) (fun b => v = VSingleBet b).
Proof. destruct v; try apply keeps_abort. by apply keeps_ret. Qed.

Lemma keeps_deserializeMultipool (g : string -> Value -> Prop) (v : Value) :
  keeps g g (deserializeMultipool v) (fun m => v = VMultipool m).
Proof. destruct v; try apply keeps_abort. by apply keeps_ret. Qed.

Lemma keeps_deserializeBetslip (g : string -> Value -> Prop) (v : Value) :
  keeps g g (deserializeBetslip v) (fun s => v = VBetslip s).
Proof. destruct v; try apply keeps_abort. by apply keeps_ret. Qed.

Lemma keeps_deserializePropBet (g : string -> Value -> Prop) (v : Value) :
  keeps g g (deserializePropBet v) (fun p => v = VPropBet p).
Proof. destruct v; try apply keeps_abort. by apply keeps_ret. Qed.

Lemma keeps_deserializePropTicket (g : string -> Value -> Prop) (v : Value) :
  keeps g g (deserializePropTicket v) (fun t => v = VPropTicket t).
Proof. destruct v; try apply keeps_abort. by apply keeps_ret. Qed.

Lemma keeps_selection_fromString (g : string -> Value -> Prop) (s : string) :
  keeps g g (selection_fromString s) (fun _ => True).
Proof.
  unfold selection_fromString. repeat case_match; first [by apply keeps_ret | apply keeps_abort].
Qed.

(** The two selection loops only read. *)
Lemma keeps_placeMultibet_legs (g : string -> Value -> Prop) (legs : list (string * Z))
    (odds : Z) (sels : list string) :
  keeps g g (placeMultibet_legs legs odds sels) (fun _ => True).
Proof.
  revert odds sels. induction legs as [|[poolId outcome] rest IH]; intros odds sels; cbn.
  - by apply keeps_ret.
  - eapply keeps_bind; [apply keeps_hasKey|]. intros ? _.
    eapply keeps_bind; [apply keeps_assert|]. intros _ _.
    eapply keeps_bind; [apply keeps_getBytes|]. intros ? _.
    eapply keeps_bind; [apply keeps_deserializeSinglePool|]. intros ? _.
    eapply keeps_bind; [apply keeps_assert|]. intros _ _.
    eapply keeps_bind; [apply keeps_assert|]. intros _ _.
    apply IH.
Qed.

Lemma keeps_checkBetslipWinner_legs (g : string -> Value -> Prop) (sels : list string) :
  keeps g g (checkBetslipWinner_legs sels) (fun _ => True).
Proof.
  induction sels as [|s rest IH]; cbn.
  - by apply keeps_ret.
  - eapply keeps_bind; [apply keeps_selection_fromString|]. intros ? _.
    eapply keeps_bind; [apply keeps_hasKey|]. intros ? _.
    eapply keeps_bind; [apply keeps_assert|]. intros _ _.
    eapply keeps_bind; [apply keeps_getBytes|]. intros ? _.
    eapply keeps_bind; [apply keeps_deserializeSinglePool|]. intros ? _.
    eapply keeps_bind; [apply keeps_assert|]. intros _ _.
    case_match; [by apply keeps_ret | apply IH].
Qed.

Lemma keeps_loadEquipped (g : string -> Value -> Prop) (id : string) :
  keeps g g (loadEquipped id) (fun _ => True).
Proof.
  unfold loadEquipped. case_bool_decide; [by apply keeps_ret|].
  eapply keeps_bind; [apply keeps_hasKey|]. intros has _.
  destruct has; [|by apply keeps_ret].
  eapply keeps_bind; [apply keeps_getBytes|]. intros v _.
  eapply keeps_bind; [apply keeps_deserializeEquipment|]. intros e _. by apply keeps_ret.
Qed.

Lemma keeps_loadBonuses (g : string -> Value -> Prop) (attacker defender : Character.t) :
  keeps g g (loadBonuses attacker defender) (fun _ => True).
Proof.
  unfold loadBonuses.
  do 4 (eapply keeps_bind; [apply keeps_loadEquipped|]; intros ? _).
  by apply keeps_ret.
Qed.

(** One step of a call.  Side conditions on the values written are left
    to the caller when [done] does not settle them. *)
Ltac kprim :=
  first
    [ apply keeps_whenNotPaused | apply keeps_nonReentrant
    | apply keeps_endNonReentrant | apply keeps_onlyRole
    | apply keeps_incrementCounter | apply keeps_getCounter
    | apply keeps_setCounter | apply keeps_setString | apply keeps_setBool
    | apply keeps_setBytes
    | apply keeps_generateEvent | apply keeps_hasKey | apply keeps_getBytes
    | apply keeps_assert | apply keeps_deserializeCharacter | apply keeps_deserializeBattle
    | apply keeps_deserializeEquipment | apply keeps_loadBonuses
    | apply keeps_deserializeSinglePool | apply keeps_deserializeSingleBet
    | apply keeps_deserializeMultipool | apply keeps_deserializeBetslip
    | apply keeps_deserializePropBet | apply keeps_deserializePropTicket
    | apply keeps_placeMultibet_legs | apply keeps_checkBetslipWinner_legs
    | apply keeps_balanceOf | apply keeps_allowance | apply keeps_transfer
    | apply keeps_transferFrom ];
  try done.

Ltac kstep :=
  lazymatch goal with
  | |- keeps _ _ (match ?b with _ => _ end) _ => destruct b eqn:?
  | |- keeps _ _ (bind (match ?b with _ => _ end) _) _ =>
      eapply (keeps_bind _ _ _ _ (fun _ => True)); [destruct b eqn:? | intros _ _]
  | |- keeps _ _ (bind _ _) _ => eapply keeps_bind; [kprim | intros ? ?]
  | |- keeps _ _ (ret _) _ => by apply keeps_ret
  | |- keeps _ _ (abort _) _ => apply keeps_abort
  | |- keeps _ _ _ _ => eapply keeps_weaken; [|kprim]; try done
  end.

(** ** Hit points and energy stay within their bounds *)

Definition character_ok (c : Character.t) : Prop :=
  Character.currentHp c <= Character.maxHp c /\ Character.currentEnergy c <= 100.

Definition characters_ok (_ : string) (v : Value) : Prop :=
  match v with
  | VCharacter c => character_ok c
  | _ => True
  end.

Lemma u8_small (x : Z) : 0 <= x < 256 -> u8 x = x.
Proof. intros H. unfold u8, wrap. apply Z.mod_small. lia. Qed.

Lemma u8_range (x : Z) : 0 <= u8 x < 256.
Proof. unfold u8, wrap. apply Z.mod_pos_bound. lia. Qed.

Lemma getSkillEnergyCost_nonneg (s : Z) : 0 <= getSkillEnergyCost s.
Proof. unfold getSkillEnergyCost. repeat case_match; lia. Qed.

Lemma healed_le (c : Character.t) : healed c <= Character.maxHp c.
Proof. unfold healed. cbv zeta. case_match; [lia|]. apply Z.ltb_ge in H. lia. Qed.

Lemma regenEnergy_ok (c : Character.t) : character_ok c -> character_ok (regenEnergy c).
Proof.
  intros [Hhp He]. unfold regenEnergy, MAX_ENERGY. case_match; [|done].
  split; cbn; [done|]. case_match; [lia|]. apply Z.ltb_ge in H0. lia.
Qed.

Lemma applySkill_ok (isPlayer1 : bool) (skill : Z) (battle : Battle.t) (a : Character.t) :
  character_ok a -> character_ok (sr_attacker (applySkill isPlayer1 skill battle a)).
Proof.
  intros [Hhp He]. unfold applySkill.
  repeat case_match; cbn; first [by split | split; cbn; [apply healed_le | done]].
Qed.

Lemma payEnergy_ok (s : Z) (a : Character.t) :
  character_ok a -> (getSkillEnergyCost s <=? Character.currentEnergy a) = true ->
  character_ok
    (Character.set_currentEnergy (u8 (Character.currentEnergy a - getSkillEnergyCost s)) a).
Proof.
  intros [Hhp He] Hc. apply Z.leb_le in Hc. pose proof (getSkillEnergyCost_nonneg s).
  split; cbn; [done|]. rewrite u8_small; lia.
Qed.

Lemma resolveSkill_ok (isPlayer1 : bool) (slot : Z) (battle : Battle.t) (a : Character.t) :
  character_ok a -> character_ok (sr_attacker (resolveSkill isPlayer1 slot battle a)).
Proof.
  intros Ha. unfold resolveSkill.
  repeat case_match; try exact Ha; cbn; apply applySkill_ok; by apply payEnergy_ok.
Qed.

Lemma applyUpgrade_ok (t : Z) (c c' : Character.t) :
  character_ok c -> applyUpgrade t c = Some c' -> character_ok c'.
Proof.
  intros [Hhp He]. unfold applyUpgrade.
  repeat case_match; intros [= <-]; split; cbn; done || lia.
Qed.

Lemma set_xp_ok (x : Z) (c : Character.t) : character_ok c -> character_ok (Character.set_xp x c).
Proof. intros [? ?]. split; done. Qed.

Lemma levelUp_ok (c : Character.t) : character_ok c -> character_ok (levelUp c).
Proof.
  intros [Hhp He]. unfold levelUp. cbv zeta. case_match; [|done]. split; cbn; [lia | done].
Qed.

Lemma classStats_ok (cls : Z) (owner name : string) (ts hp d1 d2 cr dg : Z) :
  classStats cls = Some (hp, d1, d2, cr, dg) ->
  character_ok (newCharacter owner cls name ts hp d1 d2 cr dg).
Proof. intros _. split; cbn; [lia | unfold MAX_ENERGY; lia]. Qed.


(** ** The market and the prop bets leave the game's records alone *)

(** A binding that is no character and no battle, under a key that is
    neither a character's nor a battle's. *)
Definition off_game (k : string) (v : Value) : Prop :=
  (forall id, k <> characterKey id) /\ (forall id, k <> battleKey id)
  /\ (forall c, v <> VCharacter c) /\ (forall b, v <> VBattle b).

Ltac off_game_side Hg :=
  intros; apply Hg; unfold serializeBetslip; cbv zeta; repeat split;
  let x := fresh in
  let E := fresh in
  intros x E; first [ discriminate E | unfold_keys E; discriminate E ].

Section MarketFrames.

Context (g : string -> Value -> Prop) (Hg : forall k v, off_game k v -> g k v).

Lemma prediction_call_keeps (ctx : Ctx) (c : MarketCall) :
  keeps g g (prediction_call ctx c) (fun _ => True).
Proof.
  destruct c; cbn [prediction_call].
  - unfold prediction_constructor. repeat kstep. all: off_game_side Hg.
  - unfold prediction_createSinglePool. repeat kstep. all: off_game_side Hg.
  - unfold prediction_placeSingleBet. repeat kstep. all: off_game_side Hg.
  - unfold prediction_closeSinglePool. repeat kstep. all: off_game_side Hg.
  - unfold prediction_settleSinglePool, isAuthorizedSettler. repeat kstep.
    all: off_game_side Hg.
  - unfold prediction_claimSingleBet. repeat kstep. all: off_game_side Hg.
  - unfold prediction_setAuthorizedSettler. repeat kstep. all: off_game_side Hg.
  - unfold prediction_setPaused. repeat kstep. all: off_game_side Hg.
  - unfold prediction_createMultipool. repeat kstep. all: off_game_side Hg.
  - unfold prediction_placeMultibet. repeat kstep. all: off_game_side Hg.
  - unfold prediction_checkBetslipWinner. repeat kstep. all: off_game_side Hg.
  - unfold prediction_finalizeMultipool. repeat kstep. all: off_game_side Hg.
  - unfold prediction_claimMultibet. repeat kstep. all: off_game_side Hg.
Qed.

Lemma propbet_call_keeps (ctx : Ctx) (c : PropCall) :
  keeps g g (propbet_call ctx c) (fun _ => True).
Proof.
  destruct c; cbn [propbet_call].
  - unfold propbet_createProp. repeat kstep. all: off_game_side Hg.
  - unfold propbet_placeBet. repeat kstep. all: off_game_side Hg.
  - unfold propbet_resolveProp. repeat kstep. all: off_game_side Hg.
  - unfold propbet_claimProp. repeat kstep. all: off_game_side Hg.
Qed.

End MarketFrames.
Ltac finish_character :=
  cbn beta in *; subst; cbn in *;
  repeat case_bool_decide;
  first
    [ solve [eauto using regenEnergy_ok, resolveSkill_ok, levelUp_ok, set_xp_ok,
               applyUpgrade_ok]
    | solve [unfold character_ok, grantXP_char in *; repeat case_match; cbn in *;
             intuition (eauto using levelUp_ok, set_xp_ok; lia)] ].

Lemma game_call_keeps_characters (ctx : Ctx) (c : GameCall) :
  keeps characters_ok characters_ok (game_call ctx c) (fun _ => True).
Proof.
  destruct c; cbn [game_call].
  - unfold game_constructor. repeat kstep.
  - unfold game_createCharacter. repeat kstep.
  - unfold game_createBattle. repeat kstep.
  - unfold game_executeTurn. repeat kstep; finish_character.
  - unfold game_decideWildcard. repeat kstep.
  - unfold game_finalizeBattle. repeat kstep; finish_character.
  - unfold game_setPaused. repeat kstep.
  - unfold game_grantSettler. repeat kstep.
  - unfold game_upgradeCharacter. repeat kstep; finish_character.
  - unfold game_grantXP. repeat kstep; finish_character.
  - unfold game_healCharacter. repeat kstep; finish_character.
  - unfold game_createEquipment. repeat kstep.
  - unfold game_equipItem. repeat kstep; finish_character.
  - unfold game_transferEquipment. repeat kstep.
  - unfold game_learnSkill. repeat kstep; finish_character.
  - unfold game_equipSkill. repeat kstep; finish_character.
  - unfold game_addToTreasury. repeat kstep.
  - unfold game_withdrawTreasury. repeat kstep.
Qed.

Lemma characters_off_game (k : string) (v : Value) : off_game k v -> characters_ok k v.
Proof. intros (_ & _ & Hc & _). destruct v; try done. by destruct (Hc c). Qed.

Lemma call_keeps_characters (ctx : Ctx) (c : Call) :
  keeps characters_ok characters_ok (call ctx c) (fun _ => True).
Proof.
  destruct c; cbn [call].
  - apply game_call_keeps_characters.
  - apply prediction_call_keeps, characters_off_game.
  - apply propbet_call_keeps, characters_off_game.
Qed.

(** C6.  After every operation (character creation, a battle turn with its
    skill and energy phases, upgrade, XP grant, heal, finalize and all the
    others, the market's included), whoever the callers are, every stored
    character has [currentHp <= maxHp] and [currentEnergy <= 100]. *)
Theorem character_bounds (who : string -> Prop) (n : nat) (w : World) (id : string)
    (c : Character.t) :
  reach who n w ->
  storage w !! characterKey id = Some (VCharacter c) ->
  Character.currentHp c <= Character.maxHp c /\ Character.currentEnergy c <= 100.
Proof.
  intros Hreach. revert id c.
  cut (stores characters_ok w).
  { intros Hw id c E. exact (Hw _ _ E). }
  induction Hreach as [w E | n w ctx c0 _ _ IH | n w bal alw _ IH].
  - intros k v. rewrite E, lookup_empty. discriminate.
  - eapply keeps_exec; [|apply call_keeps_characters|exact IH]. auto.
  - exact IH.
Qed.

Definition empty_world : World := mkWorld ∅ ∅ ∅ [].

Lemma reach_run (who : string -> Prop) (calls : list (Ctx * Call)) (n m : nat) (w : World) :
  Forall (fun x => who (caller (fst x))) calls -> reach who n w ->
  m = (length calls + n)%nat -> reach who m (run calls w).
Proof.
  intros Hwho. revert n m w.
  induction Hwho as [|[ctx c] rest Hc _ IH]; intros n m w Hw ->; [done|].
  cbn [run fold_left length]. apply (IH (S n)); [by apply step | lia].
Qed.

Definition battle_world : World :=
  run [ (mkCtx "alice" "game" 10 false, Game (CreateCharacter "knight" 0 "Knight"));
        (mkCtx "bob" "game" 11 false, Game (CreateCharacter "rogue" 1 "Rogue"));
        (mkCtx "alice" "game" 12 false, Game (CreateBattle "duel" "knight" "rogue" 20));
        (mkCtx "alice" "game" 30 false, Game (ExecuteTurn "duel" "knight" 0 false 0)) ]
    empty_world.

Lemma battle_world_reach : reach anyone 4 battle_world.
Proof.
  unfold battle_world.
  by eapply (reach_run anyone _ 0); [repeat constructor | apply genesis | reflexivity].
Qed.

Lemma character_bounds_witness :
  exists c, storage battle_world !! characterKey "rogue" = Some (VCharacter c)
            /\ Character.currentHp c <= Character.maxHp c
            /\ Character.currentEnergy c <= 100.
Proof.
  eexists. split; [vm_compute; reflexivity|].
  apply (character_bounds anyone 4 battle_world "rogue" _ battle_world_reach).
  vm_compute. reflexivity.
Defined.
(** ** Finished battles *)

(** What decides whether a battle is over: the flag, the winner and the
    hit points of both sides. *)
Definition vitals (b : Battle.t) : bool * Z * Z * Z :=
  (Battle.isFinished b, Battle.winner b, Battle.player1Hp b, Battle.player2Hp b).

(** Hit points stay below this bound for [n] calls: characters start with at
    most 150, gain at most 10 per call, and the wildcard caps at a million. *)
Definition hpBound (n : nat) : Z := 1000000 + 10 * Z.of_nat n.

Definition vitals_ok (n : nat) (v : bool * Z * Z * Z) : Prop :=
  let '(finished, winner, hp1, hp2) := v in
  (finished = true -> winner = 1 \/ winner = 2)
  /\ (finished = false -> winner = 0 /\ 0 < hp1 /\ 0 < hp2)
  /\ 0 <= hp1 <= hpBound n /\ 0 <= hp2 <= hpBound n.

Definition battle_ok (n : nat) (b : Battle.t) : Prop := vitals_ok n (vitals b).

Definition fighter_ok (n : nat) (c : Character.t) : Prop :=
  0 < Character.currentHp c /\ Character.currentHp c <= Character.maxHp c
  /\ Character.maxHp c <= hpBound n.

Definition arena_ok (n : nat) (_ : string) (v : Value) : Prop :=
  match v with
  | VBattle b => battle_ok n b
  | VCharacter c => fighter_ok n c
  | _ => True
  end.

(** The calls that are counted. *)
Definition few (n : nat) : Prop := Z.of_nat n < 2 ^ 40.

Lemma hpBound_small (n : nat) : few n -> 1000000 <= hpBound n < 2 ^ 44.
Proof. unfold few, hpBound. lia. Qed.

Lemma hpBound_S (n : nat) : hpBound (S n) = hpBound n + 10.
Proof. unfold hpBound. lia. Qed.

Lemma u64_small (x : Z) : 0 <= x < 2 ^ 64 -> u64 x = x.
Proof. intros H. unfold u64, wrap. by apply Z.mod_small. Qed.

Lemma u64_range (x : Z) : 0 <= u64 x < 2 ^ 64.
Proof. unfold u64, wrap. apply Z.mod_pos_bound. lia. Qed.

Lemma u16_range (x : Z) : 0 <= u16 x < 2 ^ 16.
Proof. unfold u16, wrap. apply Z.mod_pos_bound. lia. Qed.

Lemma battle_ok_S (n : nat) (b : Battle.t) : battle_ok n b -> battle_ok (S n) b.
Proof.
  unfold battle_ok, vitals_ok. destruct (vitals b) as [[[f wn] h1] h2].
  rewrite hpBound_S. intuition lia.
Qed.

Lemma fighter_ok_S (n : nat) (c : Character.t) : fighter_ok n c -> fighter_ok (S n) c.
Proof. unfold fighter_ok. rewrite hpBound_S. intuition lia. Qed.

Lemma arena_ok_S (n : nat) (k : string) (v : Value) : arena_ok n k v -> arena_ok (S n) k v.
Proof. destruct v; cbn [arena_ok]; auto using battle_ok_S, fighter_ok_S. Qed.

(** The phases that leave the vitals alone. *)
Lemma triggerWildcard_vitals (ctx : Ctx) (b : Battle.t) :
  vitals (triggerWildcard ctx b) = vitals b.
Proof. reflexivity. Qed.

Lemma addStatus_vitals (p : bool) (s d : Z) (b : Battle.t) :
  vitals (addStatus p s d b) = vitals b.
Proof. destruct p; reflexivity. Qed.

Lemma setCooldown_vitals (p : bool) (slot cd : Z) (b : Battle.t) :
  vitals (setCooldown p slot cd b) = vitals b.
Proof. unfold setCooldown. repeat case_match; reflexivity. Qed.

Lemma tickStatus1_vitals (b : Battle.t) : vitals (tickStatus1 b) = vitals b.
Proof. unfold tickStatus1. repeat case_match; reflexivity. Qed.

Lemma tickStatus2_vitals (b : Battle.t) : vitals (tickStatus2 b) = vitals b.
Proof. unfold tickStatus2. repeat case_match; reflexivity. Qed.

Lemma advanceTurn_vitals (b : Battle.t) : vitals (advanceTurn b) = vitals b.
Proof. reflexivity. Qed.

Lemma tickCooldowns_vitals (b : Battle.t) : vitals (tickCooldowns b) = vitals b.
Proof. reflexivity. Qed.

Lemma stunnedTurn_vitals (p : bool) (b : Battle.t) : vitals (stunnedTurn p b) = vitals b.
Proof.
  unfold stunnedTurn. rewrite advanceTurn_vitals.
  destruct p; [apply tickStatus1_vitals | apply tickStatus2_vitals].
Qed.

(** The heal skill. *)
Lemma healed_pos (n : nat) (c : Character.t) :
  few n -> fighter_ok n c -> 0 < healed c <= Character.maxHp c.
Proof.
  intros Hn (Hpos & Hle & Hmax). pose proof (hpBound_small n Hn).
  unfold healed. cbv zeta.
  rewrite (u64_small (Character.maxHp c * 30)) by lia.
  assert (0 <= Character.maxHp c * 30 / 100 <= Character.maxHp c).
  { split; [apply Z.div_pos; lia|]. apply Z.div_le_upper_bound; lia. }
  rewrite u64_small by lia.
  case_match; [lia|]. apply Z.ltb_ge in H1. lia.
Qed.

Lemma applySkill_arena (n : nat) (p : bool) (skill : Z) (b : Battle.t) (a : Character.t) :
  few n -> battle_ok n b -> fighter_ok n a ->
  battle_ok n (sr_battle (applySkill p skill b a))
  /\ fighter_ok n (sr_attacker (applySkill p skill b a))
  /\ Battle.isFinished (sr_battle (applySkill p skill b a)) = Battle.isFinished b
  /\ Battle.winner (sr_battle (applySkill p skill b a)) = Battle.winner b.
Proof.
  intros Hn Hb Ha. pose proof (healed_pos n a Hn Ha) as Hh.
  pose proof (hpBound_small n Hn).
  unfold applySkill, addStatus, battle_ok, vitals, vitals_ok, fighter_ok in *.
  destruct p; repeat case_match; cbn in *; intuition lia.
Qed.

Lemma payEnergy_fighter (n : nat) (e : Z) (a : Character.t) :
  fighter_ok n a -> fighter_ok n (Character.set_currentEnergy e a).
Proof. done. Qed.

Lemma resolveSkill_arena (n : nat) (p : bool) (slot : Z) (b : Battle.t) (a : Character.t) :
  few n -> battle_ok n b -> fighter_ok n a ->
  battle_ok n (sr_battle (resolveSkill p slot b a))
  /\ fighter_ok n (sr_attacker (resolveSkill p slot b a))
  /\ Battle.isFinished (sr_battle (resolveSkill p slot b a)) = Battle.isFinished b
  /\ Battle.winner (sr_battle (resolveSkill p slot b a)) = Battle.winner b.
Proof.
  intros Hn Hb Ha. unfold resolveSkill.
  repeat case_match; try done; cbn [sr_battle sr_attacker];
    match goal with
    | |- context [applySkill ?p ?s ?b ?a'] =>
        destruct (applySkill_arena n p s b a' Hn Hb) as (? & ? & ? & ?);
          [by apply payEnergy_fighter|]
    end;
    unfold setCooldown, battle_ok, vitals in *;
    repeat case_match; cbn in *; done.
Qed.

Lemma regenEnergy_fighter (n : nat) (c : Character.t) :
  fighter_ok n c -> fighter_ok n (regenEnergy c).
Proof. unfold regenEnergy. case_match; done. Qed.

Lemma stunnedTurn_ok (n : nat) (p : bool) (b : Battle.t) :
  battle_ok n b -> battle_ok n (stunnedTurn p b).
Proof. unfold battle_ok. by rewrite stunnedTurn_vitals. Qed.

Lemma triggerWildcard_ok (n : nat) (ctx : Ctx) (b : Battle.t) :
  battle_ok n b -> battle_ok n (triggerWildcard ctx b).
Proof. done. Qed.

(** The damage phases only lower hit points. *)
Definition weakened (b b' : Battle.t) : Prop :=
  Battle.isFinished b' = Battle.isFinished b /\ Battle.winner b' = Battle.winner b
  /\ 0 <= Battle.player1Hp b' <= Battle.player1Hp b
  /\ 0 <= Battle.player2Hp b' <= Battle.player2Hp b.

Lemma mitigate_nonneg (dodged : bool) (defense damage : Z) : 0 <= mitigate dodged defense damage.
Proof. unfold mitigate. repeat case_match; try lia. apply u64_range. Qed.

Lemma shielded_nonneg (status damage : Z) : 0 <= damage -> 0 <= shielded status damage.
Proof. intros H. unfold shielded. case_match; [apply u64_range | done]. Qed.

Lemma computeDamage_nonneg (ctx : Ctx) (p : bool) (b : Battle.t) (a d : Character.t)
    (bon : Bonuses) (sk : SkillResult) :
  0 <= fst (computeDamage ctx p b a d bon sk).
Proof. unfold computeDamage. cbn. apply shielded_nonneg, mitigate_nonneg. Qed.

Lemma hit_range (hp damage : Z) : 0 <= hp < 2 ^ 64 -> 0 <= damage -> 0 <= hit hp damage <= hp.
Proof.
  intros Hhp Hd. unfold hit. case_match; [|lia]. apply Z.ltb_lt in H.
  rewrite u64_small; lia.
Qed.

Lemma weakened_trans (a b c : Battle.t) : weakened a b -> weakened b c -> weakened a c.
Proof. unfold weakened. intuition (congruence || lia). Qed.

Lemma weakened_vitals (a b b' : Battle.t) :
  vitals b' = vitals b -> weakened a b -> weakened a b'.
Proof.
  unfold vitals, weakened. intros [= E1 E2 E3 E4]. rewrite E1, E2, E3, E4. done.
Qed.

Lemma applyDamage_weakened (p : bool) (damage : Z) (dodged : bool) (b : Battle.t) :
  0 <= damage -> 0 <= Battle.player1Hp b < 2 ^ 64 -> 0 <= Battle.player2Hp b < 2 ^ 64 ->
  weakened b (applyDamage p damage dodged b).
Proof.
  intros Hd H1 H2. pose proof (hit_range _ _ H1 Hd). pose proof (hit_range _ _ H2 Hd).
  unfold applyDamage, weakened. destruct p; case_match; cbn; intuition lia.
Qed.

Lemma applyDots_weakened (c1 c2 : Character.t) (b : Battle.t) :
  0 <= Character.maxHp c1 -> 0 <= Character.maxHp c2 ->
  0 <= Battle.player1Hp b < 2 ^ 64 -> 0 <= Battle.player2Hp b < 2 ^ 64 ->
  weakened b (applyDots c1 c2 b).
Proof.
  intros Hm1 Hm2 H1 H2.
  assert (Hp1 : 0 <= Character.maxHp c1 / 20) by (apply Z.div_pos; lia).
  assert (Hp2 : 0 <= Character.maxHp c2 / 20) by (apply Z.div_pos; lia).
  assert (Hb1 : 0 <= u64 (Character.maxHp c1 * 8) / 100).
  { apply Z.div_pos; [apply u64_range | lia]. }
  assert (Hb2 : 0 <= u64 (Character.maxHp c2 * 8) / 100).
  { apply Z.div_pos; [apply u64_range | lia]. }
  pose proof (hit_range _ _ H1 Hp1) as A1.
  pose proof (hit_range _ _ H2 Hp2) as A2.
  pose proof (hit_range _ _ H1 Hb1) as B1.
  pose proof (hit_range _ _ H2 Hb2) as B2.
  assert (C1 : 0 <= hit (hit (Battle.player1Hp b) (Character.maxHp c1 / 20))
                      (u64 (Character.maxHp c1 * 8) / 100)
               <= hit (Battle.player1Hp b) (Character.maxHp c1 / 20)).
  { apply hit_range; lia. }
  assert (C2 : 0 <= hit (hit (Battle.player2Hp b) (Character.maxHp c2 / 20))
                      (u64 (Character.maxHp c2 * 8) / 100)
               <= hit (Battle.player2Hp b) (Character.maxHp c2 / 20)).
  { apply hit_range; lia. }
  unfold applyDots, weakened. cbv zeta. repeat case_match; cbn; intuition lia.
Qed.

Lemma checkFinish_ok (n : nat) (b : Battle.t) :
  Battle.isFinished b = false -> Battle.winner b = 0 ->
  0 <= Battle.player1Hp b <= hpBound n -> 0 <= Battle.player2Hp b <= hpBound n ->
  battle_ok n (checkFinish b).
Proof.
  intros Hf Hw H1 H2. unfold checkFinish, battle_ok, vitals, vitals_ok.
  destruct (Z.eqb_spec (Battle.player1Hp b) 0), (Z.eqb_spec (Battle.player2Hp b) 0);
    cbn; rewrite ?Hf, ?Hw; repeat case_match; intuition (try lia; try discriminate).
Qed.

Lemma checkFinish_finished (b : Battle.t) :
  Battle.isFinished b = false -> Battle.isFinished (checkFinish b) = true ->
  Battle.player1Hp (checkFinish b) = 0 \/ Battle.player2Hp (checkFinish b) = 0.
Proof.
  intros Hf. unfold checkFinish.
  destruct (Z.eqb_spec (Battle.player1Hp b) 0), (Z.eqb_spec (Battle.player2Hp b) 0);
    cbn; auto. congruence.
Qed.

(** The battle just before the finish check of a played turn. *)
Definition beforeCheck (ctx : Ctx) (p : bool) (b : Battle.t) (c1 c2 : Character.t)
    (bon : Bonuses) (sk : SkillResult) : Battle.t :=
  let attacker := if p then c1 else c2 in
  let defender := if p then c2 else c1 in
  let dd := computeDamage ctx p b attacker defender bon sk in
  tickCooldowns (advanceTurn (tickStatus2 (tickStatus1
    (applyDots c1 c2 (applyDamage p (fst dd) (snd dd) b))))).

Lemma playTurn_unfold (ctx : Ctx) (p : bool) (b : Battle.t) (c1 c2 : Character.t)
    (bon : Bonuses) (sk : SkillResult) :
  playTurn ctx p b c1 c2 bon sk = checkFinish (beforeCheck ctx p b c1 c2 bon sk).
Proof. unfold playTurn, beforeCheck. cbv zeta. by destruct (computeDamage _ _ _ _ _ _ _). Qed.

Lemma beforeCheck_weakened (ctx : Ctx) (p : bool) (b : Battle.t) (c1 c2 : Character.t)
    (bon : Bonuses) (sk : SkillResult) :
  0 <= Character.maxHp c1 -> 0 <= Character.maxHp c2 ->
  0 <= Battle.player1Hp b < 2 ^ 64 -> 0 <= Battle.player2Hp b < 2 ^ 64 ->
  weakened b (beforeCheck ctx p b c1 c2 bon sk).
Proof.
  intros Hm1 Hm2 H1 H2. unfold beforeCheck. cbv zeta.
  set (dd := computeDamage _ _ _ _ _ _ _).
  assert (Hd : 0 <= fst dd) by apply computeDamage_nonneg.
  pose proof (applyDamage_weakened p (fst dd) (snd dd) b Hd H1 H2) as W1.
  set (b1 := applyDamage _ _ _ _) in *.
  assert (W2 : weakened b1 (applyDots c1 c2 b1)).
  { destruct W1 as (_ & _ & ? & ?). apply applyDots_weakened; lia. }
  pose proof (weakened_trans _ _ _ W1 W2) as W.
  set (b2 := applyDots _ _ _) in *.
  assert (E : vitals (tickCooldowns (advanceTurn (tickStatus2 (tickStatus1 b2))))
              = vitals b2).
  { by rewrite tickCooldowns_vitals, advanceTurn_vitals, tickStatus2_vitals,
      tickStatus1_vitals. }
  exact (weakened_vitals _ _ _ E W).
Qed.

Lemma playTurn_ok (n : nat) (ctx : Ctx) (p : bool) (b : Battle.t) (c1 c2 : Character.t)
    (bon : Bonuses) (sk : SkillResult) :
  few n -> battle_ok n b -> Battle.isFinished b = false ->
  fighter_ok n c1 -> fighter_ok n c2 ->
  battle_ok n (playTurn ctx p b c1 c2 bon sk).
Proof.
  intros Hn Hb Hf (? & ? & ?) (? & ? & ?). pose proof (hpBound_small n Hn).
  unfold battle_ok, vitals, vitals_ok in Hb. destruct Hb as (_ & Hu & Hp1 & Hp2).
  destruct (Hu Hf) as (Hw & _ & _).
  rewrite playTurn_unfold.
  destruct (beforeCheck_weakened ctx p b c1 c2 bon sk) as (E1 & E2 & B1 & B2); try lia.
  apply checkFinish_ok; [congruence | congruence | lia | lia].
Qed.

Lemma playTurn_finished (ctx : Ctx) (p : bool) (b : Battle.t) (c1 c2 : Character.t)
    (bon : Bonuses) (sk : SkillResult) :
  Battle.isFinished b = false ->
  Battle.isFinished (playTurn ctx p b c1 c2 bon sk) = true ->
  Battle.player1Hp (playTurn ctx p b c1 c2 bon sk) = 0
  \/ Battle.player2Hp (playTurn ctx p b c1 c2 bon sk) = 0.
Proof.
  intros Hf. rewrite playTurn_unfold. apply checkFinish_finished.
  unfold beforeCheck. cbv zeta.
  set (dd := computeDamage _ _ _ _ _ _ _).
  assert (E : vitals (tickCooldowns (advanceTurn (tickStatus2 (tickStatus1
                (applyDots c1 c2 (applyDamage p (fst dd) (snd dd) b))))))
              = vitals (applyDots c1 c2 (applyDamage p (fst dd) (snd dd) b))).
  { by rewrite tickCooldowns_vitals, advanceTurn_vitals, tickStatus2_vitals,
      tickStatus1_vitals. }
  assert (F : Battle.isFinished (applyDots c1 c2 (applyDamage p (fst dd) (snd dd) b))
              = false).
  { unfold applyDots, applyDamage. cbv zeta. destruct p; repeat case_match; cbn; exact Hf. }
  revert E F.
  generalize (tickCooldowns (advanceTurn (tickStatus2 (tickStatus1
                (applyDots c1 c2 (applyDamage p (fst dd) (snd dd) b)))))).
  generalize (applyDots c1 c2 (applyDamage p (fst dd) (snd dd) b)).
  unfold vitals. intros y x [= E1 _ _ _] F. congruence.
Qed.

Lemma u32_succ_neq (t : Z) : u32 (t + 1) <> t.
Proof.
  unfold u32, wrap. intros E.
  assert (0 <= t < 2 ^ 32) by (rewrite <- E; apply Z.mod_pos_bound; lia).
  destruct (Z.eq_dec t (2 ^ 32 - 1)) as [->|]; [vm_compute in E; discriminate|].
  rewrite Z.mod_small in E; lia.
Qed.

Lemma checkFinish_turnNumber (b : Battle.t) :
  Battle.turnNumber (checkFinish b) = Battle.turnNumber b.
Proof. unfold checkFinish. case_match; reflexivity. Qed.

Lemma tickStatus1_turnNumber (b : Battle.t) :
  Battle.turnNumber (tickStatus1 b) = Battle.turnNumber b.
Proof. unfold tickStatus1. repeat case_match; reflexivity. Qed.

Lemma tickStatus2_turnNumber (b : Battle.t) :
  Battle.turnNumber (tickStatus2 b) = Battle.turnNumber b.
Proof. unfold tickStatus2. repeat case_match; reflexivity. Qed.

Lemma applyDots_turnNumber (c1 c2 : Character.t) (b : Battle.t) :
  Battle.turnNumber (applyDots c1 c2 b) = Battle.turnNumber b.
Proof. unfold applyDots. cbv zeta. repeat case_match; reflexivity. Qed.

Lemma applyDamage_turnNumber (p : bool) (damage : Z) (dodged : bool) (b : Battle.t) :
  Battle.turnNumber (applyDamage p damage dodged b) = Battle.turnNumber b.
Proof. unfold applyDamage. destruct p; case_match; reflexivity. Qed.

Lemma playTurn_turnNumber (ctx : Ctx) (p : bool) (b : Battle.t) (c1 c2 : Character.t)
    (bon : Bonuses) (sk : SkillResult) :
  Battle.turnNumber (playTurn ctx p b c1 c2 bon sk) = u32 (Battle.turnNumber b + 1).
Proof.
  rewrite playTurn_unfold, checkFinish_turnNumber. unfold beforeCheck. cbv zeta.
  change (Battle.turnNumber (tickCooldowns (advanceTurn ?x)))
    with (u32 (Battle.turnNumber x + 1)).
  by rewrite tickStatus2_turnNumber, tickStatus1_turnNumber, applyDots_turnNumber,
    applyDamage_turnNumber.
Qed.

Lemma addStatus_turnNumber (p : bool) (s d : Z) (b : Battle.t) :
  Battle.turnNumber (addStatus p s d b) = Battle.turnNumber b.
Proof. destruct p; reflexivity. Qed.

Lemma setCooldown_turnNumber (p : bool) (slot cd : Z) (b : Battle.t) :
  Battle.turnNumber (setCooldown p slot cd b) = Battle.turnNumber b.
Proof. unfold setCooldown. repeat case_match; reflexivity. Qed.

Lemma applySkill_turnNumber (p : bool) (skill : Z) (b : Battle.t) (a : Character.t) :
  Battle.turnNumber (sr_battle (applySkill p skill b a)) = Battle.turnNumber b.
Proof.
  unfold applySkill.
  repeat case_match; cbn [sr_battle]; rewrite ?addStatus_turnNumber; reflexivity.
Qed.

Lemma resolveSkill_turnNumber (p : bool) (slot : Z) (b : Battle.t) (a : Character.t) :
  Battle.turnNumber (sr_battle (resolveSkill p slot b a)) = Battle.turnNumber b.
Proof.
  unfold resolveSkill.
  repeat case_match; try reflexivity; cbn [sr_battle];
    by rewrite setCooldown_turnNumber, applySkill_turnNumber.
Qed.

Lemma wildcardBoost_range (hp : Z) : 0 <= hp < 2 ^ 63 -> 0 < wildcardBoost hp <= 1000000.
Proof.
  intros H. unfold wildcardBoost. cbv zeta. rewrite u64_small by lia.
  case_match; [apply Z.ltb_lt in H0|]; lia.
Qed.

Lemma resolveWildcard_ok (n : nat) (b : Battle.t) :
  few n -> battle_ok n b -> battle_ok n (resolveWildcard b).
Proof.
  intros Hn Hb. pose proof (hpBound_small n Hn).
  unfold battle_ok, vitals, vitals_ok in *.
  assert (0 < wildcardBoost (Battle.player1Hp b) <= 1000000)
    by (apply wildcardBoost_range; lia).
  assert (0 < wildcardBoost (Battle.player2Hp b) <= 1000000)
    by (apply wildcardBoost_range; lia).
  unfold resolveWildcard. cbv zeta. repeat case_match; cbn; intuition lia.
Qed.

Lemma decision_ok (n : nat) (p accept : bool) (b : Battle.t) :
  few n -> battle_ok n b ->
  battle_ok n (resolveWildcard
                 (if p then Battle.set_wildcardPlayer1Decision (if accept then 1 else 0) b
                  else Battle.set_wildcardPlayer2Decision (if accept then 1 else 0) b)).
Proof. intros Hn Hb. apply resolveWildcard_ok; [done|]. by destruct p. Qed.

Lemma newBattle_ok (n : nat) (id1 id2 : string) (c1 c2 : Character.t) (startTs ts : Z) :
  fighter_ok n c1 -> fighter_ok n c2 ->
  battle_ok n
    (Battle.mk id1 id2 (Character.owner c1) (Character.owner c2) startTs ts 0 1 false 0
       (Character.maxHp c1) (Character.maxHp c2) false 0 0 (-1) (-1) STATUS_NONE STATUS_NONE
       0 0 0 0 0 0 0 0 0 0).
Proof.
  intros (? & ? & ?) (? & ? & ?). unfold battle_ok, vitals, vitals_ok. cbn.
  intuition (lia || discriminate).
Qed.

Lemma restored_ok (n : nat) (c : Character.t) :
  fighter_ok n c -> fighter_ok n (Character.set_currentHp (Character.maxHp c) c).
Proof. intros (? & ? & ?). unfold fighter_ok. cbn. lia. Qed.

Lemma applyUpgrade_fighter (n : nat) (t x : Z) (c c' : Character.t) :
  few n -> fighter_ok n c -> applyUpgrade t (Character.set_xp x c) = Some c' ->
  fighter_ok (S n) c'.
Proof.
  intros Hn (? & ? & ?). pose proof (hpBound_small n Hn). unfold applyUpgrade, fighter_ok.
  rewrite hpBound_S.
  repeat case_match; intros [= <-]; cbn; rewrite ?u64_small; lia.
Qed.

Lemma grantXP_char_fighter (n : nat) (x : Z) (c : Character.t) :
  few n -> fighter_ok n c -> fighter_ok (S n) (grantXP_char x c).
Proof.
  intros Hn (? & ? & ?). pose proof (hpBound_small n Hn).
  unfold grantXP_char, levelUp, fighter_ok. rewrite hpBound_S. cbv zeta.
  case_match; cbn; rewrite ?u64_small; lia.
Qed.

Lemma newCharacter_fighter (n : nat) (cls : Z) (owner name : string) (ts hp d1 d2 cr dg : Z) :
  classStats cls = Some (hp, d1, d2, cr, dg) ->
  fighter_ok n (newCharacter owner cls name ts hp d1 d2 cr dg).
Proof.
  unfold classStats, fighter_ok, hpBound.
  repeat case_match; intros [= <- <- <- <- <-]; cbn; lia.
Qed.

Ltac use_skill n :=
  match goal with
  | Hn : few n, Hb : battle_ok n ?b, Ha : fighter_ok n ?a
    |- context [resolveSkill ?p ?s ?b ?a] =>
      destruct (resolveSkill_arena n p s b a Hn Hb Ha) as (? & ? & ? & ?)
  end.

Ltac finish_arena n :=
  cbn beta in *; subst; cbn [arena_ok] in *;
  repeat case_bool_decide;
  repeat match goal with
         | H : negb _ = true |- _ => apply negb_true_iff in H
         end;
  try use_skill n;
  first
    [ solve [eauto using regenEnergy_fighter, stunnedTurn_ok, triggerWildcard_ok,
               decision_ok, newBattle_ok, restored_ok, newCharacter_fighter]
    | solve [apply playTurn_ok; eauto using regenEnergy_fighter; congruence]
    | solve [apply restored_ok; case_match; assumption]
    | solve [apply resolveWildcard_ok; [assumption|]; repeat case_match; assumption]
    | solve [repeat case_match; assumption] ].

Lemma game_call_keeps_arena (n : nat) (ctx : Ctx) (c : GameCall) :
  few n -> keeps (arena_ok n) (arena_ok (S n)) (game_call ctx c) (fun _ => True).
Proof.
  intros Hn.
  destruct c; cbn [game_call].
  - apply (keeps_post _ _ _ _ (arena_ok_S n)). unfold game_constructor. repeat kstep.
  - apply (keeps_post _ _ _ _ (arena_ok_S n)). unfold game_createCharacter. repeat kstep; finish_arena n.
  - apply (keeps_post _ _ _ _ (arena_ok_S n)). unfold game_createBattle. repeat kstep; finish_arena n.
  - apply (keeps_post _ _ _ _ (arena_ok_S n)). unfold game_executeTurn. repeat kstep; finish_arena n.
  - apply (keeps_post _ _ _ _ (arena_ok_S n)). unfold game_decideWildcard. repeat kstep; finish_arena n.
  - apply (keeps_post _ _ _ _ (arena_ok_S n)). unfold game_finalizeBattle. repeat kstep; finish_arena n.
  - apply (keeps_post _ _ _ _ (arena_ok_S n)). unfold game_setPaused. repeat kstep.
  - apply (keeps_post _ _ _ _ (arena_ok_S n)). unfold game_grantSettler. repeat kstep.
  - unfold game_upgradeCharacter. do 8 kstep. cbn beta in *. subst. cbn [arena_ok] in *.
    destruct (applyUpgrade _ _) as [char'|] eqn:E; [|apply keeps_abort].
    eapply keeps_bind.
    { apply (keeps_setBytes_to (arena_ok (S n))); [apply arena_ok_S|].
      cbn [arena_ok]. by eapply applyUpgrade_fighter. }
    intros _ _. repeat kstep.
  - unfold game_grantXP. do 5 kstep. cbn beta in *. subst. cbn [arena_ok] in *.
    eapply (keeps_bind (arena_ok n) _ _ _ (fun _ => True)).
    { case_match; repeat kstep. }
    intros _ _.
    eapply keeps_bind.
    { apply (keeps_setBytes_to (arena_ok (S n))); [apply arena_ok_S|].
      cbn [arena_ok]. by apply grantXP_char_fighter. }
    intros _ _. repeat kstep.
  - apply (keeps_post _ _ _ _ (arena_ok_S n)). unfold game_healCharacter. repeat kstep; finish_arena n.
  - apply (keeps_post _ _ _ _ (arena_ok_S n)). unfold game_createEquipment. repeat kstep.
  - apply (keeps_post _ _ _ _ (arena_ok_S n)). unfold game_equipItem. repeat kstep; finish_arena n.
  - apply (keeps_post _ _ _ _ (arena_ok_S n)). unfold game_transferEquipment. repeat kstep.
  - apply (keeps_post _ _ _ _ (arena_ok_S n)). unfold game_learnSkill. repeat kstep; finish_arena n.
  - apply (keeps_post _ _ _ _ (arena_ok_S n)). unfold game_equipSkill. repeat kstep; finish_arena n.
  - apply (keeps_post _ _ _ _ (arena_ok_S n)). unfold game_addToTreasury. repeat kstep.
  - apply (keeps_post _ _ _ _ (arena_ok_S n)). unfold game_withdrawTreasury. repeat kstep.
Qed.
(** *** When a battle becomes finished *)

(** Relative to the storage [w0] at the start of a call: the keys of
    battles hold what they held. *)
Definition unchanged (w0 : World) (k : string) (v : Value) : Prop :=
  (forall id, k <> battleKey id) \/ storage w0 !! k = Some v.

(** How an unfinished battle can become finished. *)
Definition finishes (b b' : Battle.t) : Prop :=
  Battle.isFinished b = false -> Battle.isFinished b' = true ->
  (Battle.player1Hp b' = 0 \/ Battle.player2Hp b' = 0)
  /\ Battle.turnNumber b' <> Battle.turnNumber b.

(** At the end of a call: a battle key holds what it held, or the battle
    was rewritten in a way that respects [finishes], or it is a battle that
    is not finished. *)
Definition finish_rel (w0 : World) (k : string) (v : Value) : Prop :=
  unchanged w0 k v
  \/ (exists b b', storage w0 !! k = Some (VBattle b) /\ v = VBattle b' /\ finishes b b')
  \/ (exists b', v = VBattle b' /\ Battle.isFinished b' = false).

Lemma unchanged_battleKey (w0 : World) (id : string) (v : Value) :
  unchanged w0 (battleKey id) v -> storage w0 !! battleKey id = Some v.
Proof. intros [H|H]; [by destruct (H id) | done]. Qed.

Lemma resolveWildcard_isFinished (b : Battle.t) :
  Battle.isFinished (resolveWildcard b) = Battle.isFinished b.
Proof. unfold resolveWildcard. cbv zeta. repeat case_match; reflexivity. Qed.

Lemma stunnedTurn_isFinished (p : bool) (b : Battle.t) :
  Battle.isFinished (stunnedTurn p b) = Battle.isFinished b.
Proof.
  pose proof (stunnedTurn_vitals p b) as E. unfold vitals in E.
  revert E. generalize (stunnedTurn p b). intros x [= E _ _ _]. done.
Qed.

Lemma addStatus_isFinished (p : bool) (s d : Z) (b : Battle.t) :
  Battle.isFinished (addStatus p s d b) = Battle.isFinished b.
Proof. destruct p; reflexivity. Qed.

Lemma setCooldown_isFinished (p : bool) (slot cd : Z) (b : Battle.t) :
  Battle.isFinished (setCooldown p slot cd b) = Battle.isFinished b.
Proof. unfold setCooldown. repeat case_match; reflexivity. Qed.

Lemma applySkill_isFinished (p : bool) (skill : Z) (b : Battle.t) (a : Character.t) :
  Battle.isFinished (sr_battle (applySkill p skill b a)) = Battle.isFinished b.
Proof.
  unfold applySkill.
  repeat case_match; cbn [sr_battle]; rewrite ?addStatus_isFinished; reflexivity.
Qed.

Lemma resolveSkill_isFinished (p : bool) (slot : Z) (b : Battle.t) (a : Character.t) :
  Battle.isFinished (sr_battle (resolveSkill p slot b a)) = Battle.isFinished b.
Proof.
  unfold resolveSkill.
  repeat case_match; try reflexivity; cbn [sr_battle];
    by rewrite setCooldown_isFinished, applySkill_isFinished.
Qed.

Lemma triggerWildcard_isFinished (ctx : Ctx) (b : Battle.t) :
  Battle.isFinished (triggerWildcard ctx b) = Battle.isFinished b.
Proof. reflexivity. Qed.

Lemma decision_isFinished (p : bool) (x : Z) (b : Battle.t) :
  Battle.isFinished
    (resolveWildcard (if p then Battle.set_wildcardPlayer1Decision x b
                      else Battle.set_wildcardPlayer2Decision x b))
  = Battle.isFinished b.
Proof. rewrite resolveWildcard_isFinished. by destruct p. Qed.

Ltac not_battle_key :=
  let id := fresh in
  let E := fresh in
  intros id E; unfold_keys E; discriminate E.

Ltac frame_side :=
  intros; first [ left; not_battle_key | left; left; not_battle_key ].

Ltac fstep w0 :=
  lazymatch goal with
  | |- keeps (unchanged _) _ (bind (setBytes (battleKey _) _) _) _ =>
      eapply keeps_bind;
        [apply (keeps_setBytes_to (finish_rel w0)); [intros; by left|] | intros _ _]
  | _ => kstep
  end.

Lemma game_call_frames (w0 : World) (ctx : Ctx) (c : GameCall) :
  keeps (unchanged w0) (finish_rel w0) (game_call ctx c) (fun _ => True).
Proof.
  assert (Hsub : forall k v, unchanged w0 k v -> finish_rel w0 k v) by (intros; by left).
  destruct c; cbn [game_call].
  - apply (keeps_post _ _ _ _ Hsub). unfold game_constructor. repeat kstep. all: frame_side.
  - apply (keeps_post _ _ _ _ Hsub). unfold game_createCharacter. repeat kstep. all: frame_side.
  - unfold game_createBattle. repeat (fstep w0). all: try frame_side.
    right. right. eexists. split; [reflexivity|]. reflexivity.
  - unfold game_executeTurn. repeat (fstep w0). all: try frame_side.
    all: cbn beta in *; subst.
    all: repeat match goal with
         | H : negb _ = true |- _ => apply negb_true_iff in H
         | H : unchanged _ (battleKey _) _ |- _ => apply unchanged_battleKey in H
         end.
    all: right; left; eexists; eexists; split; [eassumption|]; split; [reflexivity|].
    all: intros Hf Hf'.
    + rewrite triggerWildcard_isFinished in Hf'. congruence.
    + rewrite stunnedTurn_isFinished, resolveSkill_isFinished in Hf'. congruence.
    + split.
      * apply playTurn_finished; [|done]. by rewrite resolveSkill_isFinished.
      * rewrite playTurn_turnNumber, resolveSkill_turnNumber. apply u32_succ_neq.
  - unfold game_decideWildcard. repeat (fstep w0). all: try frame_side.
    cbn beta in *; subst.
    match goal with
    | H : unchanged _ (battleKey _) _ |- _ => apply unchanged_battleKey in H
    end.
    right; left; eexists; eexists; split; [eassumption|]; split; [reflexivity|].
    intros Hf Hf'. rewrite decision_isFinished in Hf'. congruence.
  - apply (keeps_post _ _ _ _ Hsub). unfold game_finalizeBattle. repeat kstep. all: frame_side.
  - apply (keeps_post _ _ _ _ Hsub). unfold game_setPaused. repeat kstep. all: frame_side.
  - apply (keeps_post _ _ _ _ Hsub). unfold game_grantSettler. repeat kstep. all: frame_side.
  - apply (keeps_post _ _ _ _ Hsub). unfold game_upgradeCharacter. repeat kstep. all: frame_side.
  - apply (keeps_post _ _ _ _ Hsub). unfold game_grantXP. repeat kstep. all: frame_side.
  - apply (keeps_post _ _ _ _ Hsub). unfold game_healCharacter. repeat kstep. all: frame_side.
  - apply (keeps_post _ _ _ _ Hsub). unfold game_createEquipment. repeat kstep. all: frame_side.
  - apply (keeps_post _ _ _ _ Hsub). unfold game_equipItem. repeat kstep. all: frame_side.
  - apply (keeps_post _ _ _ _ Hsub). unfold game_transferEquipment. repeat kstep. all: frame_side.
  - apply (keeps_post _ _ _ _ Hsub). unfold game_learnSkill. repeat kstep. all: frame_side.
  - apply (keeps_post _ _ _ _ Hsub). unfold game_equipSkill. repeat kstep. all: frame_side.
  - apply (keeps_post _ _ _ _ Hsub). unfold game_addToTreasury. repeat kstep. all: frame_side.
  - apply (keeps_post _ _ _ _ Hsub). unfold game_withdrawTreasury. repeat kstep. all: frame_side.
Qed.

Lemma few_S (n : nat) : few (S n) -> few n.
Proof. unfold few. lia. Qed.

Lemma arena_off_game (n : nat) (k : string) (v : Value) : off_game k v -> arena_ok n k v.
Proof.
  intros (_ & _ & Hc & Hb). destruct v; try done; [by destruct (Hc c) | by destruct (Hb b)].
Qed.

Lemma unchanged_off_game (w0 : World) (k : string) (v : Value) :
  off_game k v -> unchanged w0 k v.
Proof. intros (_ & Hk & _). by left. Qed.

Lemma call_keeps_arena (n : nat) (ctx : Ctx) (c : Call) :
  few n -> keeps (arena_ok n) (arena_ok (S n)) (call ctx c) (fun _ => True).
Proof.
  intros Hn. destruct c; cbn [call].
  - by apply game_call_keeps_arena.
  - apply (keeps_post _ _ _ _ (arena_ok_S n)), prediction_call_keeps, arena_off_game.
  - apply (keeps_post _ _ _ _ (arena_ok_S n)), propbet_call_keeps, arena_off_game.
Qed.

Lemma call_frames (w0 : World) (ctx : Ctx) (c : Call) :
  keeps (unchanged w0) (finish_rel w0) (call ctx c) (fun _ => True).
Proof.
  assert (Hsub : forall k v, unchanged w0 k v -> finish_rel w0 k v) by (intros; by left).
  destruct c; cbn [call].
  - apply game_call_frames.
  - apply (keeps_post _ _ _ _ Hsub), prediction_call_keeps, unchanged_off_game.
  - apply (keeps_post _ _ _ _ Hsub), propbet_call_keeps, unchanged_off_game.
Qed.

Lemma reach_arena (who : string -> Prop) (n : nat) (w : World) :
  reach who n w -> few n -> stores (arena_ok n) w.
Proof.
  induction 1 as [w E | n w ctx c Hc _ IH | n w bal alw _ IH]; intros Hn.
  - intros k v. rewrite E, lookup_empty. discriminate.
  - apply few_S in Hn.
    eapply keeps_exec; [apply arena_ok_S | by apply call_keeps_arena | by apply IH].
  - by apply IH.
Qed.

(** C5.  In every state that the contract reaches, whoever the callers
    are, a battle is finished if and only if its winner is 1 or 2, and the
    winner of an unfinished battle is 0.  Across any call, an unfinished
    battle becomes finished if and only if the call played a turn (the turn
    number moved) at whose end one side has exactly 0 hit points. *)
Theorem battle_finish_iff (who : string -> Prop) (n : nat) (w : World) :
  reach who n w -> few (S n) ->
  (forall id b,
      storage w !! battleKey id = Some (VBattle b) ->
      (Battle.isFinished b = true <-> (Battle.winner b = 1 \/ Battle.winner b = 2))
      /\ (Battle.isFinished b = false -> Battle.winner b = 0))
  /\ (forall ctx c id b b',
         storage w !! battleKey id = Some (VBattle b) ->
         who (caller ctx) ->
         storage (exec (call ctx c) w) !! battleKey id = Some (VBattle b') ->
         Battle.isFinished b = false ->
         (Battle.isFinished b' = true <->
          (Battle.turnNumber b' <> Battle.turnNumber b
           /\ (Battle.player1Hp b' = 0 \/ Battle.player2Hp b' = 0)))).
Proof.
  intros Hreach Hn. split.
  - intros id b E.
    pose proof (reach_arena who n w Hreach (few_S n Hn) _ _ E) as Hb.
    cbn in Hb. unfold battle_ok, vitals, vitals_ok in Hb.
    destruct Hb as (Hf & Hu & _ & _).
    destruct (Battle.isFinished b); intuition (try lia; try discriminate).
  - intros ctx c id b b' E Hc E' Hf.
    pose proof (reach_arena who (S n) _ (step who n w ctx c Hc Hreach) Hn _ _ E') as Hb'.
    cbn in Hb'. unfold battle_ok, vitals, vitals_ok in Hb'.
    destruct Hb' as (_ & Hu' & _ & _).
    assert (Hrel : finish_rel w (battleKey id) (VBattle b')).
    { refine (keeps_exec (unchanged w) (finish_rel w) _ w _ (call_frames w ctx c) _ _ _ E').
      - intros; by left.
      - intros k v Ek. by right. }
    split.
    + intros Hf'.
      destruct Hrel as [Hun | [(b0 & b1 & E0 & [= <-] & Hfin) | (b1 & [= <-] & Hnot)]].
      * apply unchanged_battleKey in Hun. congruence.
      * rewrite E in E0. injection E0 as <-. destruct (Hfin Hf Hf'). done.
      * congruence.
    + intros [_ Hzero]. destruct (Battle.isFinished b') eqn:F; [done|].
      destruct (Hu' eq_refl) as (_ & ? & ?). lia.
Qed.

(** A duel played to its end: the seventh turn brings the rogue to 0. *)
Definition duel_turn (who : string) (charId : string) (ts : Z) : Ctx * Call :=
  (mkCtx who "game" ts false, Game (ExecuteTurn "duel" charId 0 false 0)).

Definition duel_world : World :=
  run [ (mkCtx "alice" "game" 10 false, Game (CreateCharacter "mage" 2 "Mage"));
        (mkCtx "bob" "game" 11 false, Game (CreateCharacter "rogue" 1 "Rogue"));
        (mkCtx "alice" "game" 12 false, Game (CreateBattle "duel" "mage" "rogue" 20));
        duel_turn "alice" "mage" 30; duel_turn "bob" "rogue" 31;
        duel_turn "alice" "mage" 32; duel_turn "bob" "rogue" 33;
        duel_turn "alice" "mage" 34; duel_turn "bob" "rogue" 35 ]
    empty_world.

Lemma duel_world_reach : reach anyone 9 duel_world.
Proof.
  unfold duel_world.
  by eapply (reach_run anyone _ 0); [repeat constructor | apply genesis | reflexivity].
Qed.

Lemma battle_finish_iff_witness :
  exists b b',
    storage duel_world !! battleKey "duel" = Some (VBattle b)
    /\ storage (exec (call (mkCtx "alice" "game" 36 false)
                        (Game (ExecuteTurn "duel" "mage" 0 false 0))) duel_world)
         !! battleKey "duel" = Some (VBattle b')
    /\ (Battle.isFinished b' = true <->
        (Battle.turnNumber b' <> Battle.turnNumber b
         /\ (Battle.player1Hp b' = 0 \/ Battle.player2Hp b' = 0)))
    /\ Battle.isFinished b' = true /\ Battle.winner b' = 1.
Proof.
  eexists. eexists.
  split; [vm_compute; reflexivity|].
  split; [vm_compute; reflexivity|].
  split.
  - apply (proj2 (battle_finish_iff anyone 9 duel_world duel_world_reach
                    ltac:(unfold few; lia))
             (mkCtx "alice" "game" 36 false) (Game (ExecuteTurn "duel" "mage" 0 false 0))
             "duel").
    + vm_compute. reflexivity.
    + exact I.
    + vm_compute. reflexivity.
    + reflexivity.
  - split; reflexivity.
Defined.
(** ** Reading a completed call backwards *)

Lemma deserializeCharacter_Ok (v : Value) (w w' : World) (c : Character.t) :
  deserializeCharacter v w = Ok c w' -> v = VCharacter c /\ w' = w.
Proof. destruct v; try discriminate. intros Hx. by inversion Hx. Qed.

Lemma deserializeSinglePool_Ok (v : Value) (w w' : World) (p : SinglePool.t) :
  deserializeSinglePool v w = Ok p w' -> v = VSinglePool p /\ w' = w.
Proof. destruct v; try discriminate. intros Hx. by inversion Hx. Qed.

Lemma deserializeSingleBet_Ok (v : Value) (w w' : World) (b : SingleBet.t) :
  deserializeSingleBet v w = Ok b w' -> v = VSingleBet b /\ w' = w.
Proof. destruct v; try discriminate. intros Hx. by inversion Hx. Qed.

Lemma deserializeMultipool_Ok (v : Value) (w w' : World) (m : Multipool.t) :
  deserializeMultipool v w = Ok m w' -> v = VMultipool m /\ w' = w.
Proof. destruct v; try discriminate. intros Hx. by inversion Hx. Qed.

Lemma deserializeBetslip_Ok (v : Value) (w w' : World) (s : Betslip.t) :
  deserializeBetslip v w = Ok s w' -> v = VBetslip s /\ w' = w.
Proof. destruct v; try discriminate. intros Hx. by inversion Hx. Qed.

Ltac minv1 H :=
  first
    [ apply whenNotPaused_Ok in H as ->
    | apply nonReentrant_Ok in H as [? ->]
    | apply endNonReentrant_Ok in H as ->
    | apply onlyRole_Ok in H as [-> ?]
    | apply incrementCounter_Ok in H as [-> ->]
    | apply getCounter_Ok in H as [-> ->]
    | apply hasKey_Ok in H as [-> ->]
    | apply getBytes_Ok in H as [-> ?]
    | apply assert_Ok in H as [? ->]
    | apply setBytes_Ok in H as ->
    | apply deleteKey_Ok in H as ->
    | apply generateEvent_Ok in H as ->
    | apply balanceOf_Ok in H as [-> ->]
    | apply allowance_Ok in H as [-> ->]
    | apply transfer_Ok in H as [? ->]
    | apply deserializeCharacter_Ok in H as [-> ->]
    | apply deserializeSinglePool_Ok in H as [-> ->]
    | apply deserializeSingleBet_Ok in H as [-> ->]
    | apply deserializeMultipool_Ok in H as [-> ->]
    | apply deserializeBetslip_Ok in H as [-> ->]
    | apply ret_Ok in H as [-> ->] ].

Ltac minv H :=
  repeat
    (let a := fresh "a" in
     let w1 := fresh "w" in
     let H1 := fresh "H" in
     apply bind_Ok in H as (a & w1 & H1 & H); try minv1 H1);
  try minv1 H.

(** ** Granting experience *)

(** C8, as the code has it.  [grantXP] is for the admin role only.  It adds
    the amount to the character's xp and runs the level test once: if the new
    xp reaches level times 200, the character gains exactly one level, the
    threshold is taken off the xp, and the flat bonuses (+5 maxHp with a full
    heal, +1 and +2 damage) are granted once; otherwise only the xp
    changes.  What is left above the next threshold stays as xp. *)
Theorem grantXP_levels_once (ctx : Ctx) (charId : string) (xpAmount : Z) (w : World) :
  (storage w !! (ADMIN_ROLE +:+ ":" +:+ caller ctx) = None ->
   exists msg w1, game_grantXP ctx charId xpAmount w = Abort msg w1)
  /\ (forall u w',
         game_grantXP ctx charId xpAmount w = Ok u w' ->
         is_Some (storage w !! (ADMIN_ROLE +:+ ":" +:+ caller ctx))
         /\ exists c,
             storage w !! characterKey charId = Some (VCharacter c)
             /\ storage w' =
                <[characterKey charId := VCharacter (grantXP_char (u64 xpAmount) c)]>
                  (storage w)
             /\ let x := u64 (Character.xp c + u64 xpAmount) in
                let threshold := u64 (Character.level c * 200) in
                let c' := grantXP_char (u64 xpAmount) c in
                if threshold <=? x
                then Character.level c' = u16 (Character.level c + 1)
                     /\ Character.xp c' = x - threshold
                     /\ Character.maxHp c' = u64 (Character.maxHp c + 5)
                     /\ Character.currentHp c' = Character.maxHp c'
                     /\ Character.baseDamageMin c' = u16 (Character.baseDamageMin c + 1)
                     /\ Character.baseDamageMax c' = u16 (Character.baseDamageMax c + 2)
                else c' = Character.set_xp x c).
Proof.
  split.
  - intros Hrole. unfold game_grantXP, onlyRole, bind, hasKey. rewrite Hrole. cbn. eauto.
  - intros u w' H. unfold game_grantXP in H. minv H.
    split; [done|]. eexists. split; [eassumption|]. split.
    + match goal with Hev : (if _ then _ else _) _ = Ok _ _ |- _ =>
        destruct (_ <=? _); minv1 Hev end; reflexivity.
    + match goal with |- context [grantXP_char _ ?c] => set (c0 := c) end.
      cbv zeta. unfold grantXP_char, levelUp. cbn.
      destruct (Z.leb_spec (u64 (Character.level c0 * 200))
                  (u64 (Character.xp c0 + u64 xpAmount))) as [Hle|Hlt]; [|done].
      repeat split; try reflexivity.
      pose proof (u64_range (Character.level c0 * 200)).
      pose proof (u64_range (Character.xp c0 + u64 xpAmount)).
      apply u64_small. lia.
Qed.

Definition xp_world : World :=
  let w0 := mkWorld ∅ ∅ ∅ [] in
  let w1 := exec (game_constructor (mkCtx "admin" "game" 1 true)) w0 in
  exec (game_createCharacter (mkCtx "alice" "game" 10 false) "knight" 0 "Knight") w1.

Lemma grantXP_levels_once_witness :
  exists w' c',
    game_grantXP (mkCtx "admin" "game" 20 false) "knight" 1000 xp_world = Ok tt w'
    /\ storage w' !! characterKey "knight" = Some (VCharacter c')
    /\ Character.level c' = 2 /\ Character.xp c' = 800.
Proof.
  destruct (game_grantXP (mkCtx "admin" "game" 20 false) "knight" 1000 xp_world)
    as [[] w'|] eqn:E; [|vm_compute in E; discriminate].
  destruct (proj2 (grantXP_levels_once _ _ _ _) _ _ E) as (_ & c & Hc & Hs & _).
  assert (c = newCharacter "alice" 0 "Knight" 10 120 8 15 15 0) as ->.
  { vm_compute in Hc. by injection Hc. }
  exists w', (grantXP_char (u64 1000) (newCharacter "alice" 0 "Knight" 10 120 8 15 15 0)).
  split; [done|]. split; [|by vm_compute].
  rewrite Hs. apply lookup_insert_eq.
Defined.

(** The claim as the document words it fails: one grant of 1000 xp to a
    fresh level-1 character gives level 2 with 800 xp left, not below the
    new threshold of 400. *)
Lemma grantXP_leaves_xp_above_threshold :
  exists w' c',
    game_grantXP (mkCtx "admin" "game" 20 false) "knight" 1000 xp_world = Ok tt w'
    /\ storage w' !! characterKey "knight" = Some (VCharacter c')
    /\ ~ (Character.xp c' < Character.level c' * 200).
Proof.
  eexists. eexists. split; [vm_compute; reflexivity|].
  split; [vm_compute; reflexivity|]. vm_compute. discriminate.
Qed.
(** * The prediction contract: single pools *)

(** ** What a completed claim did *)

(** The world after a claim on a losing bet. *)
Definition claim_lost (poolId bettor : string) (bet : SingleBet.t) (w : World) : World :=
  let w := write LOCKED_KEY (VText "true") w in
  let w := write (sbetKey poolId bettor) (VSingleBet (SingleBet.set_isClaimed true bet)) w in
  let w := write TOTAL_BETS_CLAIMED_KEY
             (VNum (u64 (counter_of w TOTAL_BETS_CLAIMED_KEY + 1))) w in
  let w := write (streakKey bettor) (VNum 0) w in
  let w := erase LOCKED_KEY w in
  emit (EEvent "SingleBetClaimed" [poolId; bettor] [0; 0]) w.

(** The world after a claim on a winning bet, up to and including the main
    payout. *)
Definition claim_paid (ctx : Ctx) (poolId bettor : string) (pool : SinglePool.t)
    (bet : SingleBet.t) (w : World) : World :=
  let w := write LOCKED_KEY (VText "true") w in
  let newStreak := u64 (counter_of w (streakKey bettor) + 1) in
  let w := write (streakKey bettor) (VNum newStreak) w in
  let w := write (sbetKey poolId bettor) (VSingleBet (SingleBet.set_isClaimed true bet)) w in
  let w := emit (EBalanceOf (SinglePool.token pool) (callee ctx)) w in
  let w := move_tokens (SinglePool.token pool) (callee ctx) bettor (u64 (payoutU pool bet))
             (emit (ETransfer (SinglePool.token pool) bettor (u64 (payoutU pool bet))) w) in
  write TOTAL_BETS_CLAIMED_KEY (VNum (u64 (counter_of w TOTAL_BETS_CLAIMED_KEY + 1))) w.

(** ... and after the streak bonus, the treasury credit and the release
    of the lock. *)
Definition claim_won (ctx : Ctx) (poolId bettor : string) (pool : SinglePool.t)
    (bet : SingleBet.t) (w : World) : World :=
  let newStreak := u64 (counter_of w (streakKey bettor) + 1) in
  let payoutU64 := u64 (payoutU pool bet) in
  let streakBonus := streakBonusOf newStreak payoutU64 in
  let w := claim_paid ctx poolId bettor pool bet w in
  let w := if (2 <=? newStreak) && (0 <? streakBonus)
           then move_tokens (SinglePool.token pool) (callee ctx) bettor streakBonus
                  (emit (ETransfer (SinglePool.token pool) bettor streakBonus) w)
           else w in
  let w := if 0 <? u64 (houseAmount pool)
           then write TREASURY_BALANCE_KEY
                  (VNum (u64 (counter_of w TREASURY_BALANCE_KEY + u64 (houseAmount pool)))) w
           else w in
  let w := erase LOCKED_KEY w in
  emit (EEvent "SingleBetClaimed" [poolId; bettor]
          [payoutU pool bet; newStreak; streakBonus]) w.

Lemma counter_of_write_ne (w : World) (k k' : string) (v : Value) :
  k <> k' -> counter_of (write k v w) k' = counter_of w k'.
Proof. intros H. unfold counter_of. rewrite storage_write, lookup_insert_ne; done. Qed.

Lemma counter_of_same_storage (w w' : World) (k : string) :
  storage w' = storage w -> counter_of w' k = counter_of w k.
Proof. unfold counter_of. by intros ->. Qed.

Ltac key_neq :=
  let E := fresh in
  intros E; unfold_keys E; discriminate E.

Lemma claimSingleBet_Ok (ctx : Ctx) (poolId bettor : string) (w w' : World) (u : unit) :
  prediction_claimSingleBet ctx poolId bettor w = Ok u w' ->
  exists pool bet,
    storage w !! spoolKey poolId = Some (VSinglePool pool)
    /\ storage w !! sbetKey poolId bettor = Some (VSingleBet bet)
    /\ SinglePool.isSettled pool = true
    /\ SingleBet.isClaimed bet = false
    /\ storage w !! LOCKED_KEY = None
    /\ ((SingleBet.outcome bet <> SinglePool.winningOutcome pool
         /\ w' = claim_lost poolId bettor bet w)
        \/ (SingleBet.outcome bet = SinglePool.winningOutcome pool
            /\ 0 < winnerTotal pool
            /\ u64 (payoutU pool bet)
               <= balance_of w (SinglePool.token pool) (callee ctx)
            /\ w' = claim_won ctx poolId bettor pool bet w)).
Proof.
  intros H. unfold prediction_claimSingleBet in H.
  do 11 (let a := fresh "a" in
     let w1 := fresh "w" in
     let H1 := fresh "H" in
     apply bind_Ok in H as (a & w1 & H1 & H); try minv1 H1).
  rewrite storage_write, lookup_insert_ne in H2 by key_neq.
  rewrite storage_write, lookup_insert_ne in H5 by key_neq.
  exists a3, a6. split; [done|]. split; [done|]. split; [done|].
  apply bind_Ok in H as (a7 & w7 & H6 & H); minv1 H6.
  apply negb_true_iff in H6.
  split; [done|]. split; [done|].
  apply bind_Ok in H as (cur & w8 & H7 & H); minv1 H7.
  destruct (SingleBet.outcome a6 =? SinglePool.winningOutcome a3) eqn:Eo; cbn [negb] in H.
  - right. apply Z.eqb_eq in Eo. split; [done|].
    minv H.
    rewrite counter_of_write_ne in * by key_neq.
    match goal with Hx : (_ <=? _) = true |- _ => apply Z.leb_le in Hx; rename Hx into Hbal end.
    match goal with Hx : (0 <? _) = true |- _ => apply Z.ltb_lt in Hx; rename Hx into Hwin end.
    split; [done|]. split.
    { unfold balance_of in *. exact Hbal. }
    unfold claim_won, claim_paid.
    rewrite counter_of_write_ne by key_neq.
    repeat match goal with
    | Hx : (if ?b then _ else _) _ = Ok _ _ |- _ => destruct b; minv Hx
    end; reflexivity.
  - left. apply Z.eqb_neq in Eo. split; [done|].
    minv H. reflexivity.
Qed.

(** ** What a winning claim leaves in the storage *)

Ltac storage_simpl :=
  rewrite ?storage_emit, ?storage_erase, ?storage_write, ?storage_move_tokens.









(** ** The treasury counter *)






(** ** A pool played through *)

(** Three accounts hold 5000 of the token each and have approved the
    market for as much. *)
Definition funded_world : World :=
  mkWorld ∅
    {[ ("TOK", "alice") := 5000; ("TOK", "bob") := 5000; ("TOK", "carol") := 5000 ]}
    {[ ("TOK", "alice", "market") := 5000; ("TOK", "bob", "market") := 5000;
       ("TOK", "carol", "market") := 5000 ]}
    [].

Definition by_ (who : string) (ts : Z) : Ctx := mkCtx who "market" ts false.

(** The deployer deploys, authorises the settler [oracle] and opens pool
    [p], which closes at time 100. *)
Definition open_pool : list (Ctx * Call) :=
  [ (mkCtx "admin" "market" 0 true, Market MarketConstructor);
    (by_ "admin" 1, Market (SetAuthorizedSettler "oracle"));
    (by_ "admin" 2, Market (CreateSinglePool "p" "duel" "TOK" 100)) ].

Definition close_and_settle (winningOutcome : Z) : list (Ctx * Call) :=
  [ (by_ "admin" 100, Market (CloseSinglePool "p"));
    (by_ "oracle" 101, Market (SettleSinglePool "p" winningOutcome)) ].

(** Whether a call went through, as a boolean. *)
Definition is_ok {A : Type} (r : Result A) : bool :=
  match r with Ok _ _ => true | Abort _ _ => false end.

Lemma is_ok_exec (c : M unit) (w : World) : is_ok (c w) = true -> c w = Ok tt (exec c w).
Proof. unfold exec. by destruct (c w) as [[] ?|]. Qed.





(** ** What a placed bet did *)

(** The ledger after a successful [transferFrom]. *)
Definition pull_tokens (ctx : Ctx) (token owner recipient : string) (amount : Z) (w : World)
  : World :=
  let w0 := emit (ETransferFrom token owner recipient amount) w in
  move_tokens token owner recipient amount
    (set_allowances
       (<[(token, owner, callee ctx) := allowance_of w token owner (callee ctx) - amount]>
          (allowances w0)) w0).

Lemma transferFrom_pulls (ctx : Ctx) (token owner recipient : string) (amount : Z)
    (w w' : World) (u : unit) :
  transferFrom ctx token owner recipient amount w = Ok u w' ->
  amount <= allowance_of w token owner (callee ctx)
  /\ amount <= balance_of w token owner
  /\ w' = pull_tokens ctx token owner recipient amount w.
Proof.
  unfold transferFrom.
  destruct (Z.leb_spec amount (allowance_of w token owner (callee ctx))); [|discriminate].
  destruct (Z.leb_spec amount (balance_of w token owner)); [|discriminate].
  cbn. intros Hx. inversion Hx. done.
Qed.

Lemma storage_pull_tokens (ctx : Ctx) (token owner recipient : string) (amount : Z)
    (w : World) :
  storage (pull_tokens ctx token owner recipient amount w) = storage w.
Proof. reflexivity. Qed.

(** The pool record after a bet, as [placeSingleBet] updates it. *)
Definition placed_pool (outcome amount : Z) (pool : SinglePool.t) : SinglePool.t :=
  let pool := SinglePool.set_totalPool (u128_add (SinglePool.totalPool pool) amount) pool in
  if outcome =? 0
  then SinglePool.set_outcomeABets (u128_add (SinglePool.outcomeABets pool) amount) pool
  else SinglePool.set_outcomeBBets (u128_add (SinglePool.outcomeBBets pool) amount) pool.

(** The world after an accepted bet; [outcome] and [amount] are the
    arguments as the entry point reads them (an [i8] and a [u64]). *)
Definition placed (ctx : Ctx) (poolId : string) (outcome amount : Z) (pool : SinglePool.t)
    (w : World) : World :=
  let token := SinglePool.token pool in
  let w := write LOCKED_KEY (VText "true") w in
  let w := emit (EAllowance token (caller ctx) (callee ctx)) w in
  let w := emit (EBalanceOf token (caller ctx)) w in
  let w := pull_tokens ctx token (caller ctx) (callee ctx) amount w in
  let w := write (spoolKey poolId) (VSinglePool (placed_pool outcome amount pool)) w in
  let w := write (sbetKey poolId (caller ctx))
             (VSingleBet (SingleBet.mk (caller ctx) poolId amount outcome false
                            (timestamp ctx))) w in
  let w := write TOTAL_BETS_PLACED_KEY
             (VNum (u64 (counter_of w TOTAL_BETS_PLACED_KEY + 1))) w in
  let w := erase LOCKED_KEY w in
  emit (EEvent "SingleBetPlaced" [poolId; caller ctx] []) w.

Lemma guard_Ok (b c : bool) (msg : string) (w w' : World) (u : unit) :
  (if b then assert_ c msg else ret tt) w = Ok u w' -> w' = w /\ (b = true -> c = true).
Proof.
  destruct b; intros H.
  - apply assert_Ok in H as [Hc Hw]. auto.
  - apply ret_Ok in H as [Hw _]. split; [done | discriminate].
Qed.

Ltac minv2 H :=
  first
    [ minv1 H
    | apply guard_Ok in H as [-> _]
    | apply transferFrom_pulls in H as (? & ? & ->) ].

Ltac minv' H :=
  repeat
    (let a := fresh "a" in
     let w1 := fresh "w" in
     let H1 := fresh "H" in
     apply bind_Ok in H as (a & w1 & H1 & H); try minv2 H1);
  try minv2 H.

Lemma placeSingleBet_Ok (ctx : Ctx) (poolId : string) (outcome amount : Z) (w w' : World)
    (u : unit) :
  prediction_placeSingleBet ctx poolId outcome amount w = Ok u w' ->
  exists pool,
    storage w !! spoolKey poolId = Some (VSinglePool pool)
    /\ SinglePool.isClosed pool = false
    /\ timestamp ctx < SinglePool.closeTs pool
    /\ storage w !! LOCKED_KEY = None
    /\ w' = placed ctx poolId (i8 outcome) (u64 amount) pool w.
Proof.
  intros H. unfold prediction_placeSingleBet in H. cbv zeta in H.
  minv' H.
  repeat match goal with
  | Hx : negb _ = true |- _ => apply negb_true_iff in Hx
  | Hx : (_ <? _) = true |- _ => apply Z.ltb_lt in Hx
  | Hx : storage (write LOCKED_KEY _ _) !! _ = _ |- _ =>
      rewrite storage_write, lookup_insert_ne in Hx by key_neq
  end.
  match goal with
  | Hx : storage w !! spoolKey poolId = Some (VSinglePool ?p) |- _ => exists p
  end.
  do 4 (split; [done|]).
  reflexivity.
Qed.

Lemma placed_lookup_pool (ctx : Ctx) (poolId : string) (outcome amount : Z)
    (pool : SinglePool.t) (w : World) :
  storage (placed ctx poolId outcome amount pool w) !! spoolKey poolId
  = Some (VSinglePool (placed_pool outcome amount pool)).
Proof.
  unfold placed. cbv zeta. storage_simpl.
  rewrite lookup_delete_ne by key_neq. storage_simpl.
  rewrite lookup_insert_ne by key_neq. storage_simpl.
  rewrite lookup_insert_ne by key_neq. storage_simpl.
  by rewrite lookup_insert_eq.
Qed.

Lemma placed_lookup_bet (ctx : Ctx) (poolId : string) (outcome amount : Z)
    (pool : SinglePool.t) (w : World) :
  storage (placed ctx poolId outcome amount pool w) !! sbetKey poolId (caller ctx)
  = Some (VSingleBet (SingleBet.mk (caller ctx) poolId amount outcome false (timestamp ctx))).
Proof.
  unfold placed. cbv zeta. storage_simpl.
  rewrite lookup_delete_ne by key_neq. storage_simpl.
  rewrite lookup_insert_ne by key_neq. storage_simpl.
  by rewrite lookup_insert_eq.
Qed.

Lemma placed_lookup_other (ctx : Ctx) (poolId : string) (outcome amount : Z)
    (pool : SinglePool.t) (w : World) (k : string) :
  k <> LOCKED_KEY -> k <> spoolKey poolId -> k <> sbetKey poolId (caller ctx) ->
  k <> TOTAL_BETS_PLACED_KEY ->
  storage (placed ctx poolId outcome amount pool w) !! k = storage w !! k.
Proof.
  intros. unfold placed. cbv zeta. storage_simpl.
  rewrite lookup_delete_ne by done. storage_simpl.
  rewrite lookup_insert_ne by done. storage_simpl.
  rewrite lookup_insert_ne by done. storage_simpl.
  rewrite lookup_insert_ne by done. rewrite storage_pull_tokens. storage_simpl.
  by rewrite lookup_insert_ne.
Qed.

(** ** The outcome argument *)

Definition succeeds {A : Type} (c : M A) (w : World) : Prop :=
  exists a w', c w = Ok a w'.

Lemma bind_run {A B : Type} (c : M A) (k : A -> M B) (w w1 : World) (a : A) (r : Result B) :
  c w = Ok a w1 -> k a w1 = r -> bind c k w = r.
Proof. unfold bind. by intros -> ->. Qed.

Lemma incrementCounter_ext (key : string) (w w' v : World) (n : Z) :
  incrementCounter key w = Ok n w' -> storage v !! key = storage w !! key ->
  incrementCounter key v = Ok n (write key (VNum n) v).
Proof.
  unfold incrementCounter, getCounter, hasKey, getBytes, setCounter, setBytes, bind, ret,
    abort.
  intros H E. rewrite E.
  destruct (storage w !! key) as [x|] eqn:Ew; cbn in H |- *.
  - rewrite Ew in H. rewrite E.
    destruct x; try discriminate.
    destruct (f64_of_Z n0 <? 2 ^ 64); [|discriminate].
    injection H as <- _. reflexivity.
  - injection H as <- _. reflexivity.
Qed.

Lemma succeeds_Ok {A : Type} (c : M A) (w w' : World) (a : A) :
  c w = Ok a w' -> succeeds c w.
Proof. intros H. by exists a, w'. Qed.

Lemma bind_step {A B : Type} (c : M A) (k : A -> M B) (w w1 : World) (a : A) :
  c w = Ok a w1 -> bind c k w = k a w1.
Proof. unfold bind. by intros ->. Qed.

Lemma place_any_outcome (ctx : Ctx) (poolId : string) (outcome outcome' amount : Z)
    (w : World) :
  succeeds (prediction_placeSingleBet ctx poolId outcome amount) w ->
  succeeds (prediction_placeSingleBet ctx poolId outcome' amount) w.
Proof.
  intros (u & w' & H). unfold succeeds.
  unfold prediction_placeSingleBet in *. cbv zeta in *.
  repeat (let a := fresh "a" in
          let w1 := fresh "w" in
          let H1 := fresh "H" in
          apply bind_Ok in H as (a & w1 & H1 & H); rewrite (bind_step _ _ _ _ _ H1)).
  apply bind_Ok in H as (? & ? & Hp & H). apply setBytes_Ok in Hp as ->.
  apply bind_Ok in H as (? & ? & Hb & H). apply setBytes_Ok in Hb as ->.
  apply bind_Ok in H as (n & ? & Hn & H).
  eexists. eexists.
  eapply bind_run; [reflexivity|].
  eapply bind_run; [reflexivity|].
  eapply bind_run.
  { eapply incrementCounter_ext; [exact Hn|].
    storage_simpl. rewrite !lookup_insert_ne by key_neq. done. }
  reflexivity.
Qed.

Lemma log_emit (e : Effect) (w : World) : log (emit e w) = (log w ++ [e])%list.
Proof. reflexivity. Qed.

Lemma log_write (key : string) (v : Value) (w : World) :
  log (write key v w) = (log w ++ [EWrite key v])%list.
Proof. reflexivity. Qed.

Lemma log_erase (key : string) (w : World) : log (erase key w) = (log w ++ [EDelete key])%list.
Proof. reflexivity. Qed.

Lemma log_move_tokens (token src dst : string) (amount : Z) (w : World) :
  log (move_tokens token src dst amount w) = log w.
Proof. reflexivity. Qed.

Ltac log_simpl := rewrite ?log_emit, ?log_write, ?log_erase, ?log_move_tokens.

Lemma claim_paid_log (ctx : Ctx) (poolId bettor : string) (pool : SinglePool.t)
    (bet : SingleBet.t) (w : World) :
  ETransfer (SinglePool.token pool) bettor (u64 (payoutU pool bet))
    ∈ log (claim_paid ctx poolId bettor pool bet w).
Proof. unfold claim_paid. cbv zeta. repeat log_simpl. set_solver. Qed.

Lemma claim_won_log (ctx : Ctx) (poolId bettor : string) (pool : SinglePool.t)
    (bet : SingleBet.t) (w : World) :
  ETransfer (SinglePool.token pool) bettor (u64 (payoutU pool bet))
    ∈ log (claim_won ctx poolId bettor pool bet w).
Proof.
  unfold claim_won. cbv zeta.
  generalize (claim_paid_log ctx poolId bettor pool bet w).
  generalize (claim_paid ctx poolId bettor pool bet w). intros paid Hpaid.
  repeat match goal with
  | |- context [if ?b then _ else _] => destruct b
  end; repeat log_simpl; set_solver.
Qed.

Lemma claim_lost_facts (poolId bettor : string) (bet : SingleBet.t) (w : World) :
  balances (claim_lost poolId bettor bet w) = balances w
  /\ storage (claim_lost poolId bettor bet w) !! sbetKey poolId bettor
     = Some (VSingleBet (SingleBet.set_isClaimed true bet))
  /\ storage (claim_lost poolId bettor bet w) !! streakKey bettor = Some (VNum 0).
Proof.
  split; [reflexivity|]. unfold claim_lost. cbv zeta. split.
  - storage_simpl. rewrite lookup_delete_ne by key_neq. storage_simpl.
    rewrite lookup_insert_ne by key_neq. storage_simpl.
    rewrite lookup_insert_ne by key_neq. storage_simpl.
    by rewrite lookup_insert_eq.
  - storage_simpl. rewrite lookup_delete_ne by key_neq. storage_simpl.
    by rewrite lookup_insert_eq.
Qed.

Lemma placed_pool_B (outcome amount : Z) (pool : SinglePool.t) :
  outcome <> 0 ->
  SinglePool.outcomeBBets (placed_pool outcome amount pool)
  = u128_add (SinglePool.outcomeBBets pool) amount
  /\ SinglePool.outcomeABets (placed_pool outcome amount pool) = SinglePool.outcomeABets pool
  /\ SinglePool.totalPool (placed_pool outcome amount pool)
     = u128_add (SinglePool.totalPool pool) amount.
Proof.
  intros H. unfold placed_pool. cbv zeta. destruct (Z.eqb_spec outcome 0); [done|]. done.
Qed.

Lemma placed_pool_A (amount : Z) (pool : SinglePool.t) :
  SinglePool.outcomeABets (placed_pool 0 amount pool)
  = u128_add (SinglePool.outcomeABets pool) amount
  /\ SinglePool.outcomeBBets (placed_pool 0 amount pool) = SinglePool.outcomeBBets pool
  /\ SinglePool.totalPool (placed_pool 0 amount pool)
     = u128_add (SinglePool.totalPool pool) amount.
Proof. done. Qed.

(** C9, as the code has it.  [placeSingleBet] reads its outcome argument
    as a signed byte and never validates it: whether the bet is accepted
    does not depend on the outcome; an accepted bet is stored with that
    byte, its amount is added to the pool total and, when the byte is not
    0, to the subtotal of outcome B (an argument such as 256, whose byte
    is 0, is credited to outcome A).  [settleSinglePool] does not validate
    its outcome either, so at claim time a bet loses (no payout, marked
    claimed, streak reset) exactly when its byte differs from the byte the
    pool was settled with, and is paid otherwise, whatever the byte is. *)
Theorem outcome_not_validated (ctx : Ctx) (poolId : string) (outcome amount : Z) (w : World) :
  (forall outcome',
      succeeds (prediction_placeSingleBet ctx poolId outcome amount) w ->
      succeeds (prediction_placeSingleBet ctx poolId outcome' amount) w)
  /\ (forall u w',
         prediction_placeSingleBet ctx poolId outcome amount w = Ok u w' ->
         exists pool pool',
           storage w !! spoolKey poolId = Some (VSinglePool pool)
           /\ storage w' !! spoolKey poolId = Some (VSinglePool pool')
           /\ storage w' !! sbetKey poolId (caller ctx)
              = Some (VSingleBet (SingleBet.mk (caller ctx) poolId (u64 amount) (i8 outcome)
                                    false (timestamp ctx)))
           /\ SinglePool.totalPool pool' = u128_add (SinglePool.totalPool pool) (u64 amount)
           /\ (i8 outcome <> 0 ->
               SinglePool.outcomeBBets pool'
               = u128_add (SinglePool.outcomeBBets pool) (u64 amount)
               /\ SinglePool.outcomeABets pool' = SinglePool.outcomeABets pool)
           /\ (i8 outcome = 0 ->
               SinglePool.outcomeABets pool'
               = u128_add (SinglePool.outcomeABets pool) (u64 amount)
               /\ SinglePool.outcomeBBets pool' = SinglePool.outcomeBBets pool))
  /\ (forall bettor u w',
         prediction_claimSingleBet ctx poolId bettor w = Ok u w' ->
         exists pool bet,
           storage w !! spoolKey poolId = Some (VSinglePool pool)
           /\ storage w !! sbetKey poolId bettor = Some (VSingleBet bet)
           /\ (SingleBet.outcome bet <> SinglePool.winningOutcome pool ->
               balances w' = balances w
               /\ storage w' !! sbetKey poolId bettor
                  = Some (VSingleBet (SingleBet.set_isClaimed true bet))
               /\ storage w' !! streakKey bettor = Some (VNum 0))
           /\ (SingleBet.outcome bet = SinglePool.winningOutcome pool ->
               ETransfer (SinglePool.token pool) bettor (u64 (payoutU pool bet)) ∈ log w')).
Proof.
  split; [|split].
  - intros outcome'. apply place_any_outcome.
  - intros u w' H. apply placeSingleBet_Ok in H as (pool & Hpool & _ & _ & _ & ->).
    exists pool, (placed_pool (i8 outcome) (u64 amount) pool).
    split; [done|]. split; [apply placed_lookup_pool|]. split; [apply placed_lookup_bet|].
    split; [|split].
    + unfold placed_pool. cbv zeta. by destruct (_ =? _).
    + intros Ho. by destruct (placed_pool_B _ (u64 amount) pool Ho) as (? & ? & _).
    + intros ->. by destruct (placed_pool_A (u64 amount) pool) as (? & ? & _).
  - intros bettor u w' H.
    apply claimSingleBet_Ok in H
      as (pool & bet & Hpool & Hbet & _ & _ & _ & [[Hne ->] | (He & _ & _ & ->)]);
      exists pool, bet; (split; [done|]); (split; [done|]); split; try done.
    + intros _. apply claim_lost_facts.
    + intros _. apply claim_won_log.
Qed.

(** ** Closing a pool *)

(** The pool record as [closeSinglePool] writes it back. *)
Definition closed_pool (pool : SinglePool.t) : SinglePool.t :=
  let pool := SinglePool.set_isClosed true pool in
  if 0 <? SinglePool.totalPool pool then
    let payoutPool := payoutPool pool in
    let pool :=
      if 0 <? SinglePool.outcomeABets pool
      then SinglePool.set_outcomeAOddsFP
             (u128_div (u128_mul payoutPool ODDS_SCALE_U128) (SinglePool.outcomeABets pool)) pool
      else pool in
    if 0 <? SinglePool.outcomeBBets pool
    then SinglePool.set_outcomeBOddsFP
           (u128_div (u128_mul payoutPool ODDS_SCALE_U128) (SinglePool.outcomeBBets pool)) pool
    else pool
  else pool.

Lemma closeSinglePool_Ok (ctx : Ctx) (poolId : string) (w w' : World) (u : unit) :
  prediction_closeSinglePool ctx poolId w = Ok u w' ->
  exists pool,
    storage w !! spoolKey poolId = Some (VSinglePool pool)
    /\ SinglePool.isClosed pool = false
    /\ SinglePool.closeTs pool <= timestamp ctx
    /\ storage w' !! spoolKey poolId = Some (VSinglePool (closed_pool pool)).
Proof.
  intros H. unfold prediction_closeSinglePool in H. cbv zeta in H.
  minv H.
  repeat match goal with
  | Hx : negb _ = true |- _ => apply negb_true_iff in Hx
  | Hx : (_ <=? _) = true |- _ => apply Z.leb_le in Hx
  | Hx : storage (write LOCKED_KEY _ _) !! _ = _ |- _ =>
      rewrite storage_write, lookup_insert_ne in Hx by key_neq
  end.
  match goal with
  | Hx : storage w !! spoolKey poolId = Some (VSinglePool ?p) |- _ => exists p
  end.
  do 3 (split; [done|]).
  storage_simpl. rewrite lookup_delete_ne by key_neq. storage_simpl.
  by rewrite lookup_insert_eq.
Qed.

(** ** Scenario A *)

(** A pool at the default 5% house edge holding 1000 on each side. *)
Definition even_pool (pool : SinglePool.t) : Prop :=
  SinglePool.houseEdgeBps pool = 500
  /\ SinglePool.outcomeABets pool = 1000
  /\ SinglePool.outcomeBBets pool = 1000
  /\ SinglePool.totalPool pool = 2000.

Lemma balance_of_move_tokens (token src dst : string) (amount : Z) (w : World) :
  src <> dst ->
  balance_of (move_tokens token src dst amount w) token dst = balance_of w token dst + amount.
Proof.
  intros H. unfold move_tokens, balance_of. cbn.
  rewrite lookup_insert_eq. cbn. rewrite lookup_insert_ne by congruence. done.
Qed.

Lemma balances_write (key : string) (v : Value) (w : World) :
  balances (write key v w) = balances w.
Proof. reflexivity. Qed.

Lemma balances_erase (key : string) (w : World) : balances (erase key w) = balances w.
Proof. reflexivity. Qed.

Lemma balances_emit (e : Effect) (w : World) : balances (emit e w) = balances w.
Proof. reflexivity. Qed.

Lemma balance_of_ext (w w' : World) (token holder : string) :
  balances w' = balances w -> balance_of w' token holder = balance_of w token holder.
Proof. unfold balance_of. by intros ->. Qed.

(** The transfers of a log that pay [holder]. *)
Definition paid_to (holder : string) (l : list Effect) : list Z :=
  omap (fun e => match e with
                 | ETransfer _ r n => if bool_decide (r = holder) then Some n else None
                 | _ => None
                 end) l.

(** C3.  Scenario A: for a pool at 500 basis points holding 1000 on A and
    1000 on B (2000 in total), the payout pool is 1900; closing the pool
    snapshots both odds at 1,900,000 (scale 1e6); once the pool is settled
    with A, a claim for a bettor who staked 1000 on A and has no win streak
    pays that bettor exactly 1900 tokens, in one transfer. *)
Theorem scenario_A (ctx : Ctx) (poolId : string) (pool : SinglePool.t) (w w' : World)
    (u : unit) :
  even_pool pool ->
  storage w !! spoolKey poolId = Some (VSinglePool pool) ->
  payoutPool pool = 1900
  /\ (prediction_closeSinglePool ctx poolId w = Ok u w' ->
      exists pool',
        storage w' !! spoolKey poolId = Some (VSinglePool pool')
        /\ SinglePool.outcomeAOddsFP pool' = 1900000
        /\ SinglePool.outcomeBOddsFP pool' = 1900000
        /\ even_pool pool')
  /\ (forall bettor bet,
         SinglePool.winningOutcome pool = 0 ->
         storage w !! sbetKey poolId bettor = Some (VSingleBet bet) ->
         SingleBet.amount bet = 1000 ->
         SingleBet.outcome bet = 0 ->
         counter_of w (streakKey bettor) = 0 ->
         bettor <> callee ctx ->
         prediction_claimSingleBet ctx poolId bettor w = Ok u w' ->
         balance_of w' (SinglePool.token pool) bettor
         = balance_of w (SinglePool.token pool) bettor + 1900
         /\ paid_to bettor (drop (length (log w)) (log w')) = [1900]).
Proof.
  intros (Hbps & HA & HB & Htot) Hpool.
  assert (Hpp : payoutPool pool = 1900).
  { unfold payoutPool, houseAmount. rewrite Htot, Hbps. reflexivity. }
  split; [done|]. split.
  - intros H. apply closeSinglePool_Ok in H as (pool0 & Hpool0 & _ & _ & H).
    rewrite Hpool in Hpool0. injection Hpool0 as <-.
    eexists. split; [exact H|].
    clear H Hpool Hpp. destruct pool. cbn in Hbps, HA, HB, Htot. subst.
    repeat split; reflexivity.
  - intros bettor bet Hwin Hbet Hamt Hout Hstreak Hne H.
    apply claimSingleBet_Ok in H
      as (pool0 & bet0 & Hpool0 & Hbet0 & _ & _ & _ & [[Hx _] | (_ & _ & _ & ->)]).
    { rewrite Hpool in Hpool0. rewrite Hbet in Hbet0.
      injection Hpool0 as <-. injection Hbet0 as <-. congruence. }
    rewrite Hpool in Hpool0. rewrite Hbet in Hbet0.
    injection Hpool0 as <-. injection Hbet0 as <-.
    assert (Hpay : u64 (payoutU pool bet) = 1900).
    { unfold payoutU, winnerTotal. rewrite Hpp, Hamt, Hwin, HA. reflexivity. }
    unfold claim_won, claim_paid. cbv zeta.
    rewrite !counter_of_write_ne by key_neq. rewrite Hstreak, Hpay.
    change (u64 (0 + 1)) with 1. change (2 <=? 1) with false. cbn [andb].
    split.
    + destruct (0 <? u64 (houseAmount pool));
        exact (balance_of_move_tokens (SinglePool.token pool) (callee ctx) bettor 1900 _
                 (not_eq_sym Hne)).
    + destruct (0 <? u64 (houseAmount pool)); repeat log_simpl;
        rewrite <- ?app_assoc; rewrite drop_app_length; cbn;
        rewrite bool_decide_eq_true_2 by done; reflexivity.
Qed.

(** Scenario A played: Alice stakes 1000 on A, Bob 1000 on B, the pool is
    closed and settled with A. *)
Definition scenario_A_world : World :=
  run (open_pool
         ++ [ (by_ "alice" 3, Market (PlaceSingleBet "p" 0 1000));
              (by_ "bob" 4, Market (PlaceSingleBet "p" 1 1000)) ]
         ++ close_and_settle 0)
    funded_world.

Lemma scenario_A_witness :
  exists pool,
    storage scenario_A_world !! spoolKey "p" = Some (VSinglePool pool)
    /\ SinglePool.outcomeAOddsFP pool = 1900000
    /\ SinglePool.outcomeBOddsFP pool = 1900000
    /\ is_ok (prediction_claimSingleBet (by_ "carol" 102) "p" "alice" scenario_A_world) = true
    /\ balance_of scenario_A_world "TOK" "alice" = 4000
    /\ balance_of (exec (prediction_claimSingleBet (by_ "carol" 102) "p" "alice") scenario_A_world) (SinglePool.token pool) "alice"
       = balance_of scenario_A_world (SinglePool.token pool) "alice" + 1900
    /\ paid_to "alice"
         (drop (length (log scenario_A_world)) (log (exec (prediction_claimSingleBet (by_ "carol" 102) "p" "alice") scenario_A_world))) = [1900].
Proof.
  eexists.
  split; [vm_compute; reflexivity|].
  split; [reflexivity|]. split; [reflexivity|].
  split; [vm_compute; reflexivity|].
  split; [vm_compute; reflexivity|].
  match goal with
  | |- context [SinglePool.token ?p] =>
      destruct (scenario_A (by_ "carol" 102) "p" p scenario_A_world
                  (exec (prediction_claimSingleBet (by_ "carol" 102) "p" "alice") scenario_A_world) tt) as (_ & _ & H)
  end.
  { repeat split; reflexivity. }
  { vm_compute. reflexivity. }
  eapply H.
  - reflexivity.
  - vm_compute. reflexivity.
  - reflexivity.
  - reflexivity.
  - vm_compute. reflexivity.
  - discriminate.
  - apply is_ok_exec. vm_compute. reflexivity.
Defined.

(** The pool [p] right after it was opened. *)
Definition open_world : World := run open_pool funded_world.

Lemma outcome_not_validated_witness :
  succeeds (prediction_placeSingleBet (by_ "alice" 3) "p" 1 1000) open_world
  /\ succeeds (prediction_placeSingleBet (by_ "alice" 3) "p" 7 1000) open_world.
Proof.
  assert (H : succeeds (prediction_placeSingleBet (by_ "alice" 3) "p" 1 1000) open_world).
  { eapply succeeds_Ok. apply is_ok_exec. vm_compute. reflexivity. }
  split; [exact H|].
  exact (proj1 (outcome_not_validated (by_ "alice" 3) "p" 1 1000 open_world) 7 H).
Defined.

(** Alice stakes 1000 with outcome argument 256, whose byte is 0. *)
Definition byte_world : World :=
  run (open_pool ++ [ (by_ "alice" 3, Market (PlaceSingleBet "p" 256 1000)) ]) funded_world.

(** Alice stakes 1000 on outcome 7, Bob 1000 on outcome A, and the settler
    settles the pool with 7. *)
Definition seven_world : World :=
  run (open_pool
         ++ [ (by_ "alice" 3, Market (PlaceSingleBet "p" 7 1000));
              (by_ "bob" 4, Market (PlaceSingleBet "p" 0 1000)) ]
         ++ close_and_settle 7)
    funded_world.

(** Against C9 as stated: an outcome argument other than 0 can be credited
    to outcome A (256 is), and a bet whose outcome is outside {0,1} can win:
    a pool settled with 7 pays the bet on 7. *)
Lemma outcome_credited_to_A_or_paid :
  (exists pool,
      storage byte_world !! spoolKey "p" = Some (VSinglePool pool)
      /\ SinglePool.outcomeABets pool = 1000 /\ SinglePool.outcomeBBets pool = 0)
  /\ (exists bet,
         storage seven_world !! sbetKey "p" "alice" = Some (VSingleBet bet)
         /\ SingleBet.outcome bet = 7
         /\ is_ok (prediction_claimSingleBet (by_ "alice" 102) "p" "alice" seven_world) = true
         /\ balance_of seven_world "TOK" "alice" = 4000
         /\ balance_of (exec (prediction_claimSingleBet (by_ "alice" 102) "p" "alice")
                          seven_world) "TOK" "alice" = 5900).
Proof.
  split.
  - eexists. split; [vm_compute; reflexivity|]. split; reflexivity.
  - eexists. split; [vm_compute; reflexivity|].
    split; [reflexivity|]. repeat split; vm_compute; reflexivity.
Qed.

(** ** A second bet by the same bettor *)

(** Alice has staked 1000 on outcome A. *)
Definition one_bet_world : World :=
  run (open_pool ++ [ (by_ "alice" 3, Market (PlaceSingleBet "p" 0 1000)) ]) funded_world.

(** C1 fails on the code.  [placeSingleBet] never looks for an existing
    bet: with Alice's bet of 1000 on A recorded, her second bet of 500 on B
    goes through, the pool totals grow to 1500 (1000 on A, 500 on B), 500
    more tokens are pulled from her, and the stored bet is overwritten by
    the second one. *)
Theorem second_bet_accepted :
  let second := prediction_placeSingleBet (by_ "alice" 4) "p" 1 500 in
  storage one_bet_world !! sbetKey "p" "alice"
  = Some (VSingleBet (SingleBet.mk "alice" "p" 1000 0 false 3))
  /\ is_ok (second one_bet_world) = true
  /\ storage (exec second one_bet_world) !! sbetKey "p" "alice"
     = Some (VSingleBet (SingleBet.mk "alice" "p" 500 1 false 4))
  /\ (exists pool,
         storage (exec second one_bet_world) !! spoolKey "p" = Some (VSinglePool pool)
         /\ SinglePool.totalPool pool = 1500
         /\ SinglePool.outcomeABets pool = 1000
         /\ SinglePool.outcomeBBets pool = 500)
  /\ balance_of one_bet_world "TOK" "alice" = 4000
  /\ balance_of (exec second one_bet_world) "TOK" "alice" = 3500.
Proof.
  cbv zeta.
  split; [vm_compute; reflexivity|].
  split; [vm_compute; reflexivity|].
  split; [vm_compute; reflexivity|].
  split; [eexists; split; [vm_compute; reflexivity|]; repeat split; reflexivity|].
  split; vm_compute; reflexivity.
Qed.

(** ** A parlay leg on a pool whose id holds the separator *)

(** Pools [p] and [p|1] both hold 1000 on each side and are closed; Carol
    places a one-leg parlay of 100 on outcome A of [p|1]; then both pools
    are settled with outcome B. *)
Definition parlay_world : World :=
  run [ (mkCtx "admin" "market" 0 true, Market MarketConstructor);
        (by_ "admin" 1, Market (SetAuthorizedSettler "oracle"));
        (by_ "admin" 2, Market (CreateSinglePool "p" "duel" "TOK" 100));
        (by_ "admin" 2, Market (CreateSinglePool "p|1" "rematch" "TOK" 100));
        (by_ "admin" 2, Market (CreateMultipool "m" "TOK"));
        (by_ "alice" 3, Market (PlaceSingleBet "p" 0 1000));
        (by_ "bob" 4, Market (PlaceSingleBet "p" 1 1000));
        (by_ "alice" 5, Market (PlaceSingleBet "p|1" 0 1000));
        (by_ "bob" 6, Market (PlaceSingleBet "p|1" 1 1000));
        (by_ "admin" 100, Market (CloseSinglePool "p"));
        (by_ "admin" 100, Market (CloseSinglePool "p|1"));
        (by_ "carol" 101, Market (PlaceMultibet "s1" "m" 100 [("p|1", 0)]));
        (by_ "oracle" 102, Market (SettleSinglePool "p" 1));
        (by_ "oracle" 102, Market (SettleSinglePool "p|1" 1)) ]
    funded_world.

(** C7 fails on the code for such a leg.  The betslip records the leg as
    the text [p|1|0|1900000]; [checkBetslipWinner] splits it at every bar
    and so reads pool [p] with outcome 1.  The leg, placed on outcome A of
    pool [p|1], lost (that pool was settled with B), and yet the betslip is
    marked a winner and its weight is added to the winners' weight. *)
Theorem parlay_leg_misread :
  let checked := exec (prediction_checkBetslipWinner "s1") parlay_world in
  (exists slip,
      storage parlay_world !! betslipKey "s1" = Some (VBetslip slip)
      /\ Betslip.selections slip = ["p|1|0|1900000"]
      /\ Betslip.combinedOddsFP slip = 1900000
      /\ Betslip.weightFP slip = 190)
  /\ (exists pool,
         storage parlay_world !! spoolKey "p|1" = Some (VSinglePool pool)
         /\ SinglePool.isSettled pool = true
         /\ SinglePool.winningOutcome pool = 1)
  /\ is_ok (prediction_checkBetslipWinner "s1" parlay_world) = true
  /\ (exists slip,
         storage checked !! betslipKey "s1" = Some (VBetslip slip)
         /\ Betslip.isAccounted slip = true
         /\ Betslip.isWinner slip = true)
  /\ (exists mp,
         storage checked !! mpoolKey "m" = Some (VMultipool mp)
         /\ Multipool.totalWinnerWeightFP mp = 190).
Proof.
  cbv zeta.
  split; [eexists; split; [vm_compute; reflexivity|]; repeat split; reflexivity|].
  split; [eexists; split; [vm_compute; reflexivity|]; repeat split; reflexivity|].
  split; [vm_compute; reflexivity|].
  split; [eexists; split; [vm_compute; reflexivity|]; repeat split; reflexivity|].
  eexists; split; [vm_compute; reflexivity|]; reflexivity.
Qed.

(** ** The order of effects in a claim

    A call is followed to its end, whether it returns or aborts:
    [world_of] is the world at that point, with the log of everything the
    call did. *)



















(** *** The primitives *)








































(** ** Payouts against the payout pool *)

Lemma payoutPool_nonneg (pool : SinglePool.t) : 0 <= payoutPool pool.
Proof. unfold payoutPool, u128_sub, u128, wrap. apply Z.mod_pos_bound. lia. Qed.

Lemma payoutU_le (pool : SinglePool.t) (bet : SingleBet.t) :
  0 < winnerTotal pool -> 0 <= SingleBet.amount bet ->
  0 <= u64 (payoutU pool bet)
  /\ u64 (payoutU pool bet) <= payoutPool pool * SingleBet.amount bet / winnerTotal pool.
Proof.
  intros Hw Ha. pose proof (payoutPool_nonneg pool) as Hp.
  unfold payoutU, u128_div, u128_mul, u128, u64, wrap.
  set (x := payoutPool pool * SingleBet.amount bet).
  assert (0 <= x) by (unfold x; nia).
  assert (0 <= x mod 2 ^ 128 <= x).
  { split; [apply Z.mod_pos_bound; lia | apply Z.mod_le; lia]. }
  assert (0 <= x mod 2 ^ 128 / winnerTotal pool <= x / winnerTotal pool).
  { split; [apply Z.div_pos; lia | apply Z.div_le_mono; lia]. }
  split; [apply Z.mod_pos_bound; lia|].
  etransitivity; [apply Z.mod_le; lia | lia].
Qed.

(** What the bets of a list are paid in all, and what they staked. *)
Definition total_payout (pool : SinglePool.t) (bets : list SingleBet.t) : Z :=
  foldr (fun bet acc => u64 (payoutU pool bet) + acc) 0 bets.

Definition total_stake (bets : list SingleBet.t) : Z :=
  foldr (fun bet acc => SingleBet.amount bet + acc) 0 bets.

(** Rounding favours the house: bets whose stakes add up to at most the
    stake recorded on the winning side are paid at most the payout pool in
    all. *)
Lemma payouts_within_pool (pool : SinglePool.t) (bets : list SingleBet.t) :
  0 < winnerTotal pool ->
  Forall (fun bet => 0 <= SingleBet.amount bet) bets ->
  total_stake bets <= winnerTotal pool ->
  total_payout pool bets <= payoutPool pool.
Proof.
  intros Hw Hpos Hsum. pose proof (payoutPool_nonneg pool) as Hp.
  assert (H : total_payout pool bets <= payoutPool pool * total_stake bets / winnerTotal pool
              /\ 0 <= total_stake bets).
  { clear Hsum. unfold total_payout, total_stake.
    induction Hpos as [|bet rest Hb _ IH]; cbn [foldr].
    - rewrite Z.mul_0_r, Z.div_0_l by lia. lia.
    - destruct IH as [IH1 IH2]. split; [|lia].
      destruct (payoutU_le pool bet Hw Hb) as [_ Hu].
      etransitivity; [apply Z.add_le_mono; [exact Hu | exact IH1]|].
      rewrite Z.mul_add_distr_l.
      set (a := payoutPool pool * SingleBet.amount bet).
      set (b := payoutPool pool * foldr _ 0 rest).
      set (c := winnerTotal pool).
      assert (0 <= a) by (unfold a; nia). assert (0 <= b) by (unfold b; nia).
      assert (c * (a / c) <= a) by (apply Z.mul_div_le; lia).
      assert (c * (b / c) <= b) by (apply Z.mul_div_le; lia).
      apply Z.div_le_lower_bound; [lia|]. rewrite Z.mul_add_distr_l. lia. }
  destruct H as [H _]. etransitivity; [exact H|].
  apply Z.div_le_upper_bound; [lia|]. nia.
Qed.

(** ** A bet read through the key of another pool *)

(** Pool [a] holds 100 on each side.  Pool [a:x] holds Carol's 100 on A
    and Bob's 400 on B.  Pool [a] is closed and settled with A. *)
Definition collision_world : World :=
  run [ (mkCtx "admin" "market" 0 true, Market MarketConstructor);
        (by_ "admin" 1, Market (SetAuthorizedSettler "oracle"));
        (by_ "admin" 2, Market (CreateSinglePool "a" "duel" "TOK" 100));
        (by_ "carol" 2, Market (CreateSinglePool "a:x" "duel" "TOK" 100));
        (by_ "alice" 3, Market (PlaceSingleBet "a" 0 100));
        (by_ "bob" 4, Market (PlaceSingleBet "a" 1 100));
        (by_ "carol" 5, Market (PlaceSingleBet "a:x" 0 100));
        (by_ "bob" 6, Market (PlaceSingleBet "a:x" 1 400));
        (by_ "admin" 100, Market (CloseSinglePool "a"));
        (by_ "oracle" 101, Market (SettleSinglePool "a" 0)) ]
    funded_world.

(** C2 fails on the code.  The key of a bet joins pool id and bettor with
    a colon, so the key of Carol's bet on pool [a:x] is also the key of a
    bet of [x:carol] on pool [a].  Pool [a] has a payout pool of 190 and
    one winning bet, Alice's; her claim is paid 190, and the claim for
    [x:carol] on pool [a] is paid another 190 out of the same formula:
    380 in all against a payout pool of 190. *)
Theorem payouts_exceed_pool :
  let first := prediction_claimSingleBet (by_ "alice" 102) "a" "alice" in
  let second := prediction_claimSingleBet (by_ "carol" 103) "a" "x:carol" in
  (exists pool,
      storage collision_world !! spoolKey "a" = Some (VSinglePool pool)
      /\ SinglePool.isSettled pool = true
      /\ payoutPool pool = 190)
  /\ sbetKey "a" "x:carol" = sbetKey "a:x" "carol"
  /\ is_ok (first collision_world) = true
  /\ is_ok (second (exec first collision_world)) = true
  /\ paid_to "alice"
       (drop (length (log collision_world)) (log (exec second (exec first collision_world))))
     = [190]
  /\ paid_to "x:carol"
       (drop (length (log collision_world)) (log (exec second (exec first collision_world))))
     = [190].
Proof.
  cbv zeta.
  split; [eexists; split; [vm_compute; reflexivity|]; split; reflexivity|].
  split; [reflexivity|].
  repeat split; vm_compute; reflexivity.
Qed.

(** * Further properties of the code *)

(** ** The reentrancy flag is always released *)

Definition unlocked (k : string) (_ : Value) : Prop := k <> LOCKED_KEY.

Definition whatever (_ : string) (_ : Value) : Prop := True.

Lemma keeps_whatever {A : Type} (g : string -> Value -> Prop) (c : M A) :
  keeps g whatever c (fun _ => True).
Proof. intros w _. unfold wp. destruct (c w); [|done]. split; [|done]. by intros k v _. Qed.

Lemma keeps_unlock (g : string -> Value -> Prop) :
  keeps g unlocked endNonReentrant (fun _ => True).
Proof.
  intros w _. cbn. split; [|done]. intros k v. cbn. rewrite lookup_delete.
  case_decide; [done|]. intros _. unfold unlocked. congruence.
Qed.

Ltac unlocked_side := intros; unfold unlocked, serializeBetslip; key_neq.

(** One step towards the release of the flag: up to [nonReentrant] the
    flag is clear, from there to [endNonReentrant] nothing is known, and
    after it the flag is clear again. *)
Ltac lstep :=
  lazymatch goal with
  | |- keeps _ unlocked (bind endNonReentrant _) _ =>
      eapply keeps_bind; [apply keeps_unlock | intros _ _]
  | |- keeps _ unlocked endNonReentrant _ => apply keeps_unlock
  | |- keeps unlocked unlocked (bind nonReentrant _) _ =>
      eapply keeps_bind; [apply keeps_whatever | intros _ _]
  | |- keeps whatever unlocked (match ?b with _ => _ end) _ => destruct b eqn:?
  | |- keeps whatever unlocked (bind _ _) _ =>
      eapply keeps_bind; [apply keeps_whatever | intros ? _]
  | |- keeps whatever unlocked (abort _) _ => apply keeps_abort
  | |- keeps unlocked unlocked (bind (match ?b with _ => _ end) _) _ =>
      eapply (keeps_bind unlocked _ _ _ (fun _ => True)); [destruct b eqn:? | intros _ _]
  | |- keeps unlocked unlocked _ _ => kstep
  end.

Lemma game_call_unlocks (ctx : Ctx) (c : GameCall) :
  keeps unlocked unlocked (game_call ctx c) (fun _ => True).
Proof.
  destruct c; cbn [game_call].
  - unfold game_constructor. repeat lstep; try unlocked_side.
  - unfold game_createCharacter. repeat lstep; try unlocked_side.
  - unfold game_createBattle. repeat lstep; try unlocked_side.
  - unfold game_executeTurn. repeat lstep; try unlocked_side.
  - unfold game_decideWildcard. repeat lstep; try unlocked_side.
  - unfold game_finalizeBattle. repeat lstep; try unlocked_side.
  - unfold game_setPaused. repeat lstep; try unlocked_side.
  - unfold game_grantSettler. repeat lstep; try unlocked_side.
  - unfold game_upgradeCharacter. repeat lstep; try unlocked_side.
  - unfold game_grantXP. repeat lstep; try unlocked_side.
  - unfold game_healCharacter. repeat lstep; try unlocked_side.
  - unfold game_createEquipment. repeat lstep; try unlocked_side.
  - unfold game_equipItem. repeat lstep; try unlocked_side.
  - unfold game_transferEquipment. repeat lstep; try unlocked_side.
  - unfold game_learnSkill. repeat lstep; try unlocked_side.
  - unfold game_equipSkill. repeat lstep; try unlocked_side.
  - unfold game_addToTreasury. repeat lstep; try unlocked_side.
  - unfold game_withdrawTreasury. repeat lstep; try unlocked_side.
Qed.

Lemma prediction_call_unlocks (ctx : Ctx) (c : MarketCall) :
  keeps unlocked unlocked (prediction_call ctx c) (fun _ => True).
Proof.
  destruct c; cbn [prediction_call].
  - unfold prediction_constructor. repeat lstep; try unlocked_side.
  - unfold prediction_createSinglePool. repeat lstep; try unlocked_side.
  - unfold prediction_placeSingleBet. repeat lstep; try unlocked_side.
  - unfold prediction_closeSinglePool. repeat lstep; try unlocked_side.
  - unfold prediction_settleSinglePool. repeat lstep; try unlocked_side.
  - unfold prediction_claimSingleBet. repeat lstep; try unlocked_side.
  - unfold prediction_setAuthorizedSettler. repeat lstep; try unlocked_side.
  - unfold prediction_setPaused. repeat lstep; try unlocked_side.
  - unfold prediction_createMultipool. repeat lstep; try unlocked_side.
  - unfold prediction_placeMultibet. repeat lstep; try unlocked_side.
  - unfold prediction_checkBetslipWinner. repeat lstep; try unlocked_side.
  - unfold prediction_finalizeMultipool. repeat lstep; try unlocked_side.
  - unfold prediction_claimMultibet. repeat lstep; try unlocked_side.
Qed.

Lemma propbet_call_unlocks (ctx : Ctx) (c : PropCall) :
  keeps unlocked unlocked (propbet_call ctx c) (fun _ => True).
Proof.
  destruct c; cbn [propbet_call].
  - unfold propbet_createProp. repeat lstep; try unlocked_side.
  - unfold propbet_placeBet. repeat lstep; try unlocked_side.
  - unfold propbet_resolveProp. repeat lstep; try unlocked_side.
  - unfold propbet_claimProp. repeat lstep; try unlocked_side.
Qed.

Lemma reach_stores (g : string -> Value -> Prop) (who : string -> Prop) (n : nat) (w : World) :
  (forall ctx c, keeps g g (call ctx c) (fun _ => True)) -> reach who n w -> stores g w.
Proof.
  intros Hg. induction 1 as [w E | n w ctx c _ _ IH | n w bal alw _ IH].
  - intros k v. rewrite E, lookup_empty. discriminate.
  - by eapply keeps_exec; [|apply Hg|exact IH].
  - exact IH.
Qed.

(** Nothing leaves the flag set: it is clear in every state between two
    calls, so the guard of [nonReentrant] never turns a caller away. *)
Theorem lock_released (who : string -> Prop) (n : nat) (w : World) :
  reach who n w ->
  storage w !! LOCKED_KEY = None /\ nonReentrant w = Ok tt (write LOCKED_KEY (VText "true") w).
Proof.
  intros Hreach.
  assert (Hw : stores unlocked w).
  { eapply reach_stores; [|exact Hreach]. intros ctx c. destruct c; cbn [call].
    - apply game_call_unlocks.
    - apply prediction_call_unlocks.
    - apply propbet_call_unlocks. }
  assert (E : storage w !! LOCKED_KEY = None).
  { destruct (storage w !! LOCKED_KEY) as [v|] eqn:E; [|done]. by destruct (Hw _ _ E). }
  split; [done|]. unfold nonReentrant, bind, hasKey. rewrite E. reflexivity.
Qed.

Lemma scenario_A_reach : reach anyone 7 scenario_A_world.
Proof.
  unfold scenario_A_world, open_pool, close_and_settle. cbn [app].
  by eapply (reach_run anyone _ 0); [repeat constructor | apply genesis | reflexivity].
Qed.

Lemma lock_released_witness :
  storage scenario_A_world !! LOCKED_KEY = None
  /\ nonReentrant scenario_A_world = Ok tt (write LOCKED_KEY (VText "true") scenario_A_world).
Proof. exact (lock_released anyone 7 scenario_A_world scenario_A_reach). Defined.

(** ** Roles that nobody holds

    The constructors write the admin role of the deployer; no entry point
    writes a key of the pauser or of the settler role. *)

Definition roleKey (role addr : string) : string := role +:+ ":" +:+ addr.

(** No pause flag, no pauser, no settler, no resolved prop bet. *)
Definition idle (k : string) (v : Value) : Prop :=
  k <> PAUSED_KEY
  /\ (forall addr, k <> roleKey PAUSER_ROLE addr)
  /\ (forall addr, k <> roleKey SETTLER_ROLE addr)
  /\ (forall p, v = VPropBet p -> PropBet.isResolved p = false).

Lemma absent_of_stores (g : string -> Value -> Prop) (w : World) (k : string) :
  (forall v, ~ g k v) -> stores g w -> storage w !! k = None.
Proof.
  intros Hk Hw. destruct (storage w !! k) as [v|] eqn:E; [|done]. destruct (Hk v). eauto.
Qed.

Lemma onlyRole_absent (ctx : Ctx) (role : string) (w : World) :
  storage w !! roleKey role (caller ctx) = None ->
  onlyRole ctx role w = Abort "Access denied: missing role" w.
Proof. unfold onlyRole, roleKey, bind, hasKey. by intros ->. Qed.

Lemma keeps_closed_gate {A : Type} (g g' : string -> Value -> Prop) (ctx : Ctx)
    (role : string) (k : unit -> M A) (R : A -> Prop) :
  (forall v, ~ g (roleKey role (caller ctx)) v) -> keeps g g' (bind (onlyRole ctx role) k) R.
Proof.
  intros Hk w Hw. unfold wp, bind.
  rewrite onlyRole_absent by (eapply absent_of_stores; eauto). exact I.
Qed.

Lemma no_pauser (ctx : Ctx) (v : Value) : ~ idle (roleKey PAUSER_ROLE (caller ctx)) v.
Proof. intros (_ & H & _). by destruct (H (caller ctx)). Qed.

Lemma no_settler (ctx : Ctx) (v : Value) : ~ idle (roleKey SETTLER_ROLE (caller ctx)) v.
Proof. intros (_ & _ & H & _). by destruct (H (caller ctx)). Qed.

Ltac idle_side :=
  intros; cbn beta in *; subst; unfold serializeBetslip; cbv zeta;
  repeat match goal with
  | H : idle _ (VPropBet _) |- _ => destruct H as (_ & _ & _ & H); specialize (H _ eq_refl)
  end;
  split; [key_neq|]; split; [let a := fresh in intros a; unfold roleKey; key_neq|];
  split; [let a := fresh in intros a; unfold roleKey; key_neq|];
  let p := fresh in
  let E := fresh in
  intros p E; first [ discriminate E | injection E as <-; repeat case_match; done ].

Lemma game_call_idle (ctx : Ctx) (c : GameCall) :
  keeps idle idle (game_call ctx c) (fun _ => True).
Proof.
  destruct c; cbn [game_call].
  - unfold game_constructor. repeat kstep; idle_side.
  - unfold game_createCharacter. repeat kstep; idle_side.
  - unfold game_createBattle. repeat kstep; idle_side.
  - unfold game_executeTurn. repeat kstep; idle_side.
  - unfold game_decideWildcard. repeat kstep; idle_side.
  - unfold game_finalizeBattle. repeat kstep; idle_side.
  - unfold game_setPaused. apply keeps_closed_gate, no_pauser.
  - unfold game_grantSettler. repeat kstep; idle_side.
  - unfold game_upgradeCharacter. repeat kstep; idle_side.
  - unfold game_grantXP. repeat kstep; idle_side.
  - unfold game_healCharacter. repeat kstep; idle_side.
  - unfold game_createEquipment. repeat kstep; idle_side.
  - unfold game_equipItem. repeat kstep; idle_side.
  - unfold game_transferEquipment. repeat kstep; idle_side.
  - unfold game_learnSkill. repeat kstep; idle_side.
  - unfold game_equipSkill. repeat kstep; idle_side.
  - unfold game_addToTreasury. repeat kstep; idle_side.
  - unfold game_withdrawTreasury. repeat kstep; idle_side.
Qed.

Lemma prediction_call_idle (ctx : Ctx) (c : MarketCall) :
  keeps idle idle (prediction_call ctx c) (fun _ => True).
Proof.
  destruct c; cbn [prediction_call].
  - unfold prediction_constructor. repeat kstep; idle_side.
  - unfold prediction_createSinglePool. repeat kstep; idle_side.
  - unfold prediction_placeSingleBet. repeat kstep; idle_side.
  - unfold prediction_closeSinglePool. repeat kstep; idle_side.
  - unfold prediction_settleSinglePool, isAuthorizedSettler. repeat kstep; idle_side.
  - unfold prediction_claimSingleBet. repeat kstep; idle_side.
  - unfold prediction_setAuthorizedSettler. repeat kstep; idle_side.
  - unfold prediction_setPaused. apply keeps_closed_gate, no_pauser.
  - unfold prediction_createMultipool. repeat kstep; idle_side.
  - unfold prediction_placeMultibet. repeat kstep; idle_side.
  - unfold prediction_checkBetslipWinner. repeat kstep; idle_side.
  - unfold prediction_finalizeMultipool. repeat kstep; idle_side.
  - unfold prediction_claimMultibet. repeat kstep; idle_side.
Qed.

Lemma propbet_call_idle (ctx : Ctx) (c : PropCall) :
  keeps idle idle (propbet_call ctx c) (fun _ => True).
Proof.
  destruct c; cbn [propbet_call].
  - unfold propbet_createProp. repeat kstep; idle_side.
  - unfold propbet_placeBet. repeat kstep; idle_side.
  - unfold propbet_resolveProp. do 2 kstep. apply keeps_closed_gate, no_settler.
  - unfold propbet_claimProp. repeat kstep; idle_side.
Qed.

Lemma reach_idle (who : string -> Prop) (n : nat) (w : World) : reach who n w -> stores idle w.
Proof.
  apply reach_stores. intros ctx c. destruct c; cbn [call].
  - apply game_call_idle.
  - apply prediction_call_idle.
  - apply propbet_call_idle.
Qed.

Lemma whenNotPaused_run (w : World) : storage w !! PAUSED_KEY = None -> whenNotPaused w = Ok tt w.
Proof. unfold whenNotPaused, getBool, getString, bind, hasKey. by intros ->. Qed.

(** The pause switch cannot be thrown.  In every state the contract
    reaches nobody holds the pauser role and the pause flag is absent:
    [game_setPaused] and [prediction_setPaused] abort for every caller, and
    [whenNotPaused] lets every call through. *)
Theorem never_paused (who : string -> Prop) (n : nat) (w : World) (ctx : Ctx) (paused : bool) :
  reach who n w ->
  storage w !! roleKey PAUSER_ROLE (caller ctx) = None
  /\ storage w !! PAUSED_KEY = None
  /\ is_ok (game_setPaused ctx paused w) = false
  /\ is_ok (prediction_setPaused ctx paused w) = false
  /\ whenNotPaused w = Ok tt w.
Proof.
  intros Hreach. pose proof (reach_idle who n w Hreach) as Hw.
  assert (Hrole : storage w !! roleKey PAUSER_ROLE (caller ctx) = None).
  { eapply absent_of_stores; [|exact Hw]. apply no_pauser. }
  assert (Hflag : storage w !! PAUSED_KEY = None).
  { eapply absent_of_stores; [|exact Hw]. intros v (H & _). done. }
  split; [done|]. split; [done|].
  unfold game_setPaused, prediction_setPaused, bind.
  rewrite (onlyRole_absent ctx PAUSER_ROLE w Hrole).
  repeat split. by apply whenNotPaused_run.
Qed.

Lemma never_paused_witness :
  is_ok (game_setPaused (mkCtx "admin" "market" 200 false) true scenario_A_world) = false
  /\ whenNotPaused scenario_A_world = Ok tt scenario_A_world.
Proof.
  pose proof (never_paused anyone 7 scenario_A_world (mkCtx "admin" "market" 200 false) true
                scenario_A_reach) as (_ & _ & H1 & _ & H2).
  split; [exact H1 | exact H2].
Defined.

Lemma deserializePropBet_Ok (v : Value) (w w' : World) (p : PropBet.t) :
  deserializePropBet v w = Ok p w' -> w' = w /\ v = VPropBet p.
Proof. destruct v; try discriminate. intros Hx. inversion Hx. done. Qed.

Lemma deserializePropTicket_Ok (v : Value) (w w' : World) (t : PropTicket.t) :
  deserializePropTicket v w = Ok t w' -> w' = w /\ v = VPropTicket t.
Proof. destruct v; try discriminate. intros Hx. inversion Hx. done. Qed.

Lemma deserializeBattle_Ok (v : Value) (w w' : World) (b : Battle.t) :
  deserializeBattle v w = Ok b w' -> w' = w /\ v = VBattle b.
Proof. destruct v; try discriminate. intros Hx. inversion Hx. done. Qed.

Lemma deserializeEquipment_Ok (v : Value) (w w' : World) (e : Equipment.t) :
  deserializeEquipment v w = Ok e w' -> w' = w /\ v = VEquipment e.
Proof. destruct v; try discriminate. intros Hx. inversion Hx. done. Qed.

Ltac minv3 H :=
  first
    [ minv2 H
    | apply deserializePropBet_Ok in H as [-> ->]
    | apply deserializePropTicket_Ok in H as [-> ->]
    | apply deserializeBattle_Ok in H as [-> ->]
    | apply deserializeEquipment_Ok in H as [-> ->] ].

Ltac minv'' H :=
  repeat
    (let a := fresh "a" in
     let w1 := fresh "w" in
     let H1 := fresh "H" in
     apply bind_Ok in H as (a & w1 & H1 & H); try minv3 H1);
  try minv3 H.

(** Lookups in a world seen through the writes of the running call. *)
Ltac peel_lock :=
  repeat match goal with
  | Hx : negb _ = true |- _ => apply negb_true_iff in Hx
  | Hx : storage (write LOCKED_KEY _ _) !! _ = _ |- _ =>
      rewrite storage_write, lookup_insert_ne in Hx by key_neq
  | Hx : is_Some (storage (write LOCKED_KEY _ _) !! _) |- _ =>
      rewrite storage_write, lookup_insert_ne in Hx by key_neq
  | Hx : bool_decide _ = true |- _ => apply bool_decide_eq_true in Hx
  end.

(** ** Prop bets cannot be resolved

    [propbet_resolveProp] is for the settler role, which nobody holds: in
    every state the contract reaches no caller can resolve a prop bet,
    every stored prop bet is unresolved, and [propbet_claimProp], which
    pays resolved props only, aborts for every caller; what was staked
    through [propbet_placeBet] cannot be claimed back. *)
Theorem props_never_resolved (who : string -> Prop) (n : nat) (w : World) (ctx : Ctx)
    (propId tokenAddr : string) (outcome : bool) :
  reach who n w ->
  storage w !! roleKey SETTLER_ROLE (caller ctx) = None
  /\ (forall p, storage w !! propBetKey propId = Some (VPropBet p) ->
                PropBet.isResolved p = false)
  /\ is_ok (propbet_resolveProp ctx propId outcome w) = false
  /\ is_ok (propbet_claimProp ctx propId tokenAddr w) = false.
Proof.
  intros Hreach. pose proof (reach_idle who n w Hreach) as Hw.
  assert (Hrole : storage w !! roleKey SETTLER_ROLE (caller ctx) = None).
  { eapply absent_of_stores; [|exact Hw]. apply no_settler. }
  assert (Hprop : forall p, storage w !! propBetKey propId = Some (VPropBet p) ->
                            PropBet.isResolved p = false).
  { intros p E. destruct (Hw _ _ E) as (_ & _ & _ & H). by apply H. }
  split; [done|]. split; [done|]. split.
  - destruct (propbet_resolveProp ctx propId outcome w) as [u w'|] eqn:E; [|done].
    exfalso. unfold propbet_resolveProp in E.
    do 3 (let a := fresh "a" in
          let w1 := fresh "w" in
          let H1 := fresh "H" in
          apply bind_Ok in E as (a & w1 & H1 & E); try minv3 H1).
    peel_lock. unfold roleKey in Hrole.
    match goal with Hx : is_Some _ |- _ => rewrite Hrole in Hx; by destruct Hx end.
  - destruct (propbet_claimProp ctx propId tokenAddr w) as [u w'|] eqn:E; [|done].
    exfalso. unfold propbet_claimProp in E. cbv zeta in E. minv'' E. peel_lock.
    match goal with
    | Hx : storage w !! propBetKey propId = Some (VPropBet ?p), Hy : PropBet.isResolved ?p = true
      |- _ => rewrite (Hprop _ Hx) in Hy; discriminate
    end.
Qed.

(** A prop bet on a duel, with Alice's stake of 300 on yes. *)
Definition prop_world : World :=
  run [ (mkCtx "admin" "market" 0 true, Game Constructor);
        (by_ "alice" 10, Game (CreateCharacter "mage" 2 "Mage"));
        (by_ "bob" 11, Game (CreateCharacter "rogue" 1 "Rogue"));
        (by_ "alice" 12, Game (CreateBattle "duel" "mage" "rogue" 20));
        (by_ "admin" 13, Prop_ (CreateProp "crit" "duel" 2 0 "a critical hit lands"));
        (by_ "alice" 14, Prop_ (PlaceProp "crit" 300 true "TOK")) ]
    funded_world.

Lemma prop_world_reach : reach anyone 6 prop_world.
Proof.
  unfold prop_world.
  by eapply (reach_run anyone _ 0); [repeat constructor | apply genesis | reflexivity].
Qed.

Lemma props_never_resolved_witness :
  storage prop_world !! propTicketKey "crit" "alice"
  = Some (VPropTicket (PropTicket.mk "crit" "alice" 300 true false 14))
  /\ balance_of prop_world "TOK" "market" = 300
  /\ is_ok (propbet_resolveProp (by_ "admin" 50) "crit" true prop_world) = false
  /\ is_ok (propbet_claimProp (by_ "alice" 60) "crit" "TOK" prop_world) = false.
Proof.
  split; [vm_compute; reflexivity|]. split; [vm_compute; reflexivity|].
  split.
  - exact (proj1 (proj2 (proj2 (props_never_resolved anyone 6 prop_world (by_ "admin" 50)
                                  "crit" "TOK" true prop_world_reach)))).
  - exact (proj2 (proj2 (proj2 (props_never_resolved anyone 6 prop_world (by_ "alice" 60)
                                  "crit" "TOK" true prop_world_reach)))).
Defined.

(** ** Calls for the admin *)

Ltac refuse_without Hrole :=
  match goal with
  | |- is_ok ?r = false =>
      let E := fresh "E" in
      destruct r eqn:E; [exfalso|reflexivity];
      cbv zeta in E; minv'' E; peel_lock; unfold roleKey in Hrole;
      match goal with Hx : is_Some _ |- _ => rewrite Hrole in Hx; by destruct Hx end
  end.

(** A caller without the admin role cannot grant a settler or XP, create
    equipment, withdraw from the treasury, authorise a market settler,
    finalize a multipool or create a prop bet: each of these calls
    aborts. *)
Theorem admin_only (ctx : Ctx) (w : World) :
  storage w !! roleKey ADMIN_ROLE (caller ctx) = None ->
  (forall addr, is_ok (game_grantSettler ctx addr w) = false)
  /\ (forall charId xp, is_ok (game_grantXP ctx charId xp w) = false)
  /\ (forall id owner type_ rarity,
         is_ok (game_createEquipment ctx id owner type_ rarity w) = false)
  /\ (forall amount token recipient,
         is_ok (game_withdrawTreasury ctx amount token recipient w) = false)
  /\ (forall addr, is_ok (prediction_setAuthorizedSettler ctx addr w) = false)
  /\ (forall id, is_ok (prediction_finalizeMultipool ctx id w) = false)
  /\ (forall propId battleId propType threshold description,
         is_ok (propbet_createProp ctx propId battleId propType threshold description w)
         = false).
Proof.
  intros Hrole. repeat split; intros.
  - unfold game_grantSettler. refuse_without Hrole.
  - unfold game_grantXP. refuse_without Hrole.
  - unfold game_createEquipment. refuse_without Hrole.
  - unfold game_withdrawTreasury. refuse_without Hrole.
  - unfold prediction_setAuthorizedSettler. refuse_without Hrole.
  - unfold prediction_finalizeMultipool. refuse_without Hrole.
  - unfold propbet_createProp. refuse_without Hrole.
Qed.

Lemma admin_only_witness :
  is_ok (game_grantXP (by_ "alice" 20) "mage" 1000 prop_world) = false
  /\ is_ok (game_withdrawTreasury (by_ "alice" 20) 1 "TOK" "alice" prop_world) = false.
Proof.
  assert (H : storage prop_world !! roleKey ADMIN_ROLE (caller (by_ "alice" 20)) = None)
    by (vm_compute; reflexivity).
  destruct (admin_only (by_ "alice" 20) prop_world H) as (_ & Hxp & _ & Hw & _).
  split; [apply Hxp | apply Hw].
Defined.

(** ** Placing a bet *)

Lemma balance_of_move_tokens_src (token src dst : string) (amount : Z) (w : World) :
  src <> dst ->
  balance_of (move_tokens token src dst amount w) token src = balance_of w token src - amount.
Proof.
  intros H. unfold move_tokens, balance_of. cbn.
  rewrite lookup_insert_ne by congruence. by rewrite lookup_insert_eq.
Qed.

(** [prediction_placeSingleBet] returns only for an open pool before its
    close time, for an amount within the pool's limits that the bettor owns
    and has approved; it then moves exactly that amount from the bettor to
    the contract and lowers the allowance by as much. *)
Theorem bet_accepted (ctx : Ctx) (poolId : string) (outcome amount : Z) (w w' : World)
    (u : unit) :
  prediction_placeSingleBet ctx poolId outcome amount w = Ok u w' ->
  caller ctx <> callee ctx ->
  exists pool,
    storage w !! spoolKey poolId = Some (VSinglePool pool)
    /\ SinglePool.isClosed pool = false
    /\ timestamp ctx < SinglePool.closeTs pool
    /\ SinglePool.minBetSize pool <= u64 amount
    /\ (0 < SinglePool.maxBetSize pool -> u64 amount <= SinglePool.maxBetSize pool)
    /\ u64 amount <= allowance_of w (SinglePool.token pool) (caller ctx) (callee ctx)
    /\ u64 amount <= balance_of w (SinglePool.token pool) (caller ctx)
    /\ balance_of w' (SinglePool.token pool) (caller ctx)
       = balance_of w (SinglePool.token pool) (caller ctx) - u64 amount
    /\ balance_of w' (SinglePool.token pool) (callee ctx)
       = balance_of w (SinglePool.token pool) (callee ctx) + u64 amount
    /\ allowance_of w' (SinglePool.token pool) (caller ctx) (callee ctx)
       = allowance_of w (SinglePool.token pool) (caller ctx) (callee ctx) - u64 amount.
Proof.
  intros H Hne.
  pose proof (placeSingleBet_Ok _ _ _ _ _ _ _ H) as (pool & Hpool & Hopen & Hts & _ & ->).
  exists pool. do 3 (split; [done|]).
  unfold prediction_placeSingleBet in H. cbv zeta in H.
  do 9 (let a := fresh "a" in
        let w1 := fresh "w" in
        let H1 := fresh "H" in
        apply bind_Ok in H as (a & w1 & H1 & H); try minv1 H1).
  peel_lock.
  match goal with
  | Hx : storage w !! spoolKey poolId = Some (VSinglePool ?p) |- _ =>
      rewrite Hpool in Hx; injection Hx as <-
  end.
  apply bind_Ok in H as (? & ? & Hmax & H).
  assert (Hmax' : 0 < SinglePool.maxBetSize pool -> u64 amount <= SinglePool.maxBetSize pool).
  { intros Hpos. apply Z.ltb_lt in Hpos. rewrite Hpos in Hmax.
    apply assert_Ok in Hmax as [Hm _]. by apply Z.leb_le. }
  apply guard_Ok in Hmax as [-> _].
  apply bind_Ok in H as (? & ? & Hcap & H). apply guard_Ok in Hcap as [-> _].
  do 5 (let a := fresh "a" in
        let w1 := fresh "w" in
        let H1 := fresh "H" in
        apply bind_Ok in H as (a & w1 & H1 & H); try minv2 H1).
  repeat match goal with
  | Hx : (_ <=? _) = true |- _ => apply Z.leb_le in Hx
  end.
  split; [done|]. split; [done|]. split; [done|]. split; [done|].
  split; [|split].
  - exact (balance_of_move_tokens_src (SinglePool.token pool) (caller ctx) (callee ctx)
             (u64 amount) _ Hne).
  - exact (balance_of_move_tokens (SinglePool.token pool) (caller ctx) (callee ctx)
             (u64 amount) _ Hne).
  - unfold placed, pull_tokens, allowance_of, move_tokens. cbn.
    by rewrite lookup_insert_eq.
Qed.

Lemma bet_accepted_witness :
  exists pool,
    storage open_world !! spoolKey "p" = Some (VSinglePool pool)
    /\ SinglePool.isClosed pool = false
    /\ 3 < SinglePool.closeTs pool
    /\ SinglePool.minBetSize pool <= u64 1000
    /\ (0 < SinglePool.maxBetSize pool -> u64 1000 <= SinglePool.maxBetSize pool)
    /\ u64 1000 <= allowance_of open_world (SinglePool.token pool) "alice" "market"
    /\ u64 1000 <= balance_of open_world (SinglePool.token pool) "alice"
    /\ balance_of (exec (prediction_placeSingleBet (by_ "alice" 3) "p" 0 1000) open_world)
         (SinglePool.token pool) "alice"
       = balance_of open_world (SinglePool.token pool) "alice" - u64 1000
    /\ balance_of (exec (prediction_placeSingleBet (by_ "alice" 3) "p" 0 1000) open_world)
         (SinglePool.token pool) "market"
       = balance_of open_world (SinglePool.token pool) "market" + u64 1000
    /\ allowance_of (exec (prediction_placeSingleBet (by_ "alice" 3) "p" 0 1000) open_world)
         (SinglePool.token pool) "alice" "market"
       = allowance_of open_world (SinglePool.token pool) "alice" "market" - u64 1000.
Proof.
  assert (H : is_ok (prediction_placeSingleBet (by_ "alice" 3) "p" 0 1000 open_world) = true)
    by (vm_compute; reflexivity).
  apply is_ok_exec in H.
  exact (bet_accepted (by_ "alice" 3) "p" 0 1000 open_world _ tt H ltac:(discriminate)).
Defined.

(** ** The game and the prop bets leave the market's records alone *)

(** A binding that is none of the market's records, under a key that is
    none of the market's record keys. *)
Definition off_market (k : string) (v : Value) : Prop :=
  (forall id, k <> spoolKey id)
  /\ (forall x, k <> SINGLE_BET_PREFIX +:+ x)
  /\ (forall id, k <> mpoolKey id)
  /\ (forall id, k <> betslipKey id)
  /\ match v with
     | VSinglePool _ | VSingleBet _ | VMultipool _ | VBetslip _ => False
     | _ => True
     end.

Ltac off_market_side Hg :=
  intros; apply Hg; cbn beta in *; subst;
  split; [let x := fresh in intros x; key_neq|];
  split; [let x := fresh in intros x; key_neq|];
  split; [let x := fresh in intros x; key_neq|];
  split; [let x := fresh in intros x; key_neq|];
  try exact I; repeat case_match; exact I.

Section GameFrames.

Context (g : string -> Value -> Prop) (Hg : forall k v, off_market k v -> g k v).

Lemma game_call_keeps (ctx : Ctx) (c : GameCall) :
  keeps g g (game_call ctx c) (fun _ => True).
Proof.
  destruct c; cbn [game_call].
  - unfold game_constructor. repeat kstep; off_market_side Hg.
  - unfold game_createCharacter. repeat kstep; off_market_side Hg.
  - unfold game_createBattle. repeat kstep; off_market_side Hg.
  - unfold game_executeTurn. repeat kstep; off_market_side Hg.
  - unfold game_decideWildcard. repeat kstep; off_market_side Hg.
  - unfold game_finalizeBattle. repeat kstep; off_market_side Hg.
  - unfold game_setPaused. repeat kstep; off_market_side Hg.
  - unfold game_grantSettler. repeat kstep; off_market_side Hg.
  - unfold game_upgradeCharacter. repeat kstep; off_market_side Hg.
  - unfold game_grantXP. repeat kstep; off_market_side Hg.
  - unfold game_healCharacter. repeat kstep; off_market_side Hg.
  - unfold game_createEquipment. repeat kstep; off_market_side Hg.
  - unfold game_equipItem. repeat kstep; off_market_side Hg.
  - unfold game_transferEquipment. repeat kstep; off_market_side Hg.
  - unfold game_learnSkill. repeat kstep; off_market_side Hg.
  - unfold game_equipSkill. repeat kstep; off_market_side Hg.
  - unfold game_addToTreasury. repeat kstep; off_market_side Hg.
  - unfold game_withdrawTreasury. repeat kstep; off_market_side Hg.
Qed.

Lemma propbet_call_keeps_market (ctx : Ctx) (c : PropCall) :
  keeps g g (propbet_call ctx c) (fun _ => True).
Proof.
  destruct c; cbn [propbet_call].
  - unfold propbet_createProp. repeat kstep; off_market_side Hg.
  - unfold propbet_placeBet. repeat kstep; off_market_side Hg.
  - unfold propbet_resolveProp. repeat kstep; off_market_side Hg.
  - unfold propbet_claimProp. repeat kstep; off_market_side Hg.
Qed.

End GameFrames.

(** ** The parameters and the life cycle of a pool *)

(** A stored pool sits under the key of its own id, has the parameters
    that [createSinglePool] gives every pool, and is settled only once
    closed. *)
Definition pool_ok (k : string) (v : Value) : Prop :=
  forall p, v = VSinglePool p ->
    k = spoolKey (SinglePool.poolId p)
    /\ SinglePool.houseEdgeBps p = 500
    /\ SinglePool.minBetSize p = 1
    /\ SinglePool.maxBetSize p = 0
    /\ SinglePool.maxPoolSize p = 0
    /\ (SinglePool.isSettled p = true -> SinglePool.isClosed p = true)
    /\ (SinglePool.isSettled p = false -> SinglePool.winningOutcome p = -1).

Lemma pool_ok_off_market (k : string) (v : Value) : off_market k v -> pool_ok k v.
Proof. intros (_ & _ & _ & _ & Hv) p ->. done. Qed.

Ltac pool_ok_side :=
  intros; cbn beta in *; subst; unfold serializeBetslip; cbv zeta;
  let p := fresh "p" in
  let E := fresh "E" in
  intros p E; first
    [ discriminate E
    | injection E as <-;
      repeat match goal with
      | H : pool_ok _ (VSinglePool _) |- _ =>
          specialize (H _ eq_refl); destruct H as (? & ? & ? & ? & ? & ? & ?)
      | H : negb _ = true |- _ => apply negb_true_iff in H
      end;
      repeat case_match; cbn in *; repeat split; first [done | congruence | intros; congruence] ].

Lemma prediction_call_pool_ok (ctx : Ctx) (c : MarketCall) :
  keeps pool_ok pool_ok (prediction_call ctx c) (fun _ => True).
Proof.
  destruct c; cbn [prediction_call].
  - unfold prediction_constructor. repeat kstep; pool_ok_side.
  - unfold prediction_createSinglePool. repeat kstep; pool_ok_side.
  - unfold prediction_placeSingleBet. repeat kstep; pool_ok_side.
  - unfold prediction_closeSinglePool. repeat kstep; pool_ok_side.
  - unfold prediction_settleSinglePool, isAuthorizedSettler. repeat kstep; pool_ok_side.
  - unfold prediction_claimSingleBet. repeat kstep; pool_ok_side.
  - unfold prediction_setAuthorizedSettler. repeat kstep; pool_ok_side.
  - unfold prediction_setPaused. repeat kstep; pool_ok_side.
  - unfold prediction_createMultipool. repeat kstep; pool_ok_side.
  - unfold prediction_placeMultibet. repeat kstep; pool_ok_side.
  - unfold prediction_checkBetslipWinner. repeat kstep; pool_ok_side.
  - unfold prediction_finalizeMultipool. repeat kstep; pool_ok_side.
  - unfold prediction_claimMultibet. repeat kstep; pool_ok_side.
Qed.

Lemma reach_pool_ok (who : string -> Prop) (n : nat) (w : World) :
  reach who n w -> stores pool_ok w.
Proof.
  apply reach_stores. intros ctx c. destruct c; cbn [call].
  - apply game_call_keeps, pool_ok_off_market.
  - apply prediction_call_pool_ok.
  - apply propbet_call_keeps_market, pool_ok_off_market.
Qed.

(** Relative to the storage [w0] at the start of a call: the pool keys
    hold what they held. *)
Definition pool_frame (w0 : World) (k : string) (v : Value) : Prop :=
  (forall id, k <> spoolKey id) \/ storage w0 !! k = Some v.

(** What a call may do to a pool once it is closed: settle it, once. *)
Definition evolves (p p' : SinglePool.t) : Prop :=
  SinglePool.isClosed p = true ->
  SinglePool.isClosed p' = true
  /\ SinglePool.totalPool p' = SinglePool.totalPool p
  /\ SinglePool.outcomeABets p' = SinglePool.outcomeABets p
  /\ SinglePool.outcomeBBets p' = SinglePool.outcomeBBets p
  /\ SinglePool.outcomeAOddsFP p' = SinglePool.outcomeAOddsFP p
  /\ SinglePool.outcomeBOddsFP p' = SinglePool.outcomeBOddsFP p
  /\ (SinglePool.isSettled p = true -> p' = p).

Definition pool_rel (w0 : World) (k : string) (v : Value) : Prop :=
  pool_frame w0 k v
  \/ (exists p p', storage w0 !! k = Some (VSinglePool p) /\ v = VSinglePool p' /\ evolves p p').

Lemma pool_frame_spoolKey (w0 : World) (id : string) (v : Value) :
  pool_frame w0 (spoolKey id) v -> storage w0 !! spoolKey id = Some v.
Proof. intros [H|H]; [by destruct (H id) | done]. Qed.

Lemma pool_frame_off_market (w0 : World) (k : string) (v : Value) :
  off_market k v -> pool_frame w0 k v.
Proof. intros (H & _). by left. Qed.

Ltac pool_frame_side :=
  intros; first [ left; let x := fresh in intros x; key_neq
                | left; left; let x := fresh in intros x; key_neq ].

Ltac pstep w0 :=
  lazymatch goal with
  | |- keeps (pool_frame _) _ (bind (setBytes (spoolKey _) _) _) _ =>
      eapply keeps_bind;
        [apply (keeps_setBytes_to (pool_rel w0)); [intros; by left|] | intros _ _]
  | _ => kstep
  end.

Ltac evolves_side :=
  cbn beta in *; subst;
  repeat match goal with
  | H : negb _ = true |- _ => apply negb_true_iff in H
  | H : pool_frame _ (spoolKey _) _ |- _ => apply pool_frame_spoolKey in H
  end;
  right; eexists; eexists; split; [eassumption|]; split; [reflexivity|];
  let Hc := fresh in
  intros Hc; first [ congruence | cbn; repeat split; try reflexivity; intros; congruence ].

Lemma prediction_call_pool_frames (w0 : World) (ctx : Ctx) (c : MarketCall) :
  (forall poolId battleId tokenAddr closeTs,
      c <> CreateSinglePool poolId battleId tokenAddr closeTs) ->
  keeps (pool_frame w0) (pool_rel w0) (prediction_call ctx c) (fun _ => True).
Proof.
  assert (Hsub : forall k v, pool_frame w0 k v -> pool_rel w0 k v) by (intros; by left).
  intros Hc. destruct c; cbn [prediction_call].
  - apply (keeps_post _ _ _ _ Hsub). unfold prediction_constructor.
    repeat kstep; pool_frame_side.
  - by destruct (Hc poolId battleId tokenAddr closeTs).
  - unfold prediction_placeSingleBet. repeat (pstep w0); try pool_frame_side. evolves_side.
  - unfold prediction_closeSinglePool. repeat (pstep w0); try pool_frame_side. evolves_side.
  - unfold prediction_settleSinglePool, isAuthorizedSettler.
    repeat (pstep w0); try pool_frame_side. evolves_side.
  - apply (keeps_post _ _ _ _ Hsub). unfold prediction_claimSingleBet.
    repeat kstep; pool_frame_side.
  - apply (keeps_post _ _ _ _ Hsub). unfold prediction_setAuthorizedSettler.
    repeat kstep; pool_frame_side.
  - apply (keeps_post _ _ _ _ Hsub). unfold prediction_setPaused.
    repeat kstep; pool_frame_side.
  - apply (keeps_post _ _ _ _ Hsub). unfold prediction_createMultipool.
    repeat kstep; pool_frame_side.
  - apply (keeps_post _ _ _ _ Hsub). unfold prediction_placeMultibet.
    repeat kstep; unfold serializeBetslip; pool_frame_side.
  - apply (keeps_post _ _ _ _ Hsub). unfold prediction_checkBetslipWinner.
    repeat kstep; unfold serializeBetslip; pool_frame_side.
  - apply (keeps_post _ _ _ _ Hsub). unfold prediction_finalizeMultipool.
    repeat kstep; pool_frame_side.
  - apply (keeps_post _ _ _ _ Hsub). unfold prediction_claimMultibet.
    repeat kstep; unfold serializeBetslip; pool_frame_side.
Qed.

Lemma createSinglePool_Ok (ctx : Ctx) (poolId battleId tokenAddr : string) (closeTs : Z)
    (w w' : World) (u : unit) :
  prediction_createSinglePool ctx poolId battleId tokenAddr closeTs w = Ok u w' ->
  storage w !! spoolKey poolId = None
  /\ storage w !! LOCKED_KEY = None
  /\ storage w'
     = delete LOCKED_KEY
         (<[SINGLE_POOL_COUNT_KEY := VNum (u64 (counter_of w SINGLE_POOL_COUNT_KEY + 1))]>
            (<[spoolKey poolId :=
                 VSinglePool (SinglePool.mk poolId battleId tokenAddr (u64 closeTs) 0 0 0 0 0
                                DEFAULT_HOUSE_EDGE_BPS false false (-1) (timestamp ctx) 0 1 0)]>
               (<[LOCKED_KEY := VText "true"]> (storage w)))).
Proof.
  intros H. unfold prediction_createSinglePool in H. cbv zeta in H. minv H.
  rewrite !counter_of_write_ne by key_neq.
  match goal with
  | Hx : negb (bool_decide (is_Some (storage (write LOCKED_KEY _ w) !! _))) = true |- _ =>
      apply negb_true_iff, bool_decide_eq_false in Hx;
      rewrite storage_write, lookup_insert_ne in Hx by key_neq;
      rename Hx into Hnew
  end.
  split; [|split; [done | reflexivity]].
  destruct (storage w !! spoolKey poolId); [|done]. destruct Hnew. by eexists.
Qed.

Lemma spoolKey_inj (id id' : string) : spoolKey id = spoolKey id' -> id = id'.
Proof. unfold spoolKey. apply (inj (String.app _)). Qed.

Lemma call_pool_evolves (ctx : Ctx) (c : Call) (w : World) (poolId : string)
    (p p' : SinglePool.t) :
  storage w !! spoolKey poolId = Some (VSinglePool p) ->
  storage (exec (call ctx c) w) !! spoolKey poolId = Some (VSinglePool p') ->
  p' = p \/ evolves p p'.
Proof.
  intros E E'.
  assert (Hrel : forall c0 : M unit,
             keeps (pool_frame w) (pool_rel w) c0 (fun _ => True) ->
             storage (exec c0 w) !! spoolKey poolId = Some (VSinglePool p') ->
             p' = p \/ evolves p p').
  { intros c0 Hc0 E0.
    assert (Hr : pool_rel w (spoolKey poolId) (VSinglePool p')).
    { refine (keeps_exec (pool_frame w) (pool_rel w) _ w _ Hc0 _ _ _ E0).
      - intros; by left.
      - intros k v Ek. by right. }
    destruct Hr as [Hr | (q & q' & Eq & [= <-] & Hev)].
    - apply pool_frame_spoolKey in Hr. left. congruence.
    - right. assert (q = p) by congruence. by subst. }
  destruct c as [c|c|c]; cbn [call] in E'.
  - apply (Hrel (game_call ctx c)); [|done].
    apply (keeps_post _ _ _ _ (fun k v H => or_introl H)).
    apply game_call_keeps, pool_frame_off_market.
  - assert (Hc : (exists a b d e, c = CreateSinglePool a b d e)
                 \/ (forall a b d e, c <> CreateSinglePool a b d e)).
    { destruct c; first [ by left; eauto | by right ]. }
    destruct Hc as [(a & b & d & e & ->)|Hn].
    + left. cbn [prediction_call] in E'. unfold exec in E'.
      destruct (prediction_createSinglePool ctx a b d e w) as [u w'|] eqn:Hc; [|congruence].
      apply createSinglePool_Ok in Hc as (Hnew & _ & Hs).
      rewrite Hs in E'. rewrite lookup_delete_ne in E' by key_neq.
      rewrite lookup_insert_ne in E' by key_neq.
      rewrite lookup_insert_ne in E' by (intros K; apply spoolKey_inj in K; congruence).
      rewrite lookup_insert_ne in E' by key_neq. congruence.
    + apply (Hrel (prediction_call ctx c)); [|done].
      by apply prediction_call_pool_frames.
  - apply (Hrel (propbet_call ctx c)); [|done].
    apply (keeps_post _ _ _ _ (fun k v H => or_introl H)).
    apply propbet_call_keeps_market, pool_frame_off_market.
Qed.

(** Every pool the contract holds has the parameters [createSinglePool]
    gives it: it is stored under its own id, at 500 basis points, with a
    minimum bet of 1 and no maximum bet or pool size; no entry point
    changes them.  A settled pool is a closed one. *)
Theorem pool_parameters_fixed (who : string -> Prop) (n : nat) (w : World) (poolId : string)
    (p : SinglePool.t) :
  reach who n w ->
  storage w !! spoolKey poolId = Some (VSinglePool p) ->
  SinglePool.poolId p = poolId
  /\ SinglePool.houseEdgeBps p = 500
  /\ SinglePool.minBetSize p = 1
  /\ SinglePool.maxBetSize p = 0
  /\ SinglePool.maxPoolSize p = 0
  /\ (SinglePool.isSettled p = true -> SinglePool.isClosed p = true).
Proof.
  intros Hreach E.
  destruct (reach_pool_ok who n w Hreach _ _ E p eq_refl) as (Hk & ? & ? & ? & ? & ? & _).
  apply spoolKey_inj in Hk. done.
Qed.

(** Once closed, a pool keeps its totals and its odds whatever is called
    next, and once settled it does not change at all: the only thing that
    happens to a closed pool is that it is settled, once. *)
Theorem pool_lifecycle (who : string -> Prop) (n : nat) (w : World) (ctx : Ctx) (c : Call)
    (poolId : string) (p p' : SinglePool.t) :
  reach who n w ->
  storage w !! spoolKey poolId = Some (VSinglePool p) ->
  storage (exec (call ctx c) w) !! spoolKey poolId = Some (VSinglePool p') ->
  (SinglePool.isClosed p = true ->
   SinglePool.isClosed p' = true
   /\ SinglePool.totalPool p' = SinglePool.totalPool p
   /\ SinglePool.outcomeABets p' = SinglePool.outcomeABets p
   /\ SinglePool.outcomeBBets p' = SinglePool.outcomeBBets p
   /\ SinglePool.outcomeAOddsFP p' = SinglePool.outcomeAOddsFP p
   /\ SinglePool.outcomeBOddsFP p' = SinglePool.outcomeBOddsFP p)
  /\ (SinglePool.isSettled p = true -> p' = p).
Proof.
  intros Hreach E E'.
  destruct (reach_pool_ok who n w Hreach _ _ E p eq_refl) as (_ & _ & _ & _ & _ & Hsc & _).
  destruct (call_pool_evolves ctx c w poolId p p' E E') as [->|Hev].
  - split; [intros Hc; by repeat split | done].
  - split.
    + intros Hc. destruct (Hev Hc) as (? & ? & ? & ? & ? & ? & _). by repeat split.
    + intros Hs. destruct (Hev (Hsc Hs)) as (_ & _ & _ & _ & _ & _ & H). by apply H.
Qed.

Lemma pool_parameters_fixed_witness :
  exists p,
    storage scenario_A_world !! spoolKey "p" = Some (VSinglePool p)
    /\ SinglePool.poolId p = "p"
    /\ SinglePool.houseEdgeBps p = 500
    /\ SinglePool.minBetSize p = 1
    /\ SinglePool.maxBetSize p = 0
    /\ SinglePool.maxPoolSize p = 0
    /\ (SinglePool.isSettled p = true -> SinglePool.isClosed p = true).
Proof.
  assert (E : exists p, storage scenario_A_world !! spoolKey "p" = Some (VSinglePool p))
    by (vm_compute; eauto).
  destruct E as (p & E). exists p. split; [exact E|].
  exact (pool_parameters_fixed anyone 7 scenario_A_world "p" p scenario_A_reach E).
Defined.

Lemma pool_lifecycle_witness :
  exists p p',
    storage scenario_A_world !! spoolKey "p" = Some (VSinglePool p)
    /\ storage (exec (call (by_ "carol" 102) (Market (ClaimSingleBet "p" "alice")))
                  scenario_A_world) !! spoolKey "p" = Some (VSinglePool p')
    /\ SinglePool.isClosed p = true
    /\ SinglePool.isSettled p = true
    /\ SinglePool.totalPool p' = SinglePool.totalPool p
    /\ p' = p.
Proof.
  assert (E : exists p, storage scenario_A_world !! spoolKey "p" = Some (VSinglePool p)
                        /\ SinglePool.isClosed p = true /\ SinglePool.isSettled p = true)
    by (vm_compute; eauto).
  assert (E' : exists p', storage (exec (call (by_ "carol" 102)
                                           (Market (ClaimSingleBet "p" "alice")))
                                     scenario_A_world) !! spoolKey "p"
                          = Some (VSinglePool p'))
    by (vm_compute; eauto).
  destruct E as (p & E & Hc & Hs), E' as (p' & E'). exists p, p'.
  destruct (pool_lifecycle anyone 7 scenario_A_world (by_ "carol" 102)
              (Market (ClaimSingleBet "p" "alice")) "p" p p' scenario_A_reach E E')
    as (Hclosed & Hsettled).
  destruct (Hclosed Hc) as (_ & Ht & _).
  do 4 (split; [assumption|]). split; [exact Ht | exact (Hsettled Hs)].
Defined.
(** ** Finalizing a battle, again *)

Lemma whenNotPaused_ext (w w' v : World) (u : unit) :
  whenNotPaused w = Ok u w' -> storage v !! PAUSED_KEY = storage w !! PAUSED_KEY ->
  whenNotPaused v = Ok tt v.
Proof.
  unfold whenNotPaused, getBool, getString, hasKey, getBytes, bind, ret, abort, assert_.
  intros H E. rewrite E.
  destruct (storage w !! PAUSED_KEY) as [x|] eqn:Ew; cbn in H |- *.
  - rewrite Ew in H. rewrite E. destruct x; try discriminate.
    destruct (negb _); [reflexivity | discriminate].
  - reflexivity.
Qed.

Lemma nonReentrant_run (w : World) :
  storage w !! LOCKED_KEY = None -> nonReentrant w = Ok tt (write LOCKED_KEY (VText "true") w).
Proof. unfold nonReentrant, hasKey, bind. by intros ->. Qed.

Lemma hasKey_run (key : string) (v : Value) (w : World) :
  storage w !! key = Some v -> hasKey key w = Ok true w.
Proof. unfold hasKey. intros ->. by rewrite bool_decide_eq_true_2. Qed.

Lemma getBytes_run (key : string) (v : Value) (w : World) :
  storage w !! key = Some v -> getBytes key w = Ok v w.
Proof. unfold getBytes. by intros ->. Qed.

Lemma assert_run (b : bool) (msg : string) (w : World) : b = true -> assert_ b msg w = Ok tt w.
Proof. by intros ->. Qed.

(** The character stored under an id, if there is one. *)
Definition character_at (w : World) (id : string) : option Character.t :=
  match storage w !! characterKey id with
  | Some (VCharacter c) => Some c
  | _ => None
  end.

(** The two sides of a decided battle, as [game_finalizeBattle] reads the
    winner: side 1 if the winner is 1, side 2 otherwise. *)
Definition winnerChar (battle : Battle.t) : string :=
  if Battle.winner battle =? 1 then Battle.player1Char battle else Battle.player2Char battle.

Definition loserChar (battle : Battle.t) : string :=
  if Battle.winner battle =? 1 then Battle.player2Char battle else Battle.player1Char battle.

Lemma characterKey_inj (id id' : string) : characterKey id = characterKey id' -> id = id'.
Proof. unfold characterKey. apply (inj (String.app _)). Qed.

(** What [game_finalizeBattle] does to a character: a win or a loss more,
    and full health. *)
Definition credited (won : bool) (c : Character.t) : Character.t :=
  let c := if won
           then Character.set_totalWins (u32 (Character.totalWins c + 1)) c
           else Character.set_totalLosses (u32 (Character.totalLosses c + 1)) c in
  Character.set_currentHp (Character.maxHp c) c.

(** The world [game_finalizeBattle] leaves. *)
Definition finalized (battleId : string) (battle : Battle.t) (c1 c2 : Character.t) (w : World) :
    World :=
  let won1 := Battle.winner battle =? 1 in
  let w1 := write LOCKED_KEY (VText "true") w in
  let w2 := write (characterKey (Battle.player1Char battle)) (VCharacter (credited won1 c1)) w1 in
  let w3 := write (characterKey (Battle.player2Char battle))
              (VCharacter (credited (negb won1) c2)) w2 in
  let w4 := write TOTAL_BATTLES_FINISHED_KEY
              (VNum (u64 (counter_of w TOTAL_BATTLES_FINISHED_KEY + 1))) w3 in
  erase LOCKED_KEY (emit (EEvent "BattleFinalized" [battleId] [Battle.winner battle]) w4).

Lemma finalizeBattle_Ok (battleId : string) (w w' : World) (u : unit) :
  game_finalizeBattle battleId w = Ok u w' ->
  exists battle c1 c2,
    storage w !! battleKey battleId = Some (VBattle battle)
    /\ Battle.isFinished battle = true
    /\ Battle.winner battle <> 0
    /\ storage w !! characterKey (Battle.player1Char battle) = Some (VCharacter c1)
    /\ storage w !! characterKey (Battle.player2Char battle) = Some (VCharacter c2)
    /\ storage w !! LOCKED_KEY = None
    /\ whenNotPaused w = Ok tt w
    /\ w' = finalized battleId battle c1 c2 w.
Proof.
  intros H. unfold game_finalizeBattle in H. cbv zeta in H.
  apply bind_Ok in H as ([] & w0 & Hp & H).
  pose proof (whenNotPaused_Ok _ _ _ Hp) as ->.
  minv'' H. peel_lock.
  rewrite !counter_of_write_ne by key_neq.
  repeat match goal with
  | Hx : (_ =? 0) = false |- _ => apply Z.eqb_neq in Hx
  end.
  eexists _, _, _. repeat (split; [eassumption|]).
  unfold finalized, credited. cbv zeta. by destruct (Battle.winner _ =? 1).
Qed.

Lemma incrementCounter_run (key : string) (n : Z) (w : World) :
  storage w !! key = Some (VNum n) -> f64_of_Z n < 2 ^ 64 ->
  incrementCounter key w
  = Ok (u64 (counter_of w key + 1)) (write key (VNum (u64 (counter_of w key + 1))) w).
Proof.
  intros E Hn. apply Z.ltb_lt in Hn.
  unfold incrementCounter, getCounter, counter_of, hasKey, getBytes, setCounter, setBytes,
    bind, ret.
  rewrite E. cbn. rewrite E. cbv zeta. by rewrite Hn.
Qed.

(** [game_finalizeBattle] goes through whenever the contract is neither
    paused nor locked, the battle is finished with a winner, both
    characters are stored and the counter of finished battles can be
    read. *)
Lemma finalizeBattle_run (battleId : string) (battle : Battle.t) (c1 c2 : Character.t) (n : Z)
    (w : World) :
  whenNotPaused w = Ok tt w ->
  storage w !! LOCKED_KEY = None ->
  storage w !! battleKey battleId = Some (VBattle battle) ->
  Battle.isFinished battle = true ->
  Battle.winner battle <> 0 ->
  storage w !! characterKey (Battle.player1Char battle) = Some (VCharacter c1) ->
  storage w !! characterKey (Battle.player2Char battle) = Some (VCharacter c2) ->
  storage w !! TOTAL_BATTLES_FINISHED_KEY = Some (VNum n) ->
  f64_of_Z n < 2 ^ 64 ->
  game_finalizeBattle battleId w = Ok tt (finalized battleId battle c1 c2 w).
Proof.
  intros Hp Hl Hb Hf Hw H1 H2 Hn Hlt.
  unfold game_finalizeBattle. cbv zeta.
  eapply bind_run; [exact Hp|].
  eapply bind_run; [by apply nonReentrant_run|].
  eapply bind_run.
  { apply (hasKey_run _ (VBattle battle)).
    by rewrite storage_write, lookup_insert_ne by key_neq. }
  eapply bind_run; [by apply assert_run|].
  eapply bind_run.
  { apply (getBytes_run _ (VBattle battle)).
    by rewrite storage_write, lookup_insert_ne by key_neq. }
  eapply bind_run; [reflexivity|].
  eapply bind_run; [by apply assert_run|].
  eapply bind_run.
  { apply assert_run. apply negb_true_iff. by apply Z.eqb_neq. }
  eapply bind_run.
  { apply (getBytes_run _ (VCharacter c1)).
    by rewrite storage_write, lookup_insert_ne by key_neq. }
  eapply bind_run.
  { apply (getBytes_run _ (VCharacter c2)).
    by rewrite storage_write, lookup_insert_ne by key_neq. }
  eapply bind_run; [reflexivity|].
  eapply bind_run; [reflexivity|].
  eapply bind_run; [reflexivity|].
  eapply bind_run; [reflexivity|].
  eapply bind_run.
  { apply (incrementCounter_run _ n); [|done].
    storage_simpl. by rewrite !lookup_insert_ne by key_neq. }
  rewrite !counter_of_write_ne by key_neq.
  unfold finalized, credited. cbv zeta. by destruct (Battle.winner _ =? 1).
Qed.

Ltac look_through :=
  repeat first
    [ progress storage_simpl
    | rewrite lookup_delete_ne by first [ done | key_neq ]
    | rewrite lookup_insert_ne by first [ done | key_neq ] ].

Lemma finalized_other (battleId : string) (battle : Battle.t) (c1 c2 : Character.t) (w : World)
    (k : string) :
  k <> LOCKED_KEY -> k <> TOTAL_BATTLES_FINISHED_KEY ->
  k <> characterKey (Battle.player1Char battle) ->
  k <> characterKey (Battle.player2Char battle) ->
  storage (finalized battleId battle c1 c2 w) !! k = storage w !! k.
Proof.
  intros. unfold finalized. cbv zeta. by look_through.
Qed.

Lemma finalized_locked (battleId : string) (battle : Battle.t) (c1 c2 : Character.t) (w : World) :
  storage (finalized battleId battle c1 c2 w) !! LOCKED_KEY = None.
Proof. unfold finalized. cbv zeta. storage_simpl. apply lookup_delete_eq. Qed.

Lemma finalized_counter (battleId : string) (battle : Battle.t) (c1 c2 : Character.t)
    (w : World) :
  storage (finalized battleId battle c1 c2 w) !! TOTAL_BATTLES_FINISHED_KEY
  = Some (VNum (u64 (counter_of w TOTAL_BATTLES_FINISHED_KEY + 1))).
Proof.
  unfold finalized. cbv zeta. look_through. apply lookup_insert_eq.
Qed.

Lemma finalized_second (battleId : string) (battle : Battle.t) (c1 c2 : Character.t)
    (w : World) :
  storage (finalized battleId battle c1 c2 w) !! characterKey (Battle.player2Char battle)
  = Some (VCharacter (credited (negb (Battle.winner battle =? 1)) c2)).
Proof.
  unfold finalized. cbv zeta. look_through. apply lookup_insert_eq.
Qed.

Lemma finalized_first (battleId : string) (battle : Battle.t) (c1 c2 : Character.t)
    (w : World) :
  Battle.player1Char battle <> Battle.player2Char battle ->
  storage (finalized battleId battle c1 c2 w) !! characterKey (Battle.player1Char battle)
  = Some (VCharacter (credited (Battle.winner battle =? 1) c1)).
Proof.
  intros Hne. unfold finalized. cbv zeta. look_through.
  rewrite lookup_insert_ne by (intros E; apply characterKey_inj in E; congruence).
  look_through. apply lookup_insert_eq.
Qed.

(** [game_finalizeBattle] keeps no record of having run and asks nothing of
    its caller: it leaves the battle as it found it, and after a call that
    went through the same call goes through again.  With two different
    characters in the battle, each call adds a win to the winner and a loss
    to the loser. *)
Theorem finalize_repeats (battleId : string) (w w' : World) (u : unit) :
  game_finalizeBattle battleId w = Ok u w' ->
  0 <= counter_of w TOTAL_BATTLES_FINISHED_KEY < 2 ^ 53 - 1 ->
  exists battle w'',
    storage w !! battleKey battleId = Some (VBattle battle)
    /\ storage w' !! battleKey battleId = Some (VBattle battle)
    /\ game_finalizeBattle battleId w' = Ok tt w''
    /\ (Battle.player1Char battle <> Battle.player2Char battle ->
        exists winner loser,
          character_at w (winnerChar battle) = Some winner
          /\ character_at w (loserChar battle) = Some loser
          /\ Character.totalWins <$> character_at w' (winnerChar battle)
             = Some (u32 (Character.totalWins winner + 1))
          /\ Character.totalWins <$> character_at w'' (winnerChar battle)
             = Some (u32 (u32 (Character.totalWins winner + 1) + 1))
          /\ Character.totalLosses <$> character_at w' (loserChar battle)
             = Some (u32 (Character.totalLosses loser + 1))
          /\ Character.totalLosses <$> character_at w'' (loserChar battle)
             = Some (u32 (u32 (Character.totalLosses loser + 1) + 1))).
Proof.
  intros H Hc.
  apply finalizeBattle_Ok in H as (battle & c1 & c2 & Hb & Hf & Hw & H1 & H2 & Hl & Hp & ->).
  set (won1 := Battle.winner battle =? 1).
  set (c2' := credited (negb won1) c2).
  set (c1' := if decide (Battle.player1Char battle = Battle.player2Char battle)
              then c2' else credited won1 c1).
  set (w' := finalized battleId battle c1 c2 w).
  assert (Hb' : storage w' !! battleKey battleId = Some (VBattle battle)).
  { unfold w'. by rewrite finalized_other by key_neq. }
  assert (H2' : storage w' !! characterKey (Battle.player2Char battle) = Some (VCharacter c2'))
    by apply finalized_second.
  assert (H1' : storage w' !! characterKey (Battle.player1Char battle) = Some (VCharacter c1')).
  { unfold c1'. destruct (decide _) as [E|E]; [by rewrite E | by apply finalized_first]. }
  assert (Hrun : game_finalizeBattle battleId w' = Ok tt (finalized battleId battle c1' c2' w')).
  { eapply finalizeBattle_run; try eassumption.
    - eapply whenNotPaused_ext; [exact Hp|]. unfold w'. by rewrite finalized_other by key_neq.
    - apply finalized_locked.
    - apply finalized_counter.
    - rewrite u64_small by lia. unfold f64_of_Z.
      destruct (_ <? 2 ^ 53) eqn:E; [lia|]. apply Z.ltb_ge in E. lia. }
  exists battle, (finalized battleId battle c1' c2' w').
  do 3 (split; [done|]).
  intros Hne. unfold c1' in *. destruct (decide _) as [E|_]; [done|].
  unfold winnerChar, loserChar, character_at. fold won1.
  destruct won1 eqn:Ew.
  - exists c1, c2. rewrite H1, H2, H1', H2'.
    rewrite finalized_first by done. rewrite finalized_second. fold won1. rewrite Ew.
    by repeat split.
  - exists c2, c1. rewrite H1, H2, H1', H2'.
    rewrite finalized_first by done. rewrite finalized_second. fold won1. rewrite Ew.
    by repeat split.
Qed.

(** The duel fought to the end: Alice's mage has beaten Bob's rogue. *)
Definition finished_world : World :=
  exec (call (mkCtx "alice" "game" 36 false) (Game (ExecuteTurn "duel" "mage" 0 false 0)))
    duel_world.

Lemma finalize_repeats_witness :
  exists battle w'',
    storage finished_world !! battleKey "duel" = Some (VBattle battle)
    /\ storage (exec (game_finalizeBattle "duel") finished_world) !! battleKey "duel"
       = Some (VBattle battle)
    /\ game_finalizeBattle "duel" (exec (game_finalizeBattle "duel") finished_world) = Ok tt w''
    /\ (Battle.player1Char battle <> Battle.player2Char battle ->
        exists winner loser,
          character_at finished_world (winnerChar battle) = Some winner
          /\ character_at finished_world (loserChar battle) = Some loser
          /\ Character.totalWins
               <$> character_at (exec (game_finalizeBattle "duel") finished_world)
                     (winnerChar battle)
             = Some (u32 (Character.totalWins winner + 1))
          /\ Character.totalWins <$> character_at w'' (winnerChar battle)
             = Some (u32 (u32 (Character.totalWins winner + 1) + 1))
          /\ Character.totalLosses
               <$> character_at (exec (game_finalizeBattle "duel") finished_world)
                     (loserChar battle)
             = Some (u32 (Character.totalLosses loser + 1))
          /\ Character.totalLosses <$> character_at w'' (loserChar battle)
             = Some (u32 (u32 (Character.totalLosses loser + 1) + 1))).
Proof.
  assert (H : is_ok (game_finalizeBattle "duel" finished_world) = true)
    by (vm_compute; reflexivity).
  apply is_ok_exec in H.
  assert (E : counter_of finished_world TOTAL_BATTLES_FINISHED_KEY = 0)
    by (vm_compute; reflexivity).
  apply (finalize_repeats "duel" finished_world _ tt H). rewrite E. lia.
Defined.
(** ** Who may change a character *)

(** What a character is: its owner, class, name and time of creation. *)
Definition identity (c : Character.t) : string * Z * string * Z :=
  (Character.owner c, Character.characterClass c, Character.name c, Character.createdAt c).

(** The two sides of a battle: characters, owners, and the two times fixed
    at its creation. *)
Definition sides (b : Battle.t) : string * string * string * string * Z * Z :=
  (Battle.player1Char b, Battle.player2Char b, Battle.player1Owner b, Battle.player2Owner b,
   Battle.startTs b, Battle.createdAt b).

Lemma addStatus_sides (p : bool) (s d : Z) (b : Battle.t) : sides (addStatus p s d b) = sides b.
Proof. destruct p; reflexivity. Qed.

Lemma setCooldown_sides (p : bool) (slot cd : Z) (b : Battle.t) :
  sides (setCooldown p slot cd b) = sides b.
Proof. unfold setCooldown. repeat case_match; reflexivity. Qed.

Lemma applySkill_sides (p : bool) (skill : Z) (b : Battle.t) (a : Character.t) :
  sides (sr_battle (applySkill p skill b a)) = sides b.
Proof.
  unfold applySkill.
  repeat case_match; cbn [sr_battle]; rewrite ?addStatus_sides; reflexivity.
Qed.

Lemma resolveSkill_sides (p : bool) (slot : Z) (b : Battle.t) (a : Character.t) :
  sides (sr_battle (resolveSkill p slot b a)) = sides b.
Proof.
  unfold resolveSkill.
  repeat case_match; try reflexivity; cbn [sr_battle];
    by rewrite setCooldown_sides, applySkill_sides.
Qed.

Lemma applyDamage_sides (p : bool) (damage : Z) (dodged : bool) (b : Battle.t) :
  sides (applyDamage p damage dodged b) = sides b.
Proof. unfold applyDamage. repeat case_match; reflexivity. Qed.

Lemma applyDots_sides (c1 c2 : Character.t) (b : Battle.t) : sides (applyDots c1 c2 b) = sides b.
Proof. unfold applyDots. cbv zeta. repeat case_match; reflexivity. Qed.

Lemma tickStatus1_sides (b : Battle.t) : sides (tickStatus1 b) = sides b.
Proof. unfold tickStatus1. repeat case_match; reflexivity. Qed.

Lemma tickStatus2_sides (b : Battle.t) : sides (tickStatus2 b) = sides b.
Proof. unfold tickStatus2. repeat case_match; reflexivity. Qed.

Lemma advanceTurn_sides (b : Battle.t) : sides (advanceTurn b) = sides b.
Proof. reflexivity. Qed.

Lemma tickCooldowns_sides (b : Battle.t) : sides (tickCooldowns b) = sides b.
Proof. reflexivity. Qed.

Lemma checkFinish_sides (b : Battle.t) : sides (checkFinish b) = sides b.
Proof. unfold checkFinish. repeat case_match; reflexivity. Qed.

Lemma playTurn_sides (ctx : Ctx) (p : bool) (b : Battle.t) (c1 c2 : Character.t) (bo : Bonuses)
    (sk : SkillResult) :
  sides (playTurn ctx p b c1 c2 bo sk) = sides b.
Proof.
  unfold playTurn. cbv zeta. destruct (computeDamage _ _ _ _ _ _ _) as [damage dodged].
  by rewrite checkFinish_sides, tickCooldowns_sides, advanceTurn_sides, tickStatus2_sides,
    tickStatus1_sides, applyDots_sides, applyDamage_sides.
Qed.

Lemma sides_player1 (b b' : Battle.t) :
  sides b' = sides b -> Battle.player1Char b' = Battle.player1Char b.
Proof. by intros [= -> _ _ _ _ _]. Qed.

Lemma sides_player2 (b b' : Battle.t) :
  sides b' = sides b -> Battle.player2Char b' = Battle.player2Char b.
Proof. by intros [= _ -> _ _ _ _]. Qed.

Lemma regenEnergy_identity (c : Character.t) : identity (regenEnergy c) = identity c.
Proof. unfold regenEnergy. repeat case_match; reflexivity. Qed.

Lemma applySkill_identity (p : bool) (skill : Z) (b : Battle.t) (a : Character.t) :
  identity (sr_attacker (applySkill p skill b a)) = identity a.
Proof. unfold applySkill. repeat case_match; reflexivity. Qed.

Lemma resolveSkill_identity (p : bool) (slot : Z) (b : Battle.t) (a : Character.t) :
  identity (sr_attacker (resolveSkill p slot b a)) = identity a.
Proof.
  unfold resolveSkill.
  repeat case_match; try reflexivity; cbn [sr_attacker]; by rewrite applySkill_identity.
Qed.

Lemma applyUpgrade_identity (upgradeType : Z) (c c' : Character.t) :
  applyUpgrade upgradeType c = Some c' -> identity c' = identity c.
Proof.
  unfold applyUpgrade. repeat case_match; intros [= <-]; reflexivity.
Qed.

Lemma levelUp_identity (c : Character.t) : identity (levelUp c) = identity c.
Proof. unfold levelUp. cbv zeta. case_match; reflexivity. Qed.

Lemma grantXP_char_identity (xpAmount : Z) (c : Character.t) :
  identity (grantXP_char xpAmount c) = identity c.
Proof. unfold grantXP_char. by rewrite levelUp_identity. Qed.

(** Relative to the storage [w0] at the start of a call: the character keys
    hold what they held. *)
Definition char_frame (w0 : World) (k : string) (v : Value) : Prop :=
  (forall id, k <> characterKey id) \/ storage w0 !! k = Some v.

(** ... or a character was rewritten, the same character as before, and
    the old record satisfies [Q]. *)
Definition char_rel (Q : Character.t -> Prop) (w0 : World) (k : string) (v : Value) : Prop :=
  char_frame w0 k v
  \/ (exists c c', storage w0 !! k = Some (VCharacter c) /\ v = VCharacter c'
                   /\ identity c' = identity c /\ Q c).

Lemma char_frame_characterKey (w0 : World) (id : string) (v : Value) :
  char_frame w0 (characterKey id) v -> storage w0 !! characterKey id = Some v.
Proof. intros [H|H]; [by destruct (H id) | done]. Qed.

Ltac char_frame_side :=
  intros; first [ left; let x := fresh in intros x; key_neq
                | left; left; let x := fresh in intros x; key_neq ].

Ltac cstep Q w0 :=
  lazymatch goal with
  | |- keeps (char_frame _) _ (bind (setBytes (characterKey _) _) _) _ =>
      eapply keeps_bind;
        [apply (keeps_setBytes_to (char_rel Q w0)); [intros; by left|] | intros _ _]
  | |- keeps (char_frame _) _
         (bind (if ?b then (if ?p then setBytes _ _ else setBytes _ _) else ret tt) _) _ =>
      eapply (keeps_bind (char_rel Q w0) _ _ _ (fun _ => True));
        [ destruct b eqn:?;
          [ destruct p eqn:?; (apply (keeps_setBytes_to (char_rel Q w0)); [intros; by left|])
          | apply (keeps_post _ _ _ _ (fun k v H => or_introl H)); by apply keeps_ret ]
        | intros _ _ ]
  | |- keeps _ _ (bind _ _) _ => kstep
  | |- keeps _ _ (match _ with _ => _ end) _ => kstep
  | |- keeps (char_frame _) (char_rel _ _) _ _ =>
      apply (keeps_post _ _ _ _ (fun k v H => or_introl H)); kstep
  | _ => kstep
  end.

(** What the calls that write a character ask of its old record. *)
Definition writer (ctx : Ctx) (c : GameCall) (ch : Character.t) : Prop :=
  match c with
  | UpgradeCharacter _ _ | HealCharacter _ | EquipItem _ _ | LearnSkill _ _
  | EquipSkill _ _ _ => caller ctx = Character.owner ch
  | GrantXP _ _ | ExecuteTurn _ _ _ _ _ | FinalizeBattle _ => True
  | _ => False
  end.

Ltac char_side :=
  cbn beta in *; subst;
  repeat match goal with
  | H : char_frame _ (characterKey _) _ |- _ => apply char_frame_characterKey in H
  | H : bool_decide _ = true |- _ => apply bool_decide_eq_true in H
  end;
  rewrite ?(sides_player1 _ _ (playTurn_sides _ _ _ _ _ _ _)),
    ?(sides_player2 _ _ (playTurn_sides _ _ _ _ _ _ _)),
    ?(sides_player1 _ _ (resolveSkill_sides _ _ _ _)),
    ?(sides_player2 _ _ (resolveSkill_sides _ _ _ _));
  right; eexists; eexists; split; [eassumption|]; split; [reflexivity|];
  split; [|first [ exact I | assumption | (cbn [writer]; assumption) ]];
  first
    [ reflexivity
    | apply grantXP_char_identity
    | etransitivity; [eapply applyUpgrade_identity; eassumption | reflexivity]
    | rewrite ?regenEnergy_identity;
      repeat case_match;
      rewrite ?regenEnergy_identity, ?resolveSkill_identity, ?levelUp_identity,
        ?grantXP_char_identity;
      reflexivity ].

Lemma game_call_char_frames (w0 : World) (ctx : Ctx) (c : GameCall) :
  (forall id classU8 name, c <> CreateCharacter id classU8 name) ->
  keeps (char_frame w0) (char_rel (writer ctx c) w0) (game_call ctx c) (fun _ => True).
Proof.
  assert (Hsub : forall k v, char_frame w0 k v -> char_rel (writer ctx c) w0 k v)
    by (intros; by left).
  intros Hc. destruct c; cbn [game_call].
  - apply (keeps_post _ _ _ _ Hsub). unfold game_constructor. repeat kstep; char_frame_side.
  - by destruct (Hc id classU8 name).
  - apply (keeps_post _ _ _ _ Hsub). unfold game_createBattle. repeat kstep; char_frame_side.
  - unfold game_executeTurn.
    repeat (cstep (writer ctx (ExecuteTurn battleId attackerCharId stance useSpecial skillSlot))
              w0); try char_frame_side.
    all: char_side.
  - apply (keeps_post _ _ _ _ Hsub). unfold game_decideWildcard. repeat kstep; char_frame_side.
  - unfold game_finalizeBattle.
    repeat (cstep (writer ctx (FinalizeBattle battleId)) w0); try char_frame_side.
    all: char_side.
  - apply (keeps_post _ _ _ _ Hsub). unfold game_setPaused. repeat kstep; char_frame_side.
  - apply (keeps_post _ _ _ _ Hsub). unfold game_grantSettler. repeat kstep; char_frame_side.
  - unfold game_upgradeCharacter.
    repeat (cstep (writer ctx (UpgradeCharacter charId upgradeType)) w0);
      try char_frame_side.
    all: char_side.
  - unfold game_grantXP.
    repeat (cstep (writer ctx (GrantXP charId xpAmount)) w0); try char_frame_side.
    all: char_side.
  - unfold game_healCharacter.
    repeat (cstep (writer ctx (HealCharacter charId)) w0); try char_frame_side.
    all: char_side.
  - apply (keeps_post _ _ _ _ Hsub). unfold game_createEquipment.
    repeat kstep; char_frame_side.
  - unfold game_equipItem.
    repeat (cstep (writer ctx (EquipItem charId equipmentId)) w0); try char_frame_side.
    all: char_side.
  - apply (keeps_post _ _ _ _ Hsub). unfold game_transferEquipment.
    repeat kstep; char_frame_side.
  - unfold game_learnSkill.
    repeat (cstep (writer ctx (LearnSkill characterId skillId)) w0); try char_frame_side.
    all: char_side.
  - unfold game_equipSkill.
    repeat (cstep (writer ctx (EquipSkill characterId skillId slot)) w0); try char_frame_side.
    all: char_side.
  - apply (keeps_post _ _ _ _ Hsub). unfold game_addToTreasury. repeat kstep; char_frame_side.
  - apply (keeps_post _ _ _ _ Hsub). unfold game_withdrawTreasury.
    repeat kstep; char_frame_side.
Qed.

Lemma char_frame_off_game (w0 : World) (k : string) (v : Value) :
  off_game k v -> char_frame w0 k v.
Proof. intros (Hk & _). by left. Qed.

Lemma createCharacter_Ok (ctx : Ctx) (id : string) (classU8 : Z) (name : string)
    (w w' : World) (u : unit) :
  game_createCharacter ctx id classU8 name w = Ok u w' ->
  storage w !! characterKey id = None
  /\ (forall id', id' <> id ->
        storage w' !! characterKey id' = storage w !! characterKey id').
Proof.
  intros H. unfold game_createCharacter in H. cbv zeta in H.
  do 4 (let a := fresh "a" in
        let w1 := fresh "w" in
        let H1 := fresh "H" in
        apply bind_Ok in H as (a & w1 & H1 & H); try minv1 H1).
  destruct (classStats (u8 classU8)) as [[[[[maxHp dmgMin] dmgMax] crit] dodge]|];
    [|discriminate].
  minv H.
  match goal with
  | Hx : negb (bool_decide (is_Some (storage (write LOCKED_KEY _ w) !! _))) = true |- _ =>
      apply negb_true_iff, bool_decide_eq_false in Hx;
      rewrite storage_write, lookup_insert_ne in Hx by key_neq;
      rename Hx into Hnew
  end.
  split.
  - destruct (storage w !! characterKey id); [|done]. destruct Hnew. by eexists.
  - intros id' Hne. look_through.
    rewrite lookup_insert_ne by (intros E; apply characterKey_inj in E; congruence).
    by look_through.
Qed.

(** Who may change a stored character: its owner through the five
    character calls, an admin through [game_grantXP], and whoever plays a
    turn of a battle or finalizes one; no other call. *)
Definition may_change (ctx : Ctx) (w : World) (c : Call) (ch : Character.t) : Prop :=
  match c with
  | Game (UpgradeCharacter _ _) | Game (HealCharacter _) | Game (EquipItem _ _)
  | Game (LearnSkill _ _) | Game (EquipSkill _ _ _) => caller ctx = Character.owner ch
  | Game (GrantXP _ _) => is_Some (storage w !! roleKey ADMIN_ROLE (caller ctx))
  | Game (ExecuteTurn _ _ _ _ _) | Game (FinalizeBattle _) => True
  | _ => False
  end.

(** Across any call, a stored character keeps its owner, class, name and
    time of creation.  If the call changed the record at all, it was one of
    upgradeCharacter, healCharacter, equipItem, learnSkill or equipSkill
    called by the character's owner, or grantXP called by an admin, or
    executeTurn or finalizeBattle; the market and the prop bets never touch
    a character. *)
Theorem character_changes (ctx : Ctx) (c : Call) (w : World) (id : string)
    (ch ch' : Character.t) :
  storage w !! characterKey id = Some (VCharacter ch) ->
  storage (exec (call ctx c) w) !! characterKey id = Some (VCharacter ch') ->
  Character.owner ch' = Character.owner ch
  /\ Character.characterClass ch' = Character.characterClass ch
  /\ Character.name ch' = Character.name ch
  /\ Character.createdAt ch' = Character.createdAt ch
  /\ (ch' <> ch -> may_change ctx w c ch).
Proof.
  intros E E'.
  assert (Hsame : ch' = ch ->
                  Character.owner ch' = Character.owner ch
                  /\ Character.characterClass ch' = Character.characterClass ch
                  /\ Character.name ch' = Character.name ch
                  /\ Character.createdAt ch' = Character.createdAt ch
                  /\ (ch' <> ch -> may_change ctx w c ch)).
  { intros ->. by repeat split. }
  assert (Hrel : forall (Q : Character.t -> Prop) (c0 : M unit),
             keeps (char_frame w) (char_rel Q w) c0 (fun _ => True) ->
             storage (exec c0 w) !! characterKey id = Some (VCharacter ch') ->
             ch' = ch \/ (identity ch' = identity ch /\ Q ch)).
  { intros Q c0 Hc0 E0.
    assert (Hr : char_rel Q w (characterKey id) (VCharacter ch')).
    { refine (keeps_exec (char_frame w) (char_rel Q w) _ w _ Hc0 _ _ _ E0).
      - intros; by left.
      - intros k v Ek. by right. }
    destruct Hr as [Hr | (q & q' & Eq & [= <-] & Hid & HQ)].
    - apply char_frame_characterKey in Hr. left. congruence.
    - right. assert (q = ch) by congruence. by subst. }
  assert (Hnever : forall c0 : M unit,
             keeps (char_frame w) (char_frame w) c0 (fun _ => True) ->
             storage (exec c0 w) !! characterKey id = Some (VCharacter ch') -> ch' = ch).
  { intros c0 Hc0 E0.
    destruct (Hrel (fun _ => False) c0) as [?|[_ []]]; [|done..].
    by apply (keeps_post _ _ _ _ (fun k v H => or_introl H)). }
  destruct c as [c|c|c]; cbn [call] in E'.
  - assert (Hc : (exists a b d, c = CreateCharacter a b d)
                 \/ (forall a b d, c <> CreateCharacter a b d)).
    { destruct c; first [ by left; eauto | by right ]. }
    destruct Hc as [(a & b & d & ->)|Hn].
    + apply Hsame. cbn [game_call] in E'. unfold exec in E'.
      destruct (game_createCharacter ctx a b d w) as [u w'|] eqn:Hc; [|congruence].
      apply createCharacter_Ok in Hc as (Hnew & Hother).
      rewrite Hother in E' by (intros ->; congruence). congruence.
    + destruct (Hrel (writer ctx c) (game_call ctx c)) as [?|[Hid HQ]];
        [by apply game_call_char_frames | done | by apply Hsame |].
      injection Hid as Ho Hcl Hnm Hat. do 4 (split; [done|]). intros Hne.
      destruct c; cbn [may_change writer] in *; try done.
      cbn [game_call] in E'. unfold exec in E'.
      destruct (game_grantXP ctx charId xpAmount w) as [u w'|] eqn:Hx; [|congruence].
      unfold game_grantXP in Hx. apply bind_Ok in Hx as (? & ? & Hrole & _).
      by apply onlyRole_Ok in Hrole as [_ ?].
  - apply Hsame, (Hnever (prediction_call ctx c)); [|done].
    apply prediction_call_keeps, char_frame_off_game.
  - apply Hsame, (Hnever (propbet_call ctx c)); [|done].
    apply propbet_call_keeps, char_frame_off_game.
Qed.

Lemma character_changes_witness :
  exists ch ch',
    storage battle_world !! characterKey "rogue" = Some (VCharacter ch)
    /\ storage (exec (call (mkCtx "bob" "game" 40 false) (Game (LearnSkill "rogue" 1)))
                  battle_world) !! characterKey "rogue" = Some (VCharacter ch')
    /\ Character.learnedSkills ch = ""
    /\ Character.learnedSkills ch' = "1"
    /\ Character.owner ch' = Character.owner ch
    /\ Character.characterClass ch' = Character.characterClass ch
    /\ Character.name ch' = Character.name ch
    /\ Character.createdAt ch' = Character.createdAt ch
    /\ (ch' <> ch -> "bob" = Character.owner ch).
Proof.
  assert (E : exists ch, storage battle_world !! characterKey "rogue" = Some (VCharacter ch)
                         /\ Character.learnedSkills ch = "")
    by (vm_compute; eauto).
  assert (E' : exists ch',
             storage (exec (call (mkCtx "bob" "game" 40 false) (Game (LearnSkill "rogue" 1)))
                        battle_world) !! characterKey "rogue" = Some (VCharacter ch')
             /\ Character.learnedSkills ch' = "1")
    by (vm_compute; eauto).
  destruct E as (ch & E & Hs), E' as (ch' & E' & Hs'). exists ch, ch'.
  do 4 (split; [assumption|]).
  exact (character_changes (mkCtx "bob" "game" 40 false) (Game (LearnSkill "rogue" 1))
           battle_world "rogue" ch ch' E E').
Defined.
(** ** The treasury counter *)

(** A counter that [getCounter] reads without rounding: absent, or a
    number below 2^53. *)
Definition readable (w : World) (key : string) : Prop :=
  storage w !! key = None
  \/ exists n, storage w !! key = Some (VNum n) /\ 0 <= n < 2 ^ 53.

Lemma f64_of_Z_small (n : Z) : n < 2 ^ 53 -> f64_of_Z n = n.
Proof. intros H. unfold f64_of_Z. apply Z.ltb_lt in H. by rewrite H. Qed.


Lemma getCounter_run (w : World) (key : string) :
  readable w key -> getCounter key w = Ok (counter_of w key) w.
Proof.
  unfold getCounter, counter_of, hasKey, getBytes, bind, ret.
  intros [E|(n & E & Hn)]; rewrite E; cbn; [done|]. rewrite E.
  rewrite f64_of_Z_small by lia. cbv zeta.
  destruct (n <? 2 ^ 64) eqn:Hlt; [done|]. apply Z.ltb_ge in Hlt. lia.
Qed.

Lemma readable_write (w : World) (key : string) (n : Z) :
  0 <= n < 2 ^ 53 -> readable (write key (VNum n) w) key.
Proof. intros Hn. right. exists n. by rewrite storage_write, lookup_insert_eq. Qed.










(** ** The streak bonus *)

Lemma streakBonusOf_nonneg (newStreak payoutU64 : Z) : 0 <= streakBonusOf newStreak payoutU64.
Proof.
  unfold streakBonusOf. case_match; [|done]. cbv zeta.
  apply Z.div_pos; [|lia]. unfold u64, wrap. apply Z.mod_pos_bound. lia.
Qed.

(** A winning claim pays the bettor the payout and, from the second win in
    a row on, a streak bonus on top of it: 5, 10 and 15 percent of the
    payout for the second, third and fourth win, 25 percent from the fifth
    on.  The bonus comes out of the contract's balance like the payout; it
    is no part of the payout pool. *)
Theorem streak_bonus_paid (ctx : Ctx) (poolId bettor : string) (pool : SinglePool.t)
    (bet : SingleBet.t) (s : Z) (w w' : World) (u : unit) :
  prediction_claimSingleBet ctx poolId bettor w = Ok u w' ->
  storage w !! spoolKey poolId = Some (VSinglePool pool) ->
  storage w !! sbetKey poolId bettor = Some (VSingleBet bet) ->
  SingleBet.outcome bet = SinglePool.winningOutcome pool ->
  counter_of w (streakKey bettor) = s ->
  0 <= s < 2 ^ 53 ->
  bettor <> callee ctx ->
  balance_of w' (SinglePool.token pool) bettor
  = balance_of w (SinglePool.token pool) bettor
    + u64 (payoutU pool bet) + streakBonusOf (s + 1) (u64 (payoutU pool bet))
  /\ balance_of w' (SinglePool.token pool) (callee ctx)
     = balance_of w (SinglePool.token pool) (callee ctx)
       - u64 (payoutU pool bet) - streakBonusOf (s + 1) (u64 (payoutU pool bet))
  /\ storage w' !! streakKey bettor = Some (VNum (s + 1))
  /\ (s = 0 -> streakBonusOf (s + 1) (u64 (payoutU pool bet)) = 0)
  /\ (1 <= s ->
      streakBonusOf (s + 1) (u64 (payoutU pool bet))
      = u64 (u64 (payoutU pool bet) * (if s <? 4 then 5 * s else 25)) / 100).
Proof.
  intros H Hpool Hbet Hwin Hs Hrange Hne.
  apply claimSingleBet_Ok in H
    as (pool0 & bet0 & Hpool0 & Hbet0 & _ & _ & _ & [[Hx _] | (_ & _ & _ & ->)]).
  { rewrite Hpool in Hpool0. rewrite Hbet in Hbet0.
    injection Hpool0 as <-. injection Hbet0 as <-. congruence. }
  rewrite Hpool in Hpool0. rewrite Hbet in Hbet0.
  injection Hpool0 as <-. injection Hbet0 as <-.
  pose proof (streakBonusOf_nonneg (s + 1) (u64 (payoutU pool bet))) as Hb.
  assert (Hnew : u64 (s + 1) = s + 1) by (apply u64_small; lia).
  split; [|split; [|split; [|split]]].
  - unfold claim_won. cbv zeta. rewrite Hs, Hnew.
    destruct (0 <? u64 (houseAmount pool));
      destruct ((2 <=? s + 1) && (0 <? streakBonusOf (s + 1) (u64 (payoutU pool bet))))
        eqn:Eb.
    1,3: etransitivity;
      [exact (balance_of_move_tokens (SinglePool.token pool) (callee ctx) bettor _ _
                (not_eq_sym Hne))|];
      f_equal;
      exact (balance_of_move_tokens (SinglePool.token pool) (callee ctx) bettor _ _
               (not_eq_sym Hne)).
    all: assert (Hz : streakBonusOf (s + 1) (u64 (payoutU pool bet)) = 0)
      by (apply andb_false_iff in Eb as [Eb|Eb];
          [unfold streakBonusOf; by rewrite Eb | apply Z.ltb_ge in Eb; lia]).
    all: rewrite Hz, Z.add_0_r.
    all: exact (balance_of_move_tokens (SinglePool.token pool) (callee ctx) bettor _ _
                  (not_eq_sym Hne)).
  - unfold claim_won. cbv zeta. rewrite Hs, Hnew.
    destruct (0 <? u64 (houseAmount pool));
      destruct ((2 <=? s + 1) && (0 <? streakBonusOf (s + 1) (u64 (payoutU pool bet))))
        eqn:Eb.
    1,3: etransitivity;
      [exact (balance_of_move_tokens_src (SinglePool.token pool) (callee ctx) bettor _ _
                (not_eq_sym Hne))|];
      f_equal;
      exact (balance_of_move_tokens_src (SinglePool.token pool) (callee ctx) bettor _ _
               (not_eq_sym Hne)).
    all: assert (Hz : streakBonusOf (s + 1) (u64 (payoutU pool bet)) = 0)
      by (apply andb_false_iff in Eb as [Eb|Eb];
          [unfold streakBonusOf; by rewrite Eb | apply Z.ltb_ge in Eb; lia]).
    all: rewrite Hz, Z.sub_0_r.
    all: exact (balance_of_move_tokens_src (SinglePool.token pool) (callee ctx) bettor _ _
                  (not_eq_sym Hne)).
  - assert (E : storage (claim_paid ctx poolId bettor pool bet w) !! streakKey bettor
                = Some (VNum (s + 1))).
    { unfold claim_paid. cbv zeta. rewrite counter_of_write_ne by key_neq.
      rewrite Hs, Hnew. look_through. apply lookup_insert_eq. }
    unfold claim_won. cbv zeta.
    repeat match goal with
    | |- context [if ?b then move_tokens _ _ _ _ _ else _] => destruct b
    | |- context [if ?b then write _ _ _ else _] => destruct b
    end; look_through; exact E.
  - intros ->. reflexivity.
  - intros H1. unfold streakBonusOf.
    destruct (2 <=? s + 1) eqn:E2; [|apply Z.leb_gt in E2; lia]. cbv zeta.
    destruct (s + 1 <? 5) eqn:E5.
    + apply Z.ltb_lt in E5. destruct (s <? 4) eqn:E4; [|apply Z.ltb_ge in E4; lia].
      replace (s + 1 - 1) with s by lia.
      rewrite (u64_small s) by lia. rewrite (u64_small (s * 5)) by lia.
      by rewrite (Z.mul_comm s 5).
    + apply Z.ltb_ge in E5. destruct (s <? 4) eqn:E4; [apply Z.ltb_lt in E4; lia|done].
Qed.

(** Two pools, each with 1000 from Alice on A and 1000 from Bob on B, both
    settled with A; Alice's bet on the first pool is claimed. *)
Definition streak_world : World :=
  run (open_pool
         ++ [ (by_ "admin" 2, Market (CreateSinglePool "q" "duel" "TOK" 100));
              (by_ "alice" 3, Market (PlaceSingleBet "p" 0 1000));
              (by_ "bob" 4, Market (PlaceSingleBet "p" 1 1000));
              (by_ "alice" 5, Market (PlaceSingleBet "q" 0 1000));
              (by_ "bob" 6, Market (PlaceSingleBet "q" 1 1000)) ]
         ++ close_and_settle 0
         ++ [ (by_ "admin" 100, Market (CloseSinglePool "q"));
              (by_ "oracle" 101, Market (SettleSinglePool "q" 0));
              (by_ "alice" 102, Market (ClaimSingleBet "p" "alice")) ])
    funded_world.

Lemma streak_bonus_paid_witness :
  exists pool bet,
    storage streak_world !! spoolKey "q" = Some (VSinglePool pool)
    /\ storage streak_world !! sbetKey "q" "alice" = Some (VSingleBet bet)
    /\ u64 (payoutU pool bet) = 1900
    /\ balance_of (exec (prediction_claimSingleBet (by_ "carol" 103) "q" "alice") streak_world)
         (SinglePool.token pool) "alice"
       = balance_of streak_world (SinglePool.token pool) "alice"
         + u64 (payoutU pool bet) + streakBonusOf (1 + 1) (u64 (payoutU pool bet))
    /\ streakBonusOf (1 + 1) (u64 (payoutU pool bet))
       = u64 (u64 (payoutU pool bet) * (if 1 <? 4 then 5 * 1 else 25)) / 100.
Proof.
  assert (E : exists pool bet,
             storage streak_world !! spoolKey "q" = Some (VSinglePool pool)
             /\ storage streak_world !! sbetKey "q" "alice" = Some (VSingleBet bet)
             /\ u64 (payoutU pool bet) = 1900
             /\ SingleBet.outcome bet = SinglePool.winningOutcome pool)
    by (eexists _, _; split; [vm_compute; reflexivity|]; split; [vm_compute; reflexivity|];
        split; vm_compute; reflexivity).
  assert (H : is_ok (prediction_claimSingleBet (by_ "carol" 103) "q" "alice" streak_world)
              = true) by (vm_compute; reflexivity).
  apply is_ok_exec in H.
  assert (Hs : counter_of streak_world (streakKey "alice") = 1) by (vm_compute; reflexivity).
  destruct E as (pool & bet & Ep & Eb & Hpay & Hwin). exists pool, bet.
  do 3 (split; [assumption|]).
  destruct (streak_bonus_paid (by_ "carol" 103) "q" "alice" pool bet 1 streak_world _ tt
              H Ep Eb Hwin Hs ltac:(lia) ltac:(discriminate))
    as (Hbal & _ & _ & _ & Hbonus).
  split; [exact Hbal | exact (Hbonus ltac:(lia))].
Defined.
(** ** Closing and settling a pool *)

Lemma closed_pool_odds (pool : SinglePool.t) :
  0 < SinglePool.totalPool pool ->
  (0 < SinglePool.outcomeABets pool ->
   SinglePool.outcomeAOddsFP (closed_pool pool) * SinglePool.outcomeABets pool
   <= payoutPool pool * ODDS_SCALE_U128)
  /\ (0 < SinglePool.outcomeBBets pool ->
      SinglePool.outcomeBOddsFP (closed_pool pool) * SinglePool.outcomeBBets pool
      <= payoutPool pool * ODDS_SCALE_U128).
Proof.
  intros Ht. pose proof (payoutPool_nonneg pool) as Hp.
  assert (Hdiv : forall a, 0 < a ->
            u128_div (u128_mul (payoutPool pool) ODDS_SCALE_U128) a * a
            <= payoutPool pool * ODDS_SCALE_U128).
  { intros a Ha. unfold u128_div, u128_mul, u128, wrap, ODDS_SCALE_U128 in *.
    set (x := payoutPool pool * 1000000).
    assert (0 <= x) by (unfold x; lia).
    assert (x mod 2 ^ 128 <= x) by (apply Z.mod_le; lia).
    assert (0 <= x mod 2 ^ 128) by (apply Z.mod_pos_bound; lia).
    pose proof (Z.mul_div_le (x mod 2 ^ 128) a Ha). lia. }
  unfold closed_pool. cbv zeta.
  change (SinglePool.totalPool (SinglePool.set_isClosed true pool))
    with (SinglePool.totalPool pool).
  apply Z.ltb_lt in Ht. rewrite Ht.
  change (SinglePool.outcomeABets (SinglePool.set_isClosed true pool))
    with (SinglePool.outcomeABets pool).
  change (payoutPool (SinglePool.set_isClosed true pool)) with (payoutPool pool).
  split; intros Hs; pose proof Hs as Hs'; apply Z.ltb_lt in Hs'.
  - rewrite Hs'. destruct (0 <? SinglePool.outcomeBBets _); cbn; by apply Hdiv.
  - destruct (0 <? SinglePool.outcomeABets pool); cbn in *; rewrite Hs'; cbn; by apply Hdiv.
Qed.

(** Closing is open to everyone.  Once the close time of a stored, open
    pool has come, [prediction_closeSinglePool] goes through for any
    caller (the contract being neither paused nor locked); it moves no
    token and stores the pool closed, with odds that promise the stake of
    either side no more than the payout pool. *)
Theorem close_by_anyone (ctx : Ctx) (poolId : string) (pool : SinglePool.t) (w : World) :
  storage w !! PAUSED_KEY = None ->
  storage w !! LOCKED_KEY = None ->
  storage w !! spoolKey poolId = Some (VSinglePool pool) ->
  SinglePool.isClosed pool = false ->
  SinglePool.closeTs pool <= timestamp ctx ->
  exists w' pool',
    prediction_closeSinglePool ctx poolId w = Ok tt w'
    /\ storage w' !! spoolKey poolId = Some (VSinglePool pool')
    /\ balances w' = balances w
    /\ SinglePool.isClosed pool' = true
    /\ SinglePool.totalPool pool' = SinglePool.totalPool pool
    /\ (0 < SinglePool.totalPool pool ->
        (0 < SinglePool.outcomeABets pool ->
         SinglePool.outcomeAOddsFP pool' * SinglePool.outcomeABets pool
         <= payoutPool pool * ODDS_SCALE_U128)
        /\ (0 < SinglePool.outcomeBBets pool ->
            SinglePool.outcomeBOddsFP pool' * SinglePool.outcomeBBets pool
            <= payoutPool pool * ODDS_SCALE_U128)).
Proof.
  intros Hp Hl Hpool Hopen Hts.
  eexists _, (closed_pool pool). split.
  { unfold prediction_closeSinglePool. cbv zeta.
    eapply bind_run; [by apply whenNotPaused_run|].
    eapply bind_run; [by apply nonReentrant_run|].
    eapply bind_run.
    { apply (hasKey_run _ (VSinglePool pool)). by look_through. }
    eapply bind_run; [by apply assert_run|].
    eapply bind_run.
    { apply (getBytes_run _ (VSinglePool pool)). by look_through. }
    eapply bind_run; [reflexivity|].
    eapply bind_run; [apply assert_run; by rewrite Hopen|].
    eapply bind_run; [apply assert_run; by apply Z.leb_le|].
    eapply bind_run; [reflexivity|].
    eapply bind_run; [reflexivity|]. reflexivity. }
  split; [|split; [reflexivity|split; [|split]]].
  - look_through. rewrite lookup_insert_eq. reflexivity.
  - unfold closed_pool. cbv zeta. by repeat case_match.
  - unfold closed_pool. cbv zeta. by repeat case_match.
  - apply closed_pool_odds.
Qed.

Lemma close_by_anyone_witness :
  exists pool w' pool',
    storage one_bet_world !! spoolKey "p" = Some (VSinglePool pool)
    /\ prediction_closeSinglePool (by_ "carol" 100) "p" one_bet_world = Ok tt w'
    /\ storage w' !! spoolKey "p" = Some (VSinglePool pool')
    /\ balances w' = balances one_bet_world
    /\ SinglePool.isClosed pool' = true
    /\ SinglePool.totalPool pool' = SinglePool.totalPool pool
    /\ (0 < SinglePool.totalPool pool ->
        (0 < SinglePool.outcomeABets pool ->
         SinglePool.outcomeAOddsFP pool' * SinglePool.outcomeABets pool
         <= payoutPool pool * ODDS_SCALE_U128)
        /\ (0 < SinglePool.outcomeBBets pool ->
            SinglePool.outcomeBOddsFP pool' * SinglePool.outcomeBBets pool
            <= payoutPool pool * ODDS_SCALE_U128)).
Proof.
  assert (E : exists pool, storage one_bet_world !! spoolKey "p" = Some (VSinglePool pool)
                           /\ SinglePool.isClosed pool = false
                           /\ SinglePool.closeTs pool <= 100).
  { eexists. split; [vm_compute; reflexivity|]. split; [reflexivity|]. vm_compute.
    discriminate. }
  destruct E as (pool & E & Hopen & Hts). exists pool.
  destruct (close_by_anyone (by_ "carol" 100) "p" pool one_bet_world) as (w' & pool' & H);
    [vm_compute; reflexivity | vm_compute; reflexivity | exact E | exact Hopen | exact Hts |].
  exists w', pool'. split; [exact E | exact H].
Defined.

(** [prediction_settleSinglePool] returns only for a caller whose settler
    key is in the storage and for a stored pool that is closed and not yet
    settled.  It records the outcome it was given, as a signed byte, and
    nothing else: no other key of the storage changes and no token moves.
    The battle the pool was opened for is not looked at. *)
Theorem settle_recorded (ctx : Ctx) (poolId : string) (winningOutcome : Z) (w w' : World)
    (u : unit) :
  prediction_settleSinglePool ctx poolId winningOutcome w = Ok u w' ->
  exists pool,
    storage w !! spoolKey poolId = Some (VSinglePool pool)
    /\ SinglePool.isClosed pool = true
    /\ SinglePool.isSettled pool = false
    /\ is_Some (storage w !! (AUTH_SETTLER_PREFIX +:+ caller ctx))
    /\ storage w' !! spoolKey poolId
       = Some (VSinglePool (SinglePool.set_winningOutcome (i8 winningOutcome)
                              (SinglePool.set_isSettled true pool)))
    /\ (forall k, k <> spoolKey poolId -> k <> LOCKED_KEY ->
                  storage w' !! k = storage w !! k)
    /\ balances w' = balances w
    /\ allowances w' = allowances w.
Proof.
  intros H. unfold prediction_settleSinglePool, isAuthorizedSettler in H. cbv zeta in H.
  minv H. peel_lock.
  match goal with
  | Hx : storage w !! spoolKey poolId = Some (VSinglePool ?p) |- _ => exists p
  end.
  repeat match goal with
  | Hx : is_Some (<[LOCKED_KEY:=_]> _ !! _) |- _ => rewrite lookup_insert_ne in Hx by key_neq
  end.
  do 4 (split; [done|]).
  split; [|split; [|split; reflexivity]].
  - look_through. apply lookup_insert_eq.
  - intros k Hk Hl. by look_through.
Qed.

Lemma settle_recorded_witness :
  exists pool,
    storage (run (open_pool ++ [ (by_ "admin" 100, Market (CloseSinglePool "p")) ])
               funded_world) !! spoolKey "p" = Some (VSinglePool pool)
    /\ SinglePool.isClosed pool = true
    /\ SinglePool.isSettled pool = false
    /\ is_Some (storage (run (open_pool ++ [ (by_ "admin" 100, Market (CloseSinglePool "p")) ])
                           funded_world) !! (AUTH_SETTLER_PREFIX +:+ "oracle"))
    /\ storage (exec (prediction_settleSinglePool (by_ "oracle" 101) "p" 1)
                  (run (open_pool ++ [ (by_ "admin" 100, Market (CloseSinglePool "p")) ])
                     funded_world)) !! spoolKey "p"
       = Some (VSinglePool (SinglePool.set_winningOutcome (i8 1)
                              (SinglePool.set_isSettled true pool))).
Proof.
  assert (H : is_ok (prediction_settleSinglePool (by_ "oracle" 101) "p" 1
                       (run (open_pool ++ [ (by_ "admin" 100, Market (CloseSinglePool "p")) ])
                          funded_world)) = true) by (vm_compute; reflexivity).
  apply is_ok_exec in H.
  destruct (settle_recorded (by_ "oracle" 101) "p" 1 _ _ tt H)
    as (pool & E & Hc & Hs & Ha & E' & _).
  exists pool. by repeat split.
Defined.

Lemma payouts_within_pool_witness :
  total_payout
    (SinglePool.mk "p" "duel" "TOK" 100 2000 1000 1000 1900000 1900000 500 true true 0 2 0 1 0)
    [SingleBet.mk "alice" "p" 600 0 false 3; SingleBet.mk "carol" "p" 400 0 false 4]
  <= payoutPool
       (SinglePool.mk "p" "duel" "TOK" 100 2000 1000 1000 1900000 1900000 500 true true 0 2 0
          1 0).
Proof.
  apply payouts_within_pool.
  - vm_compute. reflexivity.
  - repeat constructor; vm_compute; discriminate.
  - vm_compute. discriminate.
Defined.
(** ** Placing a parlay *)

(** The odds a leg reads from its pool. *)
Definition leg_odds (w : World) (leg : string * Z) : Z :=
  match storage w !! spoolKey (fst leg) with
  | Some (VSinglePool pool) =>
      if i8 (snd leg) =? 0 then SinglePool.outcomeAOddsFP pool
      else SinglePool.outcomeBOddsFP pool
  | _ => 0
  end.

(** What [placeMultibet] asks of a leg: a stored pool that is closed, with
    non-zero odds on the chosen side. *)
Definition leg_ok (w : World) (leg : string * Z) : Prop :=
  exists pool,
    storage w !! spoolKey (fst leg) = Some (VSinglePool pool)
    /\ SinglePool.isClosed pool = true
    /\ 0 < leg_odds w leg.

(** The running product of the odds, in fixed point. *)
Definition parlay_odds (w : World) (legs : list (string * Z)) (acc : Z) : Z :=
  fold_left (fun acc leg => u128_div (u128_mul acc (leg_odds w leg)) ODDS_SCALE_U128) legs acc.

(** The text a leg is recorded as. *)
Definition leg_text (w : World) (leg : string * Z) : string :=
  selection_toString (mkSelection (fst leg) (i8 (snd leg)) (leg_odds w leg)).

Lemma placeMultibet_legs_run (w : World) (legs : list (string * Z)) (acc : Z)
    (sels : list string) :
  Forall (leg_ok w) legs ->
  placeMultibet_legs legs acc sels w
  = Ok (parlay_odds w legs acc, (sels ++ map (leg_text w) legs)%list) w.
Proof.
  intros Hlegs. revert acc sels.
  induction Hlegs as [|[poolId outcome] rest (pool & E & Hc & Ho) _ IH]; intros acc sels.
  - cbn. by rewrite app_nil_r.
  - cbn [placeMultibet_legs]. cbv zeta.
    unfold leg_odds in Ho. cbn [fst snd] in *. rewrite E in Ho.
    eapply bind_run; [by apply (hasKey_run _ (VSinglePool pool))|].
    eapply bind_run; [by apply assert_run|].
    eapply bind_run; [by apply (getBytes_run _ (VSinglePool pool))|].
    eapply bind_run; [reflexivity|].
    eapply bind_run; [by apply assert_run|].
    eapply bind_run; [apply assert_run; apply Z.ltb_lt; exact Ho|].
    assert (Hodds : leg_odds w (poolId, outcome)
                    = if i8 outcome =? 0 then SinglePool.outcomeAOddsFP pool
                      else SinglePool.outcomeBOddsFP pool).
    { unfold leg_odds. cbn [fst snd]. by rewrite E. }
    rewrite IH. f_equal. f_equal.
    + unfold parlay_odds. cbn [fold_left]. by rewrite Hodds.
    + cbn [map]. rewrite <- app_assoc. cbn [app]. unfold leg_text at 2. cbn [fst snd].
      by rewrite Hodds.
Qed.

Lemma leg_ok_ext (w v : World) (leg : string * Z) :
  (forall id, storage v !! spoolKey id = storage w !! spoolKey id) -> leg_ok w leg -> leg_ok v leg.
Proof.
  intros Hext (pool & E & Hc & Ho). exists pool. unfold leg_odds in *.
  rewrite Hext. by rewrite E in *.
Qed.

Lemma parlay_odds_ext (w v : World) (legs : list (string * Z)) (acc : Z) :
  (forall id, storage v !! spoolKey id = storage w !! spoolKey id) ->
  parlay_odds v legs acc = parlay_odds w legs acc.
Proof.
  intros Hext. revert acc. induction legs as [|leg rest IH]; intros acc; [done|].
  cbn [parlay_odds fold_left]. unfold leg_odds at 2 4. rewrite Hext. apply IH.
Qed.

Lemma leg_text_ext (w v : World) (legs : list (string * Z)) :
  (forall id, storage v !! spoolKey id = storage w !! spoolKey id) ->
  map (leg_text v) legs = map (leg_text w) legs.
Proof.
  intros Hext. apply map_ext. intros leg. unfold leg_text, leg_odds. by rewrite Hext.
Qed.

Ltac look_past_pull :=
  repeat first [ rewrite storage_pull_tokens | progress look_through ].

Lemma transferFrom_run (ctx : Ctx) (token owner recipient : string) (amount : Z) (w : World) :
  amount <= allowance_of w token owner (callee ctx) ->
  amount <= balance_of w token owner ->
  transferFrom ctx token owner recipient amount w
  = Ok tt (pull_tokens ctx token owner recipient amount w).
Proof.
  intros Ha Hb. unfold transferFrom. cbv zeta.
  apply Z.leb_le in Ha, Hb. by rewrite Ha, Hb.
Qed.

(** The betslip and the multipool that [placeMultibet] writes. *)
Definition new_betslip (ctx : Ctx) (betslipId multipoolId : string) (amount : Z)
    (legs : list (string * Z)) (w : World) : Betslip.t :=
  let odds := parlay_odds w legs ODDS_SCALE_U128 in
  Betslip.mk betslipId (caller ctx) multipoolId (u64 amount) (map (leg_text w) legs) odds
    (u128_div (u128_mul (u64 amount) odds) ODDS_SCALE_U128) false false false (timestamp ctx).

Definition staked_multipool (ctx : Ctx) (betslipId multipoolId : string) (amount : Z)
    (legs : list (string * Z)) (mp : Multipool.t) (w : World) : Multipool.t :=
  let mp1 := Multipool.set_totalPool (u128_add (Multipool.totalPool mp) (u64 amount)) mp in
  Multipool.set_totalWeightFP
    (u128_add (Multipool.totalWeightFP mp1)
       (Betslip.weightFP (new_betslip ctx betslipId multipoolId amount legs w))) mp1.

(** [prediction_placeMultibet] asks for closed pools with non-zero odds,
    a stored multipool, and the allowance and balance for the stake; that is
    all.  It goes through when the pools of the legs are already settled,
    when the multipool is already finalized and when the betslip id is
    already in use: the betslip stored under the id afterwards is the
    caller's new one, whatever was there before. *)
Theorem parlay_unchecked (ctx : Ctx) (betslipId multipoolId : string) (amount : Z)
    (legs : list (string * Z)) (mp : Multipool.t) (w : World) :
  storage w !! PAUSED_KEY = None ->
  storage w !! LOCKED_KEY = None ->
  Forall (leg_ok w) legs ->
  storage w !! mpoolKey multipoolId = Some (VMultipool mp) ->
  u64 amount <= allowance_of w (Multipool.token mp) (caller ctx) (callee ctx) ->
  u64 amount <= balance_of w (Multipool.token mp) (caller ctx) ->
  readable w TOTAL_BETS_PLACED_KEY ->
  exists w',
    prediction_placeMultibet ctx betslipId multipoolId amount legs w = Ok tt w'
    /\ storage w' !! betslipKey betslipId
       = Some (serializeBetslip (new_betslip ctx betslipId multipoolId amount legs w))
    /\ storage w' !! mpoolKey multipoolId
       = Some (VMultipool (staked_multipool ctx betslipId multipoolId amount legs mp w)).
Proof.
  intros Hp Hl Hlegs Hmp Ha Hb Hr.
  set (w1 := write LOCKED_KEY (VText "true") w).
  assert (Hext : forall id, storage w1 !! spoolKey id = storage w !! spoolKey id).
  { intros id. unfold w1. by look_through. }
  eexists. split; [|split].
  - unfold prediction_placeMultibet. cbv zeta.
    eapply bind_run; [by apply whenNotPaused_run|].
    eapply bind_run; [by apply nonReentrant_run|]. fold w1.
    eapply bind_run.
    { apply placeMultibet_legs_run. eapply Forall_impl; [exact Hlegs|].
      intros leg. by apply leg_ok_ext. }
    cbn [fst snd app].
    rewrite (parlay_odds_ext w w1) by done. rewrite (leg_text_ext w w1) by done.
    eapply bind_run.
    { apply (hasKey_run _ (VMultipool mp)). unfold w1. by look_through. }
    eapply bind_run; [by apply assert_run|].
    eapply bind_run.
    { apply (getBytes_run _ (VMultipool mp)). unfold w1. by look_through. }
    eapply bind_run; [reflexivity|].
    eapply bind_run; [reflexivity|].
    eapply bind_run; [apply assert_run; by apply Z.leb_le|].
    eapply bind_run; [reflexivity|].
    eapply bind_run; [apply assert_run; by apply Z.leb_le|].
    eapply bind_run; [by apply transferFrom_run|].
    eapply bind_run; [reflexivity|].
    eapply bind_run; [reflexivity|].
    eapply bind_run.
    { apply incrementCounter_ext with (w := w) (w' := write TOTAL_BETS_PLACED_KEY
        (VNum (u64 (counter_of w TOTAL_BETS_PLACED_KEY + 1))) w).
      - unfold incrementCounter. eapply bind_run; [by apply getCounter_run|].
        eapply bind_run; [reflexivity|]. reflexivity.
      - unfold serializeBetslip, w1. cbv zeta. by look_past_pull. }
    eapply bind_run; [reflexivity|]. reflexivity.
  - unfold serializeBetslip, new_betslip. cbv zeta.
    look_past_pull. apply lookup_insert_eq.
  - unfold serializeBetslip, staked_multipool, new_betslip. cbv zeta.
    look_past_pull. apply lookup_insert_eq.
Qed.

(** The parlay scenario with its multipool finalized: both pools are
    settled with B and Carol holds betslip [s1]. *)
Definition late_world : World :=
  run [ (by_ "admin" 103, Market (FinalizeMultipool "m")) ] parlay_world.

Lemma parlay_unchecked_witness :
  exists pool mp slip w',
    storage late_world !! spoolKey "p" = Some (VSinglePool pool)
    /\ SinglePool.isSettled pool = true
    /\ SinglePool.winningOutcome pool = 1
    /\ storage late_world !! mpoolKey "m" = Some (VMultipool mp)
    /\ Multipool.isFinalized mp = true
    /\ storage late_world !! betslipKey "s1" = Some (VBetslip slip)
    /\ Betslip.bettor slip = "carol"
    /\ prediction_placeMultibet (by_ "bob" 104) "s1" "m" 100 [("p", 1)] late_world = Ok tt w'
    /\ storage w' !! betslipKey "s1"
       = Some (serializeBetslip (new_betslip (by_ "bob" 104) "s1" "m" 100 [("p", 1)] late_world))
    /\ storage w' !! mpoolKey "m"
       = Some (VMultipool (staked_multipool (by_ "bob" 104) "s1" "m" 100 [("p", 1)] mp
                             late_world)).
Proof.
  assert (Ep : exists pool, storage late_world !! spoolKey "p" = Some (VSinglePool pool)
                            /\ SinglePool.isSettled pool = true
                            /\ SinglePool.winningOutcome pool = 1
                            /\ SinglePool.isClosed pool = true)
    by (eexists; split; [vm_compute; reflexivity | by repeat split]).
  assert (Em : exists mp, storage late_world !! mpoolKey "m" = Some (VMultipool mp)
                          /\ Multipool.isFinalized mp = true
                          /\ Multipool.token mp = "TOK")
    by (eexists; split; [vm_compute; reflexivity | by repeat split]).
  assert (Es : exists slip, storage late_world !! betslipKey "s1" = Some (VBetslip slip)
                            /\ Betslip.bettor slip = "carol")
    by (eexists; split; [vm_compute; reflexivity | by repeat split]).
  destruct Ep as (pool & Ep & Hs & Hw & Hc), Em as (mp & Em & Hf & Ht),
    Es as (slip & Es & Hb).
  destruct (parlay_unchecked (by_ "bob" 104) "s1" "m" 100 [("p", 1)] mp late_world)
    as (w' & H).
  - vm_compute. reflexivity.
  - vm_compute. reflexivity.
  - constructor; [|constructor]. exists pool. split; [exact Ep|]. split; [exact Hc|].
    vm_compute. reflexivity.
  - exact Em.
  - rewrite Ht. vm_compute. discriminate.
  - rewrite Ht. vm_compute. discriminate.
  - right. eexists. split; [vm_compute; reflexivity | lia].
  - exists pool, mp, slip, w'. do 7 (split; [assumption|]). exact H.
Defined.
(** ** Who may change a battle *)

Lemma triggerWildcard_sides (ctx : Ctx) (b : Battle.t) : sides (triggerWildcard ctx b) = sides b.
Proof. reflexivity. Qed.

Lemma stunnedTurn_sides (p : bool) (b : Battle.t) : sides (stunnedTurn p b) = sides b.
Proof.
  unfold stunnedTurn. rewrite advanceTurn_sides.
  destruct p; [apply tickStatus1_sides | apply tickStatus2_sides].
Qed.

Lemma resolveWildcard_sides (b : Battle.t) : sides (resolveWildcard b) = sides b.
Proof. unfold resolveWildcard. cbv zeta. repeat case_match; reflexivity. Qed.

(** At the end of a call: a battle key holds what it held, or the battle
    was rewritten with the same two sides, and the old record satisfies
    [Q]. *)
Definition battle_rel (Q : Battle.t -> Prop) (w0 : World) (k : string) (v : Value) : Prop :=
  unchanged w0 k v
  \/ (exists b b', storage w0 !! k = Some (VBattle b) /\ v = VBattle b'
                   /\ sides b' = sides b /\ Q b).

(** The caller is the owner of one of the two sides. *)
Definition a_side (ctx : Ctx) (b : Battle.t) : Prop :=
  caller ctx = Battle.player1Owner b \/ caller ctx = Battle.player2Owner b.

Ltac bstep Q w0 :=
  lazymatch goal with
  | |- keeps (unchanged _) _ (bind (setBytes (battleKey _) _) _) _ =>
      eapply keeps_bind;
        [apply (keeps_setBytes_to (battle_rel Q w0)); [intros; by left|]
        | intros _ _]
  | |- keeps _ _ (bind _ _) _ => kstep
  | |- keeps _ _ (match _ with _ => _ end) _ => kstep
  | |- keeps (unchanged _) (battle_rel _ _) _ _ =>
      apply (keeps_post _ _ _ _ (fun k v H => or_introl H)); kstep
  | _ => kstep
  end.

Ltac battle_side :=
  cbn beta in *; subst;
  repeat match goal with
  | H : unchanged _ (battleKey _) _ |- _ => apply unchanged_battleKey in H
  | H : bool_decide _ = true |- _ => apply bool_decide_eq_true in H
  end;
  right; eexists; eexists; split; [eassumption|]; split; [reflexivity|]; split;
  [ rewrite ?stunnedTurn_sides, ?playTurn_sides, ?resolveSkill_sides, ?resolveWildcard_sides;
    first [ reflexivity | by case_match ]
  | unfold a_side;
    match goal with
    | H : caller _ = (if ?p then _ else _) |- _ => destruct p; [by left | by right]
    end ].

Lemma game_call_battle_frames (w0 : World) (ctx : Ctx) (c : GameCall) :
  (forall battleId char1Id char2Id startTs, c <> CreateBattle battleId char1Id char2Id startTs) ->
  keeps (unchanged w0)
    (battle_rel (match c with
                 | ExecuteTurn _ _ _ _ _ | DecideWildcard _ _ _ => a_side ctx
                 | _ => fun _ => False
                 end) w0)
    (game_call ctx c) (fun _ => True).
Proof.
  intros Hc. destruct c; cbn [game_call].
  - apply (keeps_post _ _ _ _ (fun k v H => or_introl H)). unfold game_constructor.
    repeat kstep; frame_side.
  - apply (keeps_post _ _ _ _ (fun k v H => or_introl H)). unfold game_createCharacter.
    repeat kstep; frame_side.
  - by destruct (Hc battleId char1Id char2Id startTs).
  - unfold game_executeTurn. repeat (bstep (a_side ctx) w0); try frame_side. all: battle_side.
  - unfold game_decideWildcard. repeat (bstep (a_side ctx) w0); try frame_side. all: battle_side.
  - apply (keeps_post _ _ _ _ (fun k v H => or_introl H)). unfold game_finalizeBattle.
    repeat kstep; frame_side.
  - apply (keeps_post _ _ _ _ (fun k v H => or_introl H)). unfold game_setPaused.
    repeat kstep; frame_side.
  - apply (keeps_post _ _ _ _ (fun k v H => or_introl H)). unfold game_grantSettler.
    repeat kstep; frame_side.
  - apply (keeps_post _ _ _ _ (fun k v H => or_introl H)). unfold game_upgradeCharacter.
    repeat kstep; frame_side.
  - apply (keeps_post _ _ _ _ (fun k v H => or_introl H)). unfold game_grantXP.
    repeat kstep; frame_side.
  - apply (keeps_post _ _ _ _ (fun k v H => or_introl H)). unfold game_healCharacter.
    repeat kstep; frame_side.
  - apply (keeps_post _ _ _ _ (fun k v H => or_introl H)). unfold game_createEquipment.
    repeat kstep; frame_side.
  - apply (keeps_post _ _ _ _ (fun k v H => or_introl H)). unfold game_equipItem.
    repeat kstep; frame_side.
  - apply (keeps_post _ _ _ _ (fun k v H => or_introl H)). unfold game_transferEquipment.
    repeat kstep; frame_side.
  - apply (keeps_post _ _ _ _ (fun k v H => or_introl H)). unfold game_learnSkill.
    repeat kstep; frame_side.
  - apply (keeps_post _ _ _ _ (fun k v H => or_introl H)). unfold game_equipSkill.
    repeat kstep; frame_side.
  - apply (keeps_post _ _ _ _ (fun k v H => or_introl H)). unfold game_addToTreasury.
    repeat kstep; frame_side.
  - apply (keeps_post _ _ _ _ (fun k v H => or_introl H)). unfold game_withdrawTreasury.
    repeat kstep; frame_side.
Qed.

Lemma battleKey_inj (id id' : string) : battleKey id = battleKey id' -> id = id'.
Proof. unfold battleKey. apply (inj (String.app _)). Qed.

Lemma createBattle_Ok (ctx : Ctx) (battleId char1Id char2Id : string) (startTs : Z)
    (w w' : World) (u : unit) :
  game_createBattle ctx battleId char1Id char2Id startTs w = Ok u w' ->
  storage w !! battleKey battleId = None
  /\ (forall id', id' <> battleId ->
        storage w' !! battleKey id' = storage w !! battleKey id').
Proof.
  intros H. unfold game_createBattle in H. cbv zeta in H. minv'' H.
  match goal with
  | Hx : negb (bool_decide (is_Some (storage (write LOCKED_KEY _ w) !! _))) = true |- _ =>
      apply negb_true_iff, bool_decide_eq_false in Hx;
      rewrite storage_write, lookup_insert_ne in Hx by key_neq;
      rename Hx into Hnew
  end.
  split.
  - destruct (storage w !! battleKey battleId); [|done]. destruct Hnew. by eexists.
  - intros id' Hne. look_through.
    rewrite lookup_insert_ne by (intros E; apply battleKey_inj in E; congruence).
    by look_through.
Qed.

(** Who may change a stored battle: the owner of one of its two sides,
    through [game_executeTurn] or [game_decideWildcard]; no other call. *)
Definition moved_by (ctx : Ctx) (c : Call) (b : Battle.t) : Prop :=
  match c with
  | Game (ExecuteTurn _ _ _ _ _) | Game (DecideWildcard _ _ _) => a_side ctx b
  | _ => False
  end.

(** Across any call, a stored battle keeps its two characters, the two
    owners recorded at its creation, its start time and its creation time.
    If the call changed the battle at all, it was executeTurn or
    decideWildcard, called by the owner of one of the two sides. *)
Theorem battle_changes (ctx : Ctx) (c : Call) (w : World) (id : string) (b b' : Battle.t) :
  storage w !! battleKey id = Some (VBattle b) ->
  storage (exec (call ctx c) w) !! battleKey id = Some (VBattle b') ->
  Battle.player1Char b' = Battle.player1Char b
  /\ Battle.player2Char b' = Battle.player2Char b
  /\ Battle.player1Owner b' = Battle.player1Owner b
  /\ Battle.player2Owner b' = Battle.player2Owner b
  /\ Battle.startTs b' = Battle.startTs b
  /\ Battle.createdAt b' = Battle.createdAt b
  /\ (b' <> b -> moved_by ctx c b).
Proof.
  intros E E'.
  assert (Hsame : b' = b ->
                  Battle.player1Char b' = Battle.player1Char b
                  /\ Battle.player2Char b' = Battle.player2Char b
                  /\ Battle.player1Owner b' = Battle.player1Owner b
                  /\ Battle.player2Owner b' = Battle.player2Owner b
                  /\ Battle.startTs b' = Battle.startTs b
                  /\ Battle.createdAt b' = Battle.createdAt b
                  /\ (b' <> b -> moved_by ctx c b)).
  { intros ->. by repeat split. }
  assert (Hrel : forall (Q : Battle.t -> Prop) (c0 : M unit),
             keeps (unchanged w) (battle_rel Q w) c0 (fun _ => True) ->
             storage (exec c0 w) !! battleKey id = Some (VBattle b') ->
             b' = b \/ (sides b' = sides b /\ Q b)).
  { intros Q c0 Hc0 E0.
    assert (Hr : battle_rel Q w (battleKey id) (VBattle b')).
    { refine (keeps_exec (unchanged w) (battle_rel Q w) _ w _ Hc0 _ _ _ E0).
      - intros; by left.
      - intros k v Ek. by right. }
    destruct Hr as [Hr | (q & q' & Eq & [= <-] & Hid & HQ)].
    - apply unchanged_battleKey in Hr. left. congruence.
    - right. assert (q = b) by congruence. by subst. }
  assert (Hnever : forall c0 : M unit,
             keeps (unchanged w) (unchanged w) c0 (fun _ => True) ->
             storage (exec c0 w) !! battleKey id = Some (VBattle b') -> b' = b).
  { intros c0 Hc0 E0.
    destruct (Hrel (fun _ => False) c0) as [?|[_ []]]; [|done..].
    by apply (keeps_post _ _ _ _ (fun k v H => or_introl H)). }
  destruct c as [c|c|c]; cbn [call] in E'.
  - assert (Hc : (exists a x y z, c = CreateBattle a x y z)
                 \/ (forall a x y z, c <> CreateBattle a x y z)).
    { destruct c; first [ by left; eauto | by right ]. }
    destruct Hc as [(a & x & y & z & ->)|Hn].
    + apply Hsame. cbn [game_call] in E'. unfold exec in E'.
      destruct (game_createBattle ctx a x y z w) as [u w'|] eqn:Hc; [|congruence].
      apply createBattle_Ok in Hc as (Hnew & Hother).
      rewrite Hother in E' by (intros ->; congruence). congruence.
    + destruct (Hrel _ (game_call ctx c) (game_call_battle_frames w ctx c Hn) E')
        as [?|[Hid HQ]]; [by apply Hsame|].
      injection Hid as ? ? ? ? ? ?. do 6 (split; [done|]). intros _.
      by destruct c.
  - apply Hsame, (Hnever (prediction_call ctx c)); [|done].
    apply prediction_call_keeps, unchanged_off_game.
  - apply Hsame, (Hnever (propbet_call ctx c)); [|done].
    apply propbet_call_keeps, unchanged_off_game.
Qed.

Lemma battle_changes_witness :
  exists b b',
    storage duel_world !! battleKey "duel" = Some (VBattle b)
    /\ storage (exec (call (mkCtx "alice" "game" 36 false)
                        (Game (ExecuteTurn "duel" "mage" 0 false 0))) duel_world)
         !! battleKey "duel" = Some (VBattle b')
    /\ Battle.isFinished b = false
    /\ Battle.isFinished b' = true
    /\ Battle.player1Char b' = Battle.player1Char b
    /\ Battle.player2Char b' = Battle.player2Char b
    /\ Battle.player1Owner b' = Battle.player1Owner b
    /\ Battle.player2Owner b' = Battle.player2Owner b
    /\ Battle.startTs b' = Battle.startTs b
    /\ Battle.createdAt b' = Battle.createdAt b
    /\ (b' <> b -> "alice" = Battle.player1Owner b \/ "alice" = Battle.player2Owner b).
Proof.
  assert (E : exists b, storage duel_world !! battleKey "duel" = Some (VBattle b)
                        /\ Battle.isFinished b = false)
    by (eexists; split; [vm_compute; reflexivity | reflexivity]).
  assert (E' : exists b',
             storage (exec (call (mkCtx "alice" "game" 36 false)
                              (Game (ExecuteTurn "duel" "mage" 0 false 0))) duel_world)
               !! battleKey "duel" = Some (VBattle b')
             /\ Battle.isFinished b' = true)
    by (eexists; split; [vm_compute; reflexivity | reflexivity]).
  destruct E as (b & E & Hf), E' as (b' & E' & Hf'). exists b, b'.
  do 4 (split; [assumption|]).
  exact (battle_changes (mkCtx "alice" "game" 36 false)
           (Game (ExecuteTurn "duel" "mage" 0 false 0)) duel_world "duel" b b' E E').
Defined.
(** ** Claiming a parlay *)





